(** * A two-pass assembler for a 10-bit word machine: shallow embedding

    The development follows the C sources of the assembler:
    [second_pass.c] (base-4 letter encoding, label resolution, output
    writers), [words.c] (operand splitting and word emitters),
    [opmodes.c] (addressing-mode rules), [functions.c] (directive
    parsers and operand classification), [first_pass.c] (the line
    driver), [process_macros.c] (the macro preprocessor) and [main.c]
    (the loop over the input files).

    Conventions of the embedding.
    - A C string is a [string]; a [char *] cursor into a string is the
      suffix it points at.  Strings never contain the NUL character.
    - [long] values are unbounded [Z] (signed overflow is undefined in C
      and never relied upon); the narrowing conversions the code performs
      ([int], [unsigned], [unsigned short] and the bit-fields of
      [machine_word]) are written out with their wrap-around.
    - Every translation unit of the program owns a [static diag g_diag];
      the record [diags] keeps one sink per unit.
    - Linked lists are Rocq lists in link order.
    - A file read with [fgets] is the list of the buffers it returns;
      what the file system answers ([fopen], [rename]) is an argument
      of the function that asks. *)

From Stdlib Require Import ZArith List Bool Ascii String Lia.
Import ListNotations.
Open Scope string_scope.
Open Scope list_scope.
Open Scope Z_scope.

Infix "+++" := String.append (right associativity, at level 60).

(* ================================================================== *)
(** ** Integer conversions *)

Definition to_unsigned (x : Z) : Z := x mod 2 ^ 32.

Definition to_int (x : Z) : Z := (x + 2 ^ 31) mod 2 ^ 32 - 2 ^ 31.

Definition to_ushort (x : Z) : Z := x mod 2 ^ 16.

Definition LONG_MAX : Z := 2 ^ 63 - 1.

Definition LONG_MIN : Z := - 2 ^ 63.

(* ================================================================== *)
(** ** Characters and libc string helpers *)

Definition TAB : ascii := ascii_of_nat 9.

Definition NL : ascii := ascii_of_nat 10.

Definition DQUOTE : ascii := ascii_of_nat 34.

Definition char_code (c : ascii) : Z := Z.of_nat (nat_of_ascii c).

Definition isspace (c : ascii) : bool :=
  (char_code c =? 32) || ((9 <=? char_code c) && (char_code c <=? 13)).

Definition isdigit (c : ascii) : bool :=
  (48 <=? char_code c) && (char_code c <=? 57).

Definition isupper (c : ascii) : bool :=
  (65 <=? char_code c) && (char_code c <=? 90).

Definition islower (c : ascii) : bool :=
  (97 <=? char_code c) && (char_code c <=? 122).

Definition isalpha (c : ascii) : bool := isupper c || islower c.

Definition isalnum (c : ascii) : bool := isalpha c || isdigit c.

Definition tolower (c : ascii) : ascii :=
  if isupper c then ascii_of_nat (nat_of_ascii c + 32) else c.

(** [skip_ws]: advance past leading whitespace. *)
Fixpoint skip_ws (p : string) : string :=
  match p with
  | String c r => if isspace c then skip_ws r else p
  | EmptyString => EmptyString
  end.

(** [strchr s c]: the suffix starting at the first [c], if any. *)
Fixpoint strchr (s : string) (c : ascii) : option string :=
  match s with
  | EmptyString => None
  | String a r => if Ascii.eqb a c then Some s else strchr r c
  end.

(** Text before the first [c] (the whole string when [c] is absent). *)
Fixpoint before_char (s : string) (c : ascii) : string :=
  match s with
  | EmptyString => EmptyString
  | String a r => if Ascii.eqb a c then EmptyString else String a (before_char r c)
  end.

(** [strstr s pat]: the suffix starting at the first occurrence of [pat]. *)
Fixpoint strstr (s pat : string) : option string :=
  if prefix pat s then Some s
  else match s with
       | EmptyString => None
       | String _ r => strstr r pat
       end.

(** [n] characters further, stopping at the terminator. *)
Fixpoint advance (n : nat) (s : string) : string :=
  match n, s with
  | S k, String _ r => advance k r
  | _, _ => s
  end.

(** The first [n] characters. *)
Fixpoint take (n : nat) (s : string) : string :=
  match n, s with
  | S k, String c r => String c (take k r)
  | _, _ => EmptyString
  end.

Fixpoint rev_string_acc (s acc : string) : string :=
  match s with
  | EmptyString => acc
  | String c r => rev_string_acc r (String c acc)
  end.

Definition rev_string (s : string) : string := rev_string_acc s EmptyString.

Definition slen (s : string) : Z := Z.of_nat (String.length s).

(* ------------------------------------------------------------------ *)
(** *** [strtol] in base 10 *)

Definition digit_val (c : ascii) : Z := char_code c - 48.

(** Consume decimal digits; [n] counts the digits consumed. *)
Fixpoint strtol_digits (s : string) (acc : Z) (n : nat) : Z * nat * string :=
  match s with
  | String c r =>
      if isdigit c then strtol_digits r (10 * acc + digit_val c) (S n)
      else (acc, n, s)
  | EmptyString => (acc, n, s)
  end.

Definition clamp_long (v : Z) : Z :=
  if v <? LONG_MIN then LONG_MIN else if LONG_MAX <? v then LONG_MAX else v.

(** [strtol p &end 10]: [None] when no conversion was performed
    ([end == p]); otherwise the value (saturated to the range of [long])
    and the text at [end]. *)
Definition strtol (p : string) : option (Z * string) :=
  let q := skip_ws p in
  let '(neg, body) :=
    match q with
    | String c r =>
        if Ascii.eqb c "-" then (true, r)
        else if Ascii.eqb c "+" then (false, r)
        else (false, q)
    | EmptyString => (false, q)
    end in
  let '(v, n, rest) := strtol_digits body 0 O in
  match n with
  | O => None
  | S _ => Some (clamp_long (if neg then - v else v), rest)
  end.

(* ================================================================== *)
(** ** Diagnostics ([diag.c]) *)

Record diag : Type := mkDiag {
  error_count : Z;
  reported : list string
}.

Definition diag_zero : diag := mkDiag 0 [].

(** [diag_error]: record an error code and advance the counter. *)
Definition diag_error (d : diag) (code : string) : diag :=
  mkDiag (error_count d + 1) (reported d ++ [code]).

(** One [static diag g_diag] per translation unit. *)
Record diags : Type := mkDiags {
  g_first_pass : diag;
  g_functions : diag;
  g_opmodes : diag;
  g_words : diag;
  g_second_pass : diag
}.

Definition diags_zero : diags :=
  mkDiags diag_zero diag_zero diag_zero diag_zero diag_zero.

Definition err_first_pass (ds : diags) (c : string) : diags :=
  mkDiags (diag_error (g_first_pass ds) c) (g_functions ds) (g_opmodes ds)
          (g_words ds) (g_second_pass ds).

Definition err_functions (ds : diags) (c : string) : diags :=
  mkDiags (g_first_pass ds) (diag_error (g_functions ds) c) (g_opmodes ds)
          (g_words ds) (g_second_pass ds).

Definition err_opmodes (ds : diags) (c : string) : diags :=
  mkDiags (g_first_pass ds) (g_functions ds) (diag_error (g_opmodes ds) c)
          (g_words ds) (g_second_pass ds).

Definition err_words (ds : diags) (c : string) : diags :=
  mkDiags (g_first_pass ds) (g_functions ds) (g_opmodes ds)
          (diag_error (g_words ds) c) (g_second_pass ds).

Definition err_second_pass (ds : diags) (c : string) : diags :=
  mkDiags (g_first_pass ds) (g_functions ds) (g_opmodes ds)
          (g_words ds) (diag_error (g_second_pass ds) c).

(** Errors recorded anywhere in the program. *)
Definition total_errors (ds : diags) : Z :=
  error_count (g_first_pass ds) + error_count (g_functions ds)
  + error_count (g_opmodes ds) + error_count (g_words ds)
  + error_count (g_second_pass ds).

(* ================================================================== *)
(** ** Data model ([assembler.h]) *)

Definition LONG_MAX_L : Z := 100.
Definition MAX_LABEL_LEN : Z := 31.
Definition IC_INIT_VALUE : Z := 100.
Definition IMM8_MIN : Z := -128.
Definition IMM8_MAX : Z := 127.
Definition DATA_MIN : Z := -128.
Definition DATA_MAX : Z := 127.

(** [are_t]: the numeric values of the enumeration. *)
Definition ARE_ABS : Z := 0.
Definition ARE_EXT : Z := 1.
Definition ARE_REL : Z := 2.

Inductive CommandsTable : Type :=
| MOV | CMP | ADD | SUB | NOT | CLR | LEA | INC | DEC | JMP | BNE | RED
| PRN | JSR | RTS | STOP
| DATA | STRING | MATRIX | ENTRY | EXTERN
| UNDEFINED.

(** The enumeration value of a command (the opcode, for instructions). *)
Definition cmd_value (c : CommandsTable) : Z :=
  match c with
  | MOV => 0 | CMP => 1 | ADD => 2 | SUB => 3 | NOT => 4 | CLR => 5
  | LEA => 6 | INC => 7 | DEC => 8 | JMP => 9 | BNE => 10 | RED => 11
  | PRN => 12 | JSR => 13 | RTS => 14 | STOP => 15
  | DATA => 16 | STRING => 17 | MATRIX => 18 | ENTRY => 19 | EXTERN => 20
  | UNDEFINED => -1
  end.

Inductive addr_mode : Type :=
| ADDR_IMMEDIATE | ADDR_DIRECT | ADDR_MATRIX | ADDR_REGISTER | ADDR_NONE.

Inductive symbol_type : Type :=
| DATA_SYMBOL | CODE_SYMBOL | EXTERNAL_SYMBOL | ENTRY_SYMBOL | NONE_SYMBOL.

(** [machine_word]: [value] is an 8-bit and [are] a 2-bit field. *)
Record machine_word : Type := mkWord {
  address : Z;
  label : string;
  value : Z;
  are : Z
}.

(** [data_word]: [d_value] is an [unsigned short]. *)
Record data_word : Type := mkData {
  d_address : Z;
  d_value : Z
}.

Record symbol_table : Type := mkSym {
  key : string;
  sym_value : Z;
  type : symbol_type
}.

(** [table]: the list headed by [tab->head]. *)
Definition table : Type := list symbol_table.

Record entry_list : Type := mkEntry {
  e_labels : string;
  e_addr : Z
}.

(** [extern_list] node with its [extern_usage] chain. *)
Record extern_list : Type := mkExtern {
  x_labels : string;
  addr_head : list Z
}.

(* ================================================================== *)
(** ** Base-4 letters ([second_pass.c]) *)

Definition BASE4_DIGIT_MASK : Z := 3.
Definition PAYLOAD8_MASK : Z := 255.
Definition ARE2_MASK : Z := 3.
Definition WORD10_MASK : Z := 1023.
Definition WORD10_DIGITS : Z := 5.
Definition OB_ADDR_WIDTH_DEFAULT : Z := 4.
Definition EXT_ENT_ADDR_WIDTH : Z := 4.
Definition OUTPUT_PATH_CAP : Z := 512.
Definition OB_WORD_LIMIT : Z := 255.
Definition BASE4_TMP_MAX : Z := 17.

Definition quad_letter (d : Z) : ascii :=
  ascii_of_nat (nat_of_ascii "a" + Z.to_nat (Z.land d BASE4_DIGIT_MASK)).

(** The loop of [to_base4_letters]: [i] runs from [width - 1] down to 0,
    writing [out[i]]; [filled] is the text already written at positions
    above [i]. *)
Fixpoint base4_fill (i : nat) (value : Z) (filled : string) : string :=
  match i with
  | O => filled
  | S k =>
      base4_fill k (Z.shiftr value 2)
                 (String (quad_letter (Z.land value BASE4_DIGIT_MASK)) filled)
  end.

(** [to_base4_letters value width out]: the contents of [out] afterwards
    (untouched when [width <= 0]). *)
Definition to_base4_letters (value width : Z) (out : string) : string :=
  if width <=? 0 then out
  else base4_fill (Z.to_nat width) value EmptyString.

(** The collecting loop of [to_base4_letters_header]: least-significant
    digits are appended to [tmp] while [value > 0] and room remains. *)
Fixpoint header_collect (room : nat) (value : Z) (tmp : string) : string :=
  match room with
  | O => tmp
  | S k =>
      if 0 <? value
      then header_collect k (Z.shiftr value 2)
             (tmp +++ String (quad_letter (Z.land value BASE4_DIGIT_MASK)) EmptyString)
      else tmp
  end.

Definition to_base4_letters_header (value : Z) : string :=
  if value =? 0 then "a"
  else rev_string (header_collect (Z.to_nat (BASE4_TMP_MAX - 1)) value EmptyString).

Definition word10_to_letters_code (payload8 are2 : Z) (out5 : string) : string :=
  let v10 := Z.lor (Z.shiftl (Z.land payload8 PAYLOAD8_MASK) 2) (Z.land are2 ARE2_MASK) in
  to_base4_letters v10 WORD10_DIGITS out5.

Definition word10_to_letters_data (payload10 are2_unused : Z) (out5 : string) : string :=
  let v10 := Z.land payload10 WORD10_MASK in
  to_base4_letters v10 WORD10_DIGITS out5.

(** Reading base-4 letters back (a=0, b=1, c=2, d=3, most significant
    digit first).  The program has no decoder; this is the inverse the
    round-trip law is stated against. *)
Definition letter_digit (c : ascii) : option Z :=
  if Ascii.eqb c "a" then Some 0
  else if Ascii.eqb c "b" then Some 1
  else if Ascii.eqb c "c" then Some 2
  else if Ascii.eqb c "d" then Some 3
  else None.

Fixpoint from_base4_letters_acc (s : string) (acc : Z) : option Z :=
  match s with
  | EmptyString => Some acc
  | String c r =>
      match letter_digit c with
      | Some d => from_base4_letters_acc r (4 * acc + d)
      | None => None
      end
  end.

Definition from_base4_letters (s : string) : option Z :=
  from_base4_letters_acc s 0.

(* ================================================================== *)
(** ** Second pass: label resolution ([second_pass.c]) *)

Definition add_to_extern_usage_list (head : list Z) (addr : Z) : list Z :=
  head ++ [addr].

(** The symbol-table scan of [resolve_labels_in_place] (also
    [find_symbol]): the first node whose key equals [name]. *)
Fixpoint find_symbol (head : table) (name : string) : option symbol_table :=
  match head with
  | [] => None
  | cur :: next =>
      if String.eqb (key cur) name then Some cur else find_symbol next name
  end.

(** The extern scan of [resolve_labels_in_place]: at the first node
    named [lbl] the address is appended to its usage chain; [None] when
    no node matches. *)
Fixpoint extern_use (ext_ptr : list extern_list) (lbl : string) (addr : Z)
  : option (list extern_list) :=
  match ext_ptr with
  | [] => None
  | x :: next =>
      if String.eqb (x_labels x) lbl
      then Some (mkExtern (x_labels x) (add_to_extern_usage_list (addr_head x) addr) :: next)
      else match extern_use next lbl addr with
           | Some next' => Some (x :: next')
           | None => None
           end
  end.

(** One iteration of the loop of [resolve_labels_in_place]. *)
Definition resolve_word (mw : machine_word) (symtab : table) (ext_list : list extern_list)
  : machine_word * list extern_list :=
  if String.eqb (label mw) EmptyString then (mw, ext_list)
  else
    match find_symbol symtab (label mw) with
    | Some hit =>
        (mkWord (address mw) (label mw) (sym_value hit mod 256) ARE_REL, ext_list)
    | None =>
        match extern_use ext_list (label mw) (address mw) with
        | Some ext' => (mkWord (address mw) (label mw) 0 ARE_EXT, ext')
        | None => (mkWord (address mw) (label mw) 0 (are mw), ext_list)
        end
    end.

Fixpoint resolve_labels_in_place (head : list machine_word) (symtab : table)
         (ext_list : list extern_list) : list machine_word * list extern_list :=
  match head with
  | [] => ([], ext_list)
  | mw :: next =>
      let '(mw', ext1) := resolve_word mw symtab ext_list in
      let '(next', ext2) := resolve_labels_in_place next symtab ext1 in
      (mw' :: next', ext2)
  end.

(** [complete_entry_labels]: an entry found in the table takes the
    symbol's value (narrowed to [int]); others keep their address. *)
Definition complete_entry_labels (symtab : table) (ent_list : list entry_list)
  : list entry_list :=
  map (fun e =>
         match find_symbol symtab (e_labels e) with
         | Some sym => mkEntry (e_labels e) (to_int (sym_value sym))
         | None => e
         end) ent_list.

(* ================================================================== *)
(** ** Second pass: output writers ([second_pass.c]) *)

Definition NLs : string := String NL EmptyString.
Definition TABs : string := String TAB EmptyString.

(** [strncpy(path, stem, cap - 1)] followed by
    [strncat(path, suffix, cap - strlen(path) - 1)]. *)
Definition bounded_path (stem suffix : string) : string :=
  let path := take (Z.to_nat (OUTPUT_PATH_CAP - 1)) stem in
  path +++ take (Z.to_nat (OUTPUT_PATH_CAP - slen path - 1)) suffix.

(** The code loop of the object writer; the buffers [addr_buf] and
    [word_str] are threaded through the iterations. *)
Fixpoint write_code_section (mw : list machine_word) (addr_width : Z)
         (addr_buf word_str : string) : string * (string * string) :=
  match mw with
  | [] => (EmptyString, (addr_buf, word_str))
  | w :: next =>
      let addr_buf1 := to_base4_letters (to_unsigned (address w)) addr_width addr_buf in
      let word_str1 :=
        word10_to_letters_code (Z.land (value w) PAYLOAD8_MASK)
                               (Z.land (are w) ARE2_MASK) word_str in
      let '(rest, bufs) := write_code_section next addr_width addr_buf1 word_str1 in
      (addr_buf1 +++ " " +++ word_str1 +++ NLs +++ rest, bufs)
  end.

(** The data loop of the object writer. *)
Fixpoint write_data_section (dw : list data_word) (addr_width : Z)
         (addr_buf word_str : string) : string :=
  match dw with
  | [] => EmptyString
  | w :: next =>
      let addr_buf1 := to_base4_letters (to_unsigned (d_address w)) addr_width addr_buf in
      let word_str1 := word10_to_letters_data (to_unsigned (d_value w)) 0 word_str in
      addr_buf1 +++ " " +++ word_str1 +++ NLs
        +++ write_data_section next addr_width addr_buf1 word_str1
  end.

(** The header line printed by [write_ob_base4_only]. *)
Definition ob_header (IC_final DC_final : Z) : string :=
  TABs +++ to_base4_letters_header (to_unsigned IC_final)
       +++ TABs +++ to_base4_letters_header (to_unsigned DC_final) +++ NLs.

(** [write_ob_base4_only]: the diagnostics afterwards and the contents
    of the object file, [None] when no file was written.  [fopen_w path]
    tells whether [path] can be opened for writing. *)
Definition write_ob_base4_only (fopen_w : string -> bool) (stem : string)
           (code_head : list machine_word) (data_head : list data_word)
           (IC_final addr_width DC_final : Z) (ds : diags)
  : diags * option string :=
  let code_words := if IC_INIT_VALUE <? IC_final then IC_final - IC_INIT_VALUE else 0 in
  let data_words := if 0 <? DC_final then DC_final else 0 in
  let total_words := code_words + data_words in
  let width_capacity := Z.shiftl 1 (2 * addr_width) in
  let max_allowed :=
    if width_capacity - 1 <? OB_WORD_LIMIT then width_capacity - 1 else OB_WORD_LIMIT in
  if max_allowed <? total_words then (err_second_pass ds "AS_OB_TOO_LONG", None)
  else if negb (fopen_w (bounded_path stem ".ob"))
       then (err_second_pass ds "AS_FILE_OPEN", None)
  else
    let addr_buf := to_base4_letters_header (to_unsigned IC_final) in
    let word_str := to_base4_letters_header (to_unsigned DC_final) in
    let '(code_text, (addr_buf1, word_str1)) :=
      write_code_section code_head addr_width addr_buf word_str in
    (ds, Some (ob_header IC_final DC_final +++ code_text
                 +++ write_data_section data_head addr_width addr_buf1 word_str1)).

Definition has_any_extern_usage (xs : list extern_list) : bool :=
  existsb (fun e => match addr_head e with [] => false | _ :: _ => true end) xs.

Definition path_too_long (stem suffix : string) (cap : Z) : bool :=
  cap <? slen stem + slen suffix + 1.

(** The lines of one extern: one per recorded usage. *)
Fixpoint ext_usage_lines (name : string) (uses : list Z) (a4 : string) : string * string :=
  match uses with
  | [] => (EmptyString, a4)
  | u :: next =>
      let a4' := to_base4_letters (to_unsigned u) EXT_ENT_ADDR_WIDTH a4 in
      let '(rest, a4'') := ext_usage_lines name next a4' in
      (name +++ " " +++ a4' +++ NLs +++ rest, a4'')
  end.

Fixpoint ext_lines (ext_list : list extern_list) (a4 : string) : string :=
  match ext_list with
  | [] => EmptyString
  | x :: next =>
      let '(txt, a4') := ext_usage_lines (x_labels x) (addr_head x) a4 in
      txt +++ ext_lines next a4'
  end.

Definition write_ext_base4_only (fopen_w : string -> bool) (stem : string)
           (ext_list : list extern_list) (ds : diags) : diags * option string :=
  if negb (has_any_extern_usage ext_list) then (ds, None)
  else if path_too_long stem ".ext" OUTPUT_PATH_CAP then (err_second_pass ds "AS420", None)
  else if negb (fopen_w (stem +++ ".ext")) then (err_second_pass ds "AS421", None)
  else (ds, Some (ext_lines ext_list EmptyString)).

Fixpoint ent_lines (ent_list : list entry_list) (a4 : string) : string :=
  match ent_list with
  | [] => EmptyString
  | e :: next =>
      let a4' := to_base4_letters (to_unsigned (e_addr e)) EXT_ENT_ADDR_WIDTH a4 in
      e_labels e +++ " " +++ a4' +++ NLs +++ ent_lines next a4'
  end.

Definition write_ent_base4_only (fopen_w : string -> bool) (stem : string)
           (ent_list : list entry_list) (ds : diags) : diags * option string :=
  match ent_list with
  | [] => (ds, None)
  | _ :: _ =>
      if path_too_long stem ".ent" OUTPUT_PATH_CAP then (err_second_pass ds "AS422", None)
      else if negb (fopen_w (stem +++ ".ent")) then (err_second_pass ds "AS423", None)
      else (ds, Some (ent_lines ent_list EmptyString))
  end.

(** What a run of the second pass leaves behind. *)
Record pass2 : Type := mkPass2 {
  p2_rc : Z;
  p2_diags : diags;
  p2_code : list machine_word;
  p2_ext : list extern_list;
  p2_ent : list entry_list;
  ob_file : option string;
  ent_file : option string;
  ext_file : option string
}.

Definition second_pass (fopen_w : string -> bool) (stem : string) (symtab : table)
           (code_head : list machine_word) (data_head : list data_word)
           (IC_final DC_final : Z)
           (ext_list : list extern_list) (ent_list : list entry_list)
           (ds : diags) : pass2 :=
  if 0 <? error_count (g_second_pass ds)
  then mkPass2 (-1) (err_second_pass ds "AS050") code_head ext_list ent_list None None None
  else
    let '(code1, ext1) := resolve_labels_in_place code_head symtab ext_list in
    let ent1 := complete_entry_labels symtab ent_list in
    let '(ds1, ob) :=
      write_ob_base4_only fopen_w stem code1 data_head IC_final OB_ADDR_WIDTH_DEFAULT
                          DC_final ds in
    let '(ds2, ent) := write_ent_base4_only fopen_w stem ent1 ds1 in
    let '(ds3, ext) := write_ext_base4_only fopen_w stem ext1 ds2 in
    mkPass2 0 ds3 code1 ext1 ent1 ob ent ext.

(* ================================================================== *)
(** ** Lexical helpers ([words.c], [functions.c]) *)

Definition COMMENT_CHAR : ascii := ";".
Definition OPERAND_DELIMITER : ascii := ",".
Definition IMMEDIATE_PREFIX : ascii := "#".
Definition MATRIX_BRACKET_OPEN : ascii := "[".
Definition MATRIX_BRACKET_CLOSE : ascii := "]".
Definition REGBUF_MAX : Z := 3.
Definition OPS_ZERO : Z := 0.
Definition OPS_ONE : Z := 1.
Definition OPS_TWO : Z := 2.

Definition is_empty (s : string) : bool :=
  match s with EmptyString => true | String _ _ => false end.

(** Drop trailing whitespace. *)
Fixpoint rtrim (s : string) : string :=
  match s with
  | EmptyString => EmptyString
  | String c r =>
      let r' := rtrim r in
      if is_empty r' && isspace c then EmptyString else String c r'
  end.

(** [trim_inplace]: the string the returned pointer designates (leading
    whitespace skipped, the terminator moved before trailing
    whitespace). *)
Definition trim_inplace (str : string) : string := rtrim (skip_ws str).

(** Skip the mnemonic token: advance while the character is not a space. *)
Fixpoint skip_token (p : string) : string :=
  match p with
  | String c r => if isspace c then p else skip_token r
  | EmptyString => EmptyString
  end.

Definition IS_REGISTER_PREFIX (c : ascii) : bool :=
  Ascii.eqb c "r" || Ascii.eqb c "R".

Definition IS_VALID_REGISTER_CHAR (c : ascii) : bool :=
  (char_code "0" <=? char_code c) && (char_code c <=? char_code "7").

Definition is_register_token (token : string) : bool :=
  match token with
  | String c0 (String c1 EmptyString) =>
      IS_REGISTER_PREFIX c0 && IS_VALID_REGISTER_CHAR c1
  | _ => false
  end.

(** [reg_id]: the register number, or -1. *)
Definition reg_id (tok : string) : Z :=
  if is_register_token tok
  then match tok with
       | String _ (String c1 _) => char_code c1 - char_code "0"
       | _ => -1
       end
  else -1.

(** The comma-counting loop of [split_operands]; [fuel] bounds the
    number of iterations by the length of the text. *)
Fixpoint count_commas (fuel : nat) (cursor : string) (comma_count : Z) : Z :=
  match fuel with
  | O => comma_count
  | S k =>
      match cursor with
      | EmptyString => comma_count
      | String c r =>
          if Ascii.eqb c MATRIX_BRACKET_OPEN
          then match strchr r MATRIX_BRACKET_CLOSE with
               | None => comma_count
               | Some close => count_commas k (advance 1 close) comma_count
               end
          else count_commas k r
                 (if Ascii.eqb c OPERAND_DELIMITER then comma_count + 1 else comma_count)
      end
  end.

(** [split_operands]: the operand count with [*out_src] and [*out_dst]. *)
Definition split_operands (text : string) : Z * option string * option string :=
  let text1 := before_char text COMMENT_CHAR in
  let p := trim_inplace text1 in
  if is_empty p then (0, None, None)
  else
    let p1 := trim_inplace (skip_token p) in
    if is_empty p1 then (0, None, None)
    else if 1 <? count_commas (S (String.length p1)) p1 0 then (0, None, None)
    else
      match strchr p1 OPERAND_DELIMITER with
      | None =>
          let left := trim_inplace p1 in
          if is_empty left then (0, None, None) else (OPS_ONE, Some left, None)
      | Some comma =>
          let left := trim_inplace (before_char p1 OPERAND_DELIMITER) in
          let right := trim_inplace (advance 1 comma) in
          if is_empty left || is_empty right then (0, None, None)
          else (OPS_TWO, Some left, Some right)
      end.

(* ------------------------------------------------------------------ *)
(** *** Matrix operands ([functions.c]) *)

Inductive matrix_error_t : Type :=
| MATRIX_ERROR_NONE
| MATRIX_ERROR_NO_BRACKETS
| MATRIX_ERROR_EMPTY_LABEL
| MATRIX_ERROR_LABEL_TOO_LONG
| MATRIX_ERROR_EMPTY_INDEX
| MATRIX_ERROR_INVALID_REGISTER
| MATRIX_ERROR_NON_REGISTER
| MATRIX_ERROR_JUNK_BETWEEN_BRACKETS.

Inductive register_validity_t : Type :=
| REG_VALID | REG_INVALID_NOT_REGISTER | REG_INVALID_BAD_REGISTER.

(** The slices of a parsed matrix operand. *)
Record matrix_parse_result_t : Type := mkMatrix {
  m_label : string;
  m_reg1 : string;
  m_reg2 : string;
  m_error : matrix_error_t
}.

(** [find_bracket_pair start]: the text from [start] up to the opening
    bracket, the text between the brackets, and the text after the
    closing one. *)
Definition find_bracket_pair (start : string) : option (string * string * string) :=
  match strchr start MATRIX_BRACKET_OPEN with
  | None => None
  | Some open_bracket =>
      let inner := advance 1 open_bracket in
      match strchr inner MATRIX_BRACKET_CLOSE with
      | None => None
      | Some close_bracket =>
          Some (before_char start MATRIX_BRACKET_OPEN,
                before_char inner MATRIX_BRACKET_CLOSE,
                advance 1 close_bracket)
      end
  end.

(** [trim_whitespace] on the slice [start, end). *)
Definition trim_whitespace (slice : string) : string := rtrim (skip_ws slice).

Definition validate_register_slice (slice : string) : register_validity_t :=
  match slice with
  | EmptyString => REG_INVALID_NOT_REGISTER
  | String c0 r =>
      if IS_REGISTER_PREFIX c0
      then match r with
           | String c1 EmptyString =>
               if IS_VALID_REGISTER_CHAR c1 then REG_VALID else REG_INVALID_BAD_REGISTER
           | _ => REG_INVALID_BAD_REGISTER
           end
      else REG_INVALID_NOT_REGISTER
  end.

Definition matrix_failure (e : matrix_error_t) : matrix_parse_result_t :=
  mkMatrix EmptyString EmptyString EmptyString e.

Definition register_error (v : register_validity_t) : matrix_error_t :=
  match v with
  | REG_INVALID_BAD_REGISTER => MATRIX_ERROR_INVALID_REGISTER
  | _ => MATRIX_ERROR_NON_REGISTER
  end.

Definition parse_matrix_operand (operand : string) : matrix_parse_result_t :=
  match find_bracket_pair operand with
  | None => matrix_failure MATRIX_ERROR_NO_BRACKETS
  | Some (lbl, inner1, after_b2) =>
      match find_bracket_pair after_b2 with
      | None => matrix_failure MATRIX_ERROR_NO_BRACKETS
      | Some (between, inner2, _) =>
          if slen lbl =? 0 then matrix_failure MATRIX_ERROR_EMPTY_LABEL
          else if MAX_LABEL_LEN <? slen lbl then matrix_failure MATRIX_ERROR_LABEL_TOO_LONG
          else
            let reg1 := trim_whitespace inner1 in
            if is_empty reg1 then matrix_failure MATRIX_ERROR_EMPTY_INDEX
            else
              match validate_register_slice reg1 with
              | REG_VALID =>
                  if negb (is_empty (skip_ws between))
                  then matrix_failure MATRIX_ERROR_JUNK_BETWEEN_BRACKETS
                  else
                    let reg2 := trim_whitespace inner2 in
                    if is_empty reg2 then matrix_failure MATRIX_ERROR_EMPTY_INDEX
                    else
                      match validate_register_slice reg2 with
                      | REG_VALID => mkMatrix lbl reg1 reg2 MATRIX_ERROR_NONE
                      | v => matrix_failure (register_error v)
                      end
              | v => matrix_failure (register_error v)
              end
      end
  end.

Definition looks_like_matrix (operand : string) : bool :=
  match m_error (parse_matrix_operand operand) with
  | MATRIX_ERROR_NONE => true
  | _ => false
  end.

Definition get_addr_method (operand : option string) : addr_mode :=
  match operand with
  | None => ADDR_NONE
  | Some op =>
      let trimmed := skip_ws op in
      match trimmed with
      | EmptyString => ADDR_NONE
      | String c _ =>
          if Ascii.eqb c IMMEDIATE_PREFIX then ADDR_IMMEDIATE
          else if is_register_token trimmed then ADDR_REGISTER
          else if looks_like_matrix trimmed then ADDR_MATRIX
          else match strchr trimmed MATRIX_BRACKET_OPEN with
               | Some _ => ADDR_MATRIX
               | None => ADDR_DIRECT
               end
      end
  end.

(** [report_matrix_error]: the code reported for each parser error (none
    for the errors the bracket search cannot produce). *)
Definition report_matrix_error (e : matrix_error_t) (ds : diags) : diags :=
  match e with
  | MATRIX_ERROR_NO_BRACKETS => err_functions ds "AS110"
  | MATRIX_ERROR_EMPTY_LABEL => err_functions ds "AS110"
  | MATRIX_ERROR_LABEL_TOO_LONG => err_functions ds "AS020"
  | MATRIX_ERROR_EMPTY_INDEX => err_functions ds "AS111"
  | MATRIX_ERROR_INVALID_REGISTER => err_functions ds "AS114"
  | MATRIX_ERROR_NON_REGISTER => err_functions ds "AS113"
  | MATRIX_ERROR_JUNK_BETWEEN_BRACKETS => err_functions ds "AS112"
  | MATRIX_ERROR_NONE => ds
  end.

(** [copy_slice_safe]: at most [capacity - 1] characters are copied. *)
Definition copy_slice_safe (slice : string) (capacity : Z) : string :=
  take (Z.to_nat (capacity - 1)) slice.

(** [split_matrix_ex]: on success the label and the two register
    texts. *)
Definition split_matrix_ex (token : string) (label_capacity : Z) (ds : diags)
  : diags * option (string * string * string) :=
  let result := parse_matrix_operand token in
  match m_error result with
  | MATRIX_ERROR_NONE =>
      (ds, Some (copy_slice_safe (m_label result) label_capacity,
                 copy_slice_safe (m_reg1 result) REGBUF_MAX,
                 copy_slice_safe (m_reg2 result) REGBUF_MAX))
  | e => (report_matrix_error e ds, None)
  end.

(* ================================================================== *)
(** ** Addressing-mode rules ([opmodes.c]) *)

Definition addr_mode_value (m : addr_mode) : Z :=
  match m with
  | ADDR_IMMEDIATE => 0 | ADDR_DIRECT => 1 | ADDR_MATRIX => 2
  | ADDR_REGISTER => 3 | ADDR_NONE => -1
  end.

Definition AM_BIT (n : Z) : Z := Z.shiftl 1 n.
Definition AM_IMM : Z := AM_BIT (addr_mode_value ADDR_IMMEDIATE).
Definition AM_DIR : Z := AM_BIT (addr_mode_value ADDR_DIRECT).
Definition AM_MAT : Z := AM_BIT (addr_mode_value ADDR_MATRIX).
Definition AM_REG : Z := AM_BIT (addr_mode_value ADDR_REGISTER).
Definition AM_NONE : Z := 0.
Definition AM_ALL : Z := Z.lor (Z.lor (Z.lor AM_IMM AM_DIR) AM_MAT) AM_REG.
Definition AM_DMR : Z := Z.lor (Z.lor AM_DIR AM_MAT) AM_REG.

Record opcode_mode : Type := mkRule {
  name : string;
  min_ops : Z;
  max_ops : Z;
  src_mask : Z;
  dst_mask : Z
}.

Definition RULE_MOV := mkRule "mov" OPS_TWO OPS_TWO AM_ALL AM_DMR.
Definition RULE_CMP := mkRule "cmp" OPS_TWO OPS_TWO AM_ALL AM_ALL.
Definition RULE_ADD := mkRule "add" OPS_TWO OPS_TWO AM_DMR AM_DMR.
Definition RULE_SUB := mkRule "sub" OPS_TWO OPS_TWO AM_DMR AM_DMR.
Definition RULE_LEA := mkRule "lea" OPS_TWO OPS_TWO (Z.lor AM_DIR AM_MAT) AM_DMR.
Definition RULE_CLR := mkRule "clr" OPS_ONE OPS_ONE AM_NONE AM_DMR.
Definition RULE_NOT := mkRule "not" OPS_ONE OPS_ONE AM_NONE AM_DMR.
Definition RULE_INC := mkRule "inc" OPS_ONE OPS_ONE AM_NONE AM_DMR.
Definition RULE_DEC := mkRule "dec" OPS_ONE OPS_ONE AM_NONE AM_DMR.
Definition RULE_JMP := mkRule "jmp" OPS_ONE OPS_ONE AM_NONE AM_DMR.
Definition RULE_BNE := mkRule "bne" OPS_ONE OPS_ONE AM_NONE AM_DMR.
Definition RULE_JSR := mkRule "jsr" OPS_ONE OPS_ONE AM_NONE AM_DMR.
Definition RULE_RED := mkRule "red" OPS_ONE OPS_ONE AM_NONE AM_DMR.
Definition RULE_PRN := mkRule "prn" OPS_ONE OPS_ONE AM_NONE AM_ALL.
Definition RULE_RTS := mkRule "rts" OPS_ZERO OPS_ZERO AM_NONE AM_NONE.
Definition RULE_STOP := mkRule "stop" OPS_ZERO OPS_ZERO AM_NONE AM_NONE.

Definition opcode_rule (cmd : CommandsTable) : option opcode_mode :=
  match cmd with
  | MOV => Some RULE_MOV | CMP => Some RULE_CMP | ADD => Some RULE_ADD
  | SUB => Some RULE_SUB | LEA => Some RULE_LEA | CLR => Some RULE_CLR
  | NOT => Some RULE_NOT | INC => Some RULE_INC | DEC => Some RULE_DEC
  | JMP => Some RULE_JMP | BNE => Some RULE_BNE | JSR => Some RULE_JSR
  | RED => Some RULE_RED | PRN => Some RULE_PRN | RTS => Some RULE_RTS
  | STOP => Some RULE_STOP
  | _ => None
  end.

Definition mode_bit (m : addr_mode) : Z :=
  match m with
  | ADDR_IMMEDIATE => AM_IMM
  | ADDR_DIRECT => AM_DIR
  | ADDR_MATRIX => AM_MAT
  | ADDR_REGISTER => AM_REG
  | ADDR_NONE => AM_NONE
  end.

(** [validate_operand]: 1 when an error was reported. *)
Definition validate_operand (rule : opcode_mode) (mode : addr_mode) (is_source : bool)
           (ds : diags) : Z * diags :=
  let required_mask := if is_source then src_mask rule else dst_mask rule in
  match mode with
  | ADDR_NONE => (1, err_opmodes ds "AS023")
  | _ =>
      if Z.land required_mask (mode_bit mode) =? 0
      then (1, err_opmodes ds "AS022")
      else (0, ds)
  end.

(** [validate_modes_for_opcode]: 1 when any error was reported. *)
Definition validate_modes_for_opcode (cmd : CommandsTable) (operand_count : Z)
           (src_mode dst_mode : addr_mode) (ds : diags) : Z * diags :=
  match opcode_rule cmd with
  | None => (1, err_opmodes ds "AS001")
  | Some rule =>
      if (to_unsigned operand_count <? min_ops rule)
         || (max_ops rule <? to_unsigned operand_count)
      then (1, err_opmodes ds "AS003")
      else if operand_count =? OPS_ZERO then (0, ds)
      else if operand_count =? OPS_ONE then
        let '(e1, ds1) :=
          match src_mode with
          | ADDR_NONE => (0, ds)
          | _ => (1, err_opmodes ds "AS024")
          end in
        let '(e2, ds2) := validate_operand rule dst_mode false ds1 in
        (if (e1 =? 1) || (e2 =? 1) then 1 else 0, ds2)
      else if operand_count =? OPS_TWO then
        let '(e1, ds1) := validate_operand rule src_mode true ds in
        let '(e2, ds2) := validate_operand rule dst_mode false ds1 in
        (if (e1 =? 1) || (e2 =? 1) then 1 else 0, ds2)
      else (1, err_opmodes ds "AS003")
  end.

(* ================================================================== *)
(** ** Word emitters ([words.c]) *)

Definition OPCODE4_MASK : Z := 15.
Definition SRC_DST2_MASK : Z := 3.
Definition SRC2_SHIFT : Z := 2.
Definition OPC4_SHIFT : Z := 4.
Definition REG_NIBBLE_MASK : Z := 15.
Definition REG_HIGH_SHIFT : Z := 4.

Definition BITS_IMMEDIATE : Z := 0.
Definition BITS_DIRECT : Z := 1.
Definition BITS_MATRIX : Z := 2.
Definition BITS_REGISTER : Z := 3.

Definition to2bits (m : addr_mode) : Z :=
  match m with
  | ADDR_IMMEDIATE => BITS_IMMEDIATE
  | ADDR_DIRECT => BITS_DIRECT
  | ADDR_MATRIX => BITS_MATRIX
  | ADDR_REGISTER => BITS_REGISTER
  | ADDR_NONE => BITS_IMMEDIATE
  end.

(** The instruction counter and the code image, as the emitters update
    them through their pointer arguments. *)
Record emitter : Type := mkEmit {
  em_IC : Z;
  em_image : list machine_word
}.

Definition create_data_word (value address : Z) : data_word :=
  mkData address (to_ushort value).

(** [put_word]: a node appended at the end of the image.  A label is
    copied with [strncpy] up to [MAX_LABEL_LEN - 1] characters; [None]
    is the null pointer. *)
Definition put_word (IC payload are : Z) (head : list machine_word)
           (lbl : option string) : list machine_word :=
  let packed := Z.land payload PAYLOAD8_MASK in
  let l := match lbl with
           | Some s => take (Z.to_nat (MAX_LABEL_LEN - 1)) s
           | None => EmptyString
           end in
  head ++ [mkWord (to_int IC) l (packed mod 256) (are mod 4)].

Definition toBinaryFirstWord (op : CommandsTable) (src dest : addr_mode) (e : emitter)
  : emitter :=
  let opc := Z.land (to_unsigned (cmd_value op)) OPCODE4_MASK in
  let s2 := Z.land (to2bits src) SRC_DST2_MASK in
  let d2 := Z.land (to2bits dest) SRC_DST2_MASK in
  let packed :=
    Z.land (Z.lor (Z.lor (Z.shiftl opc OPC4_SHIFT) (Z.shiftl s2 SRC2_SHIFT)) d2)
           PAYLOAD8_MASK in
  mkEmit (em_IC e + 1)
         (em_image e ++ [mkWord (to_int (em_IC e)) EmptyString (packed mod 256) ARE_ABS]).

(** [parse_imm8]: the parsed value, or [None] for the return value 0. *)
Definition parse_imm8 (tok : string) : option Z :=
  match tok with
  | String c rest =>
      if Ascii.eqb c IMMEDIATE_PREFIX then
        match strtol rest with
        | None => None
        | Some (v, e) =>
            if negb (is_empty (skip_ws e)) then None
            else if (v <? IMM8_MIN) || (IMM8_MAX <? v) then None
            else Some (to_int v)
        end
      else None
  | EmptyString => None
  end.

Definition emit_addr_word (symbol : option string) (addr8 are : Z) (e : emitter) : emitter :=
  mkEmit (em_IC e + 1) (put_word (em_IC e) addr8 are (em_image e) symbol).

Definition emit_imm_word (val : Z) (e : emitter) : emitter :=
  let payload := Z.land (to_unsigned val) PAYLOAD8_MASK in
  mkEmit (em_IC e + 1) (put_word (em_IC e) payload ARE_ABS (em_image e) None).

Definition emit_regcode_pair (rA rB : Z) (e : emitter) : emitter :=
  let payload :=
    Z.lor (Z.shiftl (to_unsigned (Z.land rA REG_NIBBLE_MASK)) REG_HIGH_SHIFT)
          (to_unsigned (Z.land rB REG_NIBBLE_MASK)) in
  mkEmit (em_IC e + 1) (put_word (em_IC e) payload ARE_ABS (em_image e) None).

Definition emit_regcode_single_dest (r : Z) (e : emitter) : emitter :=
  let payload := Z.land (to_unsigned r) REG_NIBBLE_MASK in
  mkEmit (em_IC e + 1) (put_word (em_IC e) payload ARE_ABS (em_image e) None).

Definition emit_regcode_single_src (r : Z) (e : emitter) : emitter :=
  let payload := to_unsigned (Z.shiftl (Z.land (to_unsigned r) REG_NIBBLE_MASK) REG_HIGH_SHIFT) in
  mkEmit (em_IC e + 1) (put_word (em_IC e) payload ARE_ABS (em_image e) None).

(** [emit_symbol_addr]: the word of a symbol reference.  A symbol
    already in the table gives its low byte and an ARE by kind;
    otherwise payload 0, absolute. *)
Definition emit_symbol_addr (sym_name : string) (symtab : table) (e : emitter) : emitter :=
  let '(payload, are) :=
    match find_symbol symtab sym_name with
    | Some cur =>
        (Z.land (to_unsigned (sym_value cur)) PAYLOAD8_MASK,
         match type cur with
         | EXTERNAL_SYMBOL => ARE_EXT
         | CODE_SYMBOL | DATA_SYMBOL | ENTRY_SYMBOL => ARE_REL
         | NONE_SYMBOL => ARE_ABS
         end)
    | None => (0, ARE_ABS)
    end in
  emit_addr_word (Some sym_name) payload are e.

(* ================================================================== *)
(** ** The instruction encoder ([words.c], [process_commands_words]) *)

Definition addr_mode_eqb (a b : addr_mode) : bool :=
  addr_mode_value a =? addr_mode_value b.

(** The text of a token pointer ([None], the null pointer, designates
    no text). *)
Definition tok_text (t : option string) : string :=
  match t with Some s => s | None => EmptyString end.

(** Operand encoders return [false] for "goto out". *)
Definition encode_matrix_operand (tok : string) (symtab : table) (e : emitter)
           (ds : diags) : bool * emitter * diags :=
  match split_matrix_ex tok 64 ds with
  | (ds1, None) => (false, e, ds1)
  | (ds1, Some (base, ra, rb)) =>
      let rA := reg_id ra in
      let rB := reg_id rb in
      if (rA <? 0) || (rB <? 0) then (false, e, err_words ds1 "AS023")
      else (true, emit_regcode_pair rA rB (emit_symbol_addr base symtab e), ds1)
  end.

(** Phase 4: the words of the source operand. *)
Definition encode_source (src_mode : addr_mode) (src_tok : option string)
           (symtab : table) (e : emitter) (ds : diags) : bool * emitter * diags :=
  match src_mode with
  | ADDR_IMMEDIATE =>
      match parse_imm8 (tok_text src_tok) with
      | None => (false, e, err_words ds "AS023")
      | Some v => (true, emit_imm_word v e, ds)
      end
  | ADDR_DIRECT => (true, emit_symbol_addr (tok_text src_tok) symtab e, ds)
  | ADDR_REGISTER =>
      let r := reg_id (tok_text src_tok) in
      if r <? 0 then (false, e, err_words ds "AS023")
      else (true, emit_regcode_single_src r e, ds)
  | ADDR_MATRIX => encode_matrix_operand (tok_text src_tok) symtab e ds
  | ADDR_NONE => (true, e, ds)
  end.

(** Phase 5: the words of the destination operand. *)
Definition encode_destination (dst_mode : addr_mode) (tok : option string)
           (symtab : table) (e : emitter) (ds : diags) : bool * emitter * diags :=
  match dst_mode with
  | ADDR_IMMEDIATE =>
      match parse_imm8 (tok_text tok) with
      | None => (false, e, err_words ds "AS023")
      | Some v => (true, emit_imm_word v e, ds)
      end
  | ADDR_DIRECT => (true, emit_symbol_addr (tok_text tok) symtab e, ds)
  | ADDR_REGISTER =>
      let r := reg_id (tok_text tok) in
      if r <? 0 then (false, e, err_words ds "AS023")
      else (true, emit_regcode_single_dest r e, ds)
  | ADDR_MATRIX => encode_matrix_operand (tok_text tok) symtab e ds
  | ADDR_NONE => (true, e, ds)
  end.

(** [process_commands_words]: return code, counter and image, and
    diagnostics after encoding one instruction line. *)
Definition process_commands_words (cmd : CommandsTable) (line : string) (e : emitter)
           (symtab : table) (ds : diags) : Z * emitter * diags :=
  let '(operand_count, src_tok, dst_tok) := split_operands line in
  let '(src_mode, dst_mode) :=
    if operand_count =? OPS_TWO
    then (get_addr_method src_tok, get_addr_method dst_tok)
    else if operand_count =? OPS_ONE
         then (ADDR_NONE, get_addr_method src_tok)
         else (ADDR_NONE, ADDR_NONE) in
  let '(invalid, ds1) :=
    validate_modes_for_opcode cmd operand_count src_mode dst_mode ds in
  if negb (invalid =? 0) then (-1, e, ds1)
  else
    let e1 := toBinaryFirstWord cmd src_mode dst_mode e in
    if (operand_count =? OPS_TWO) && addr_mode_eqb src_mode ADDR_REGISTER
       && addr_mode_eqb dst_mode ADDR_REGISTER
    then
      let rS := reg_id (tok_text src_tok) in
      let rD := reg_id (tok_text dst_tok) in
      if (rS <? 0) || (rD <? 0) then (-1, e1, err_words ds1 "AS023")
      else
        (0,
         mkEmit (em_IC e1 + 1)
                (put_word (em_IC e1)
                          (Z.lor (Z.shiftl (to_unsigned (Z.land rS REG_NIBBLE_MASK)) REG_HIGH_SHIFT)
                                 (to_unsigned (Z.land rD REG_NIBBLE_MASK)))
                          ARE_ABS (em_image e1) None),
         ds1)
    else
      let '(ok4, e2, ds2) :=
        if operand_count =? OPS_TWO
        then encode_source src_mode src_tok symtab e1 ds1
        else (true, e1, ds1) in
      if negb ok4 then (-1, e2, ds2)
      else
        let '(ok5, e3, ds3) :=
          if OPS_ONE <=? operand_count
          then encode_destination dst_mode
                 (if operand_count =? OPS_TWO then dst_tok else src_tok) symtab e2 ds2
          else (true, e2, ds2) in
        if negb ok5 then (-1, e3, ds3) else (0, e3, ds3).

(* ================================================================== *)
(** ** Directive parsers ([functions.c]) *)

Definition strip_inline_comment (line : string) : string :=
  before_char line COMMENT_CHAR.

Definition in_data_range (v : Z) : bool := (DATA_MIN <=? v) && (v <=? DATA_MAX).

Definition starts_with (s : string) (c : ascii) : bool :=
  match s with String a _ => Ascii.eqb a c | EmptyString => false end.

(** [parse_bracketed_pos_int]: on success the cursor after the closing
    bracket and the value narrowed to [int]. *)
Definition parse_bracketed_pos_int (pp : string) : option (string * Z) :=
  let p := skip_ws pp in
  if negb (starts_with p "[") then None
  else
    let p1 := skip_ws (advance 1 p) in
    match strtol p1 with
    | None => None
    | Some (v, endptr) =>
        if v <=? 0 then None
        else
          let p2 := skip_ws endptr in
          if negb (starts_with p2 "]") then None
          else Some (advance 1 p2, to_int v)
    end.

(** The data counter and the data image, as the directive parsers
    update them. *)
Record data_state : Type := mkDS {
  ds_DC : Z;
  ds_image : list data_word
}.

(** [create_data_word] followed by [add_data_word_to_end] and the
    increment of the data counter. *)
Definition push_data (value IC : Z) (s : data_state) : data_state :=
  mkDS (ds_DC s + 1)
       (ds_image s ++ [create_data_word (to_int value) (to_int (ds_DC s + IC))]).

(** The list loop of [.data]; [last_comma] tells whether a comma has
    been seen.  Each iteration consumes at least one character, so
    [fuel] is bounded by the length of the text. *)
Fixpoint data_loop (fuel : nat) (p : string) (expect_value last_comma : bool)
         (IC : Z) (s : data_state) (ds : diags) : Z * data_state * diags :=
  match fuel with
  | O => (0, s, ds)
  | S k =>
      let p1 := skip_ws p in
      if is_empty p1 then
        if expect_value && last_comma then (-1, s, err_functions ds "AS314") else (0, s, ds)
      else if expect_value then
        if starts_with p1 "," then (-1, s, err_functions ds "AS310")
        else
          match strtol p1 with
          | None => (-1, s, err_functions ds "AS311")
          | Some (v, endptr) =>
              if negb (in_data_range v) then (-1, s, err_functions ds "AS312")
              else data_loop k endptr false last_comma IC (push_data v IC s) ds
          end
      else
        if negb (starts_with p1 ",") then (-1, s, err_functions ds "AS313")
        else data_loop k (advance 1 p1) true true IC s ds
  end.

Definition process_data_directive_at (line : string) (IC : Z) (s : data_state)
           (ds : diags) : Z * data_state * diags :=
  let line1 := strip_inline_comment line in
  match strstr line1 ".data" with
  | None => (-1, s, ds)
  | Some directive_start =>
      let p := advance 5 directive_start in
      data_loop (S (String.length p)) p true false IC s ds
  end.

(** The character loop of [.string]: one word per character up to the
    closing quote; returns the cursor where the loop stopped. *)
Fixpoint string_loop (p : string) (IC : Z) (s : data_state) : string * data_state :=
  match p with
  | EmptyString => (p, s)
  | String c r =>
      if Ascii.eqb c DQUOTE then (p, s)
      else string_loop r IC (push_data (char_code c) IC s)
  end.

Definition process_string_directive_at (line : string) (IC : Z) (s : data_state)
           (ds : diags) : Z * data_state * diags :=
  let line1 := strip_inline_comment line in
  match strstr line1 ".string" with
  | None => (-1, s, ds)
  | Some directive_start =>
      let p := skip_ws (advance 7 directive_start) in
      if negb (starts_with p DQUOTE) then (-1, s, err_functions ds "AS320")
      else
        let '(p1, s1) := string_loop (advance 1 p) IC s in
        if negb (starts_with p1 DQUOTE) then (-1, s1, err_functions ds "AS321")
        else (0, push_data 0 IC s1, ds)
  end.

(** The initializer loop of [.mat].  [produced] counts the words
    emitted so far for this directive. *)
Fixpoint mat_loop (fuel : nat) (p : string) (expect_value : bool)
         (total_values produced IC : Z) (s : data_state) (ds : diags)
  : Z * Z * data_state * diags :=
  match fuel with
  | O => (0, produced, s, ds)
  | S k =>
      let p1 := skip_ws p in
      if is_empty p1 then (0, produced, s, ds)
      else if expect_value then
        if starts_with p1 "," then (-1, produced, s, err_functions ds "AS304")
        else
          match strtol p1 with
          | None => (-1, produced, s, err_functions ds "AS305")
          | Some (v, endptr) =>
              if negb (in_data_range v) then (-1, produced, s, err_functions ds "AS306")
              else if total_values <=? produced
                   then (-1, produced, s, err_functions ds "AS307")
              else mat_loop k endptr false total_values (produced + 1) IC
                            (push_data v IC s) ds
          end
      else
        if starts_with p1 "," then
          let look := skip_ws (advance 1 p1) in
          if is_empty look then (-1, produced, s, err_functions ds "AS309")
          else mat_loop k (advance 1 p1) true total_values produced IC s ds
        else (-1, produced, s, err_functions ds "AS308")
  end.

(** The zero-fill loop of [.mat]: [n] further cells. *)
Fixpoint mat_fill (n : nat) (IC : Z) (s : data_state) : data_state :=
  match n with
  | O => s
  | S k => mat_fill k IC (push_data 0 IC s)
  end.

Definition process_matrix_directive_at (line : string) (IC : Z) (s : data_state)
           (ds : diags) : Z * data_state * diags :=
  let line1 := strip_inline_comment line in
  match strstr line1 ".mat" with
  | None => (-1, s, ds)
  | Some mat =>
      let p := skip_ws (advance 4 mat) in
      match parse_bracketed_pos_int p with
      | None => (-1, s, err_functions ds "AS301")
      | Some (p1, rows) =>
          match parse_bracketed_pos_int p1 with
          | None => (-1, s, err_functions ds "AS302")
          | Some (p2, cols) =>
              if (0 <? rows) && (0 <? cols) && (Z.quot LONG_MAX_L cols <? rows)
              then (-1, s, err_functions ds "AS303")
              else
                let total_values := rows * cols in
                let p3 := skip_ws p2 in
                let '(rc, produced, s1, ds1) :=
                  mat_loop (S (String.length p3)) p3 true total_values 0 IC s ds in
                if negb (rc =? 0) then (rc, s1, ds1)
                else (0, mat_fill (Z.to_nat (total_values - produced)) IC s1, ds1)
          end
      end
  end.

(** [process_data_string_mat]: dispatch on the directive. *)
Definition process_data_string_mat (cmd : CommandsTable) (line : string) (IC : Z)
           (s : data_state) (ds : diags) : Z * data_state * diags :=
  match cmd with
  | DATA => process_data_directive_at line IC s ds
  | STRING => process_string_directive_at line IC s ds
  | MATRIX => process_matrix_directive_at line IC s ds
  | _ => (-1, s, ds)
  end.

(* ================================================================== *)
(** ** First pass: validation helpers ([first_pass.c]) *)

Definition TOK_MAX_LEN : Z := 32.
Definition OB_SUM_LIMIT : Z := 255.

(** [check_sum_limit]: 1 when [IC + DC] is below the limit; otherwise
    the error is reported and 0 returned. *)
Definition check_sum_limit (IC DC : Z) (ds : diags) : Z * diags :=
  let sum := IC + DC in
  if sum <? OB_SUM_LIMIT then (1, ds)
  else (0, err_first_pass ds "AS_SUM_GE_LIMIT").

Definition is_register_name (str : string) : bool :=
  match str with
  | String c0 (String c1 EmptyString) =>
      (Ascii.eqb c0 "r" || Ascii.eqb c0 "R")
      && ((char_code "0" <=? char_code c1) && (char_code c1 <=? char_code "7"))
  | _ => false
  end.

Fixpoint all_chars (f : ascii -> bool) (s : string) : bool :=
  match s with
  | EmptyString => true
  | String c r => f c && all_chars f r
  end.

Definition is_alpha_num_label (str : string) : bool :=
  match str with
  | EmptyString => false
  | String c r => isalpha c && all_chars isalnum r
  end.

(** [ieq]: equality up to letter case. *)
Fixpoint ieq (str1 str2 : string) : bool :=
  match str1, str2 with
  | String a r1, String b r2 =>
      if Ascii.eqb (tolower a) (tolower b) then ieq r1 r2 else false
  | EmptyString, EmptyString => true
  | _, _ => false
  end.

Definition instructions : list (string * CommandsTable) :=
  [("mov", MOV); ("cmp", CMP); ("add", ADD); ("sub", SUB);
   ("not", NOT); ("clr", CLR); ("lea", LEA); ("inc", INC);
   ("dec", DEC); ("jmp", JMP); ("bne", BNE); ("red", RED);
   ("prn", PRN); ("jsr", JSR); ("rts", RTS); ("stop", STOP)].

Definition directives : list (string * CommandsTable) :=
  [("data", DATA); ("string", STRING); ("mat", MATRIX);
   ("entry", ENTRY); ("extern", EXTERN)].

Fixpoint match_in (tbl : list (string * CommandsTable)) (token : string) : CommandsTable :=
  match tbl with
  | [] => UNDEFINED
  | (n, t) :: rest => if ieq token n then t else match_in rest token
  end.

Definition match_instruction (token : string) : CommandsTable :=
  match_in instructions token.

Definition match_directive (token : string) : CommandsTable :=
  match_in directives token.

Definition is_undefined (c : CommandsTable) : bool :=
  match c with UNDEFINED => true | _ => false end.

Definition is_reserved_mnemonic (token : string) : bool :=
  if is_empty token then false
  else if negb (is_undefined (match_instruction token)) then true
  else if negb (is_undefined (match_directive token)) then true
  else is_register_name token.

Definition validate_label_name (label_name : string) (ds : diags) : bool * diags :=
  if is_empty label_name then (false, err_first_pass ds "AS001")
  else if negb (is_alpha_num_label label_name) then (false, err_first_pass ds "AS001")
  else if is_reserved_mnemonic label_name then (false, err_first_pass ds "AS015")
  else if is_register_name label_name then (false, err_first_pass ds "AS016")
  else (true, ds).

(** The text before the first character satisfying [stop]. *)
Fixpoint span_until (stop : ascii -> bool) (s : string) : string :=
  match s with
  | EmptyString => EmptyString
  | String c r => if stop c then EmptyString else String c (span_until stop r)
  end.

(** The text from the first character satisfying [stop]. *)
Fixpoint drop_until (stop : ascii -> bool) (s : string) : string :=
  match s with
  | EmptyString => EmptyString
  | String c r => if stop c then s else drop_until stop r
  end.

Definition label_stop (c : ascii) : bool :=
  isspace c || Ascii.eqb c ";" || Ascii.eqb c ":".

(** [is_label_definition]: the return value and [*label_out]. *)
Definition is_label_definition (line_start : string) (ds : diags)
  : bool * option string * diags :=
  let p := skip_ws line_start in
  let q := drop_until label_stop p in
  if negb (starts_with q ":") then (false, None, ds)
  else
    let lbl := span_until label_stop p in
    if MAX_LABEL_LEN <? slen lbl then (false, None, err_first_pass ds "AS001")
    else
      let '(ok, ds1) := validate_label_name lbl ds in
      (ok, Some lbl, ds1).

Definition token_stop (c : ascii) : bool :=
  isspace c || Ascii.eqb c "," || Ascii.eqb c "[" || Ascii.eqb c ";".

(** The token loop shared by [first_pass] and [get_command_type]: the
    lower-cased token (at most [room] characters) and the cursor where
    the loop stopped. *)
Fixpoint extract_token (room : nat) (p : string) : string * string :=
  match room, p with
  | S k, String c r =>
      if token_stop c then (EmptyString, p)
      else let '(t, e) := extract_token k r in (String (tolower c) t, e)
  | _, _ => (EmptyString, p)
  end.

Definition get_command_type (line : string) (ds : diags) : CommandsTable * diags :=
  let ptr := skip_ws line in
  if is_empty ptr || starts_with ptr ";" then (UNDEFINED, ds)
  else
    let '(token, _) := extract_token (Z.to_nat (TOK_MAX_LEN - 1)) ptr in
    if is_empty token then (UNDEFINED, err_first_pass ds "AS002")
    else
      let command_token := if starts_with token "." then advance 1 token else token in
      let result := match_instruction token in
      if negb (is_undefined result) then (result, ds)
      else
        let result2 := match_directive command_token in
        if negb (is_undefined result2) then (result2, ds)
        else (UNDEFINED, err_first_pass ds "AS004").

(* ------------------------------------------------------------------ *)
(** *** Symbol table and declaration lists *)

(** [add_table_item]: an existing key is updated in place, a new one is
    inserted at the head. *)
Fixpoint update_symbol (tab : table) (k : string) (v : Z) (t : symbol_type)
  : option table :=
  match tab with
  | [] => None
  | curr :: next =>
      if String.eqb (key curr) k then Some (mkSym (key curr) v t :: next)
      else match update_symbol next k v t with
           | Some next' => Some (curr :: next')
           | None => None
           end
  end.

Definition add_table_item (tab : table) (k : string) (v : Z) (t : symbol_type) : table :=
  match update_symbol tab k v t with
  | Some tab' => tab'
  | None => mkSym k v t :: tab
  end.

Definition add_entry (head : list entry_list) (lbl : string) (addr : Z) : list entry_list :=
  head ++ [mkEntry (take 30 lbl) (to_int addr)].

Definition add_extern (head : list extern_list) (lbl : string) : list extern_list :=
  head ++ [mkExtern (take 30 lbl) []].

Definition determine_symbol_type (cmd : CommandsTable) : symbol_type :=
  match cmd with
  | DATA | STRING | MATRIX => DATA_SYMBOL
  | ENTRY => ENTRY_SYMBOL
  | EXTERN => EXTERNAL_SYMBOL
  | _ => CODE_SYMBOL
  end.

Definition process_valid_label (tab : table) (label_name : string) (sym_type : symbol_type)
           (IC_value DC_value : Z) : table :=
  match sym_type with
  | CODE_SYMBOL => add_table_item tab label_name IC_value CODE_SYMBOL
  | DATA_SYMBOL => add_table_item tab label_name (IC_value + DC_value) DATA_SYMBOL
  | _ => tab
  end.

Definition arg_stop (c : ascii) : bool :=
  isspace c || Ascii.eqb c ";" || Ascii.eqb c ",".

(** [handle_directive_argument] for [.entry] ([is_entry]) and
    [.extern]: return value, lists and diagnostics (reported through
    the caller's sink). *)
Definition handle_directive_argument (is_entry : bool) (arg : string)
           (ent_list : list entry_list) (ext_list : list extern_list) (ds : diags)
  : Z * list entry_list * list extern_list * diags :=
  let missing := if is_entry then "AS011" else "AS012" in
  let p := skip_ws arg in
  if is_empty p || starts_with p ";" then (1, ent_list, ext_list, err_first_pass ds missing)
  else
    let lbl := span_until arg_stop p in
    let q := drop_until arg_stop p in
    if slen lbl <=? 0 then (1, ent_list, ext_list, err_first_pass ds missing)
    else if MAX_LABEL_LEN <? slen lbl then (1, ent_list, ext_list, err_first_pass ds "AS013")
    else if negb (is_alpha_num_label lbl) || is_reserved_mnemonic lbl || is_register_name lbl
         then (1, ent_list, ext_list, err_first_pass ds "AS014")
    else
      let r := skip_ws q in
      if negb (is_empty r) && negb (starts_with r ";")
      then (1, ent_list, ext_list, err_first_pass ds "AS015")
      else if is_entry then (0, add_entry ent_list lbl 0, ext_list, ds)
           else (0, ent_list, add_extern ext_list lbl, ds).

(* ================================================================== *)
(** ** First pass: the line driver ([first_pass.c]) *)

(** The objects [first_pass] updates through its pointer arguments,
    with its local error flag. *)
Record fp_state : Type := mkFP {
  symtab : table;
  data_img : list data_word;
  ic_image : list machine_word;
  IC : Z;
  DC : Z;
  ext_list : list extern_list;
  ent_list : list entry_list;
  diagnostics : diags;
  had_error : bool
}.

Definition is_instruction (cmd : CommandsTable) : bool :=
  match cmd with
  | MOV | CMP | ADD | SUB | NOT | CLR | LEA | INC | DEC | JMP | BNE | RED
  | PRN | JSR | RTS | STOP => true
  | _ => false
  end.

Definition is_data_directive (cmd : CommandsTable) : bool :=
  match cmd with DATA | STRING | MATRIX => true | _ => false end.

Definition delimiter_stop (c : ascii) : bool :=
  Ascii.eqb c " " || Ascii.eqb c TAB || Ascii.eqb c ";".

Definition colon_stop (c : ascii) : bool := Ascii.eqb c ":".

(** Phase 5 of the loop body: dispatch on the command. *)
Definition dispatch_command (cmd : CommandsTable) (current_pos token_end : string)
           (st : fp_state) : fp_state :=
  if is_instruction cmd then
    let '(_, e, ds1) :=
      process_commands_words cmd current_pos (mkEmit (IC st) (ic_image st))
                             (symtab st) (diagnostics st) in
    let '(ok, ds2) := check_sum_limit (em_IC e) (DC st) ds1 in
    mkFP (symtab st) (data_img st) (em_image e) (em_IC e) (DC st)
         (ext_list st) (ent_list st) ds2
         (if ok =? 0 then true else had_error st)
  else if is_data_directive cmd then
    let '(rc, s, ds1) :=
      process_data_string_mat cmd current_pos (IC st)
                              (mkDS (DC st) (data_img st)) (diagnostics st) in
    let had1 := if negb (rc =? 0) then true else had_error st in
    let '(ok, ds2) := check_sum_limit (IC st) (ds_DC s) ds1 in
    mkFP (symtab st) (ds_image s) (ic_image st) (IC st) (ds_DC s)
         (ext_list st) (ent_list st) ds2
         (if ok =? 0 then true else had1)
  else
    match cmd with
    | ENTRY =>
        let '(_, ents, exts, ds1) :=
          handle_directive_argument true (skip_ws token_end)
                                    (ent_list st) (ext_list st) (diagnostics st) in
        mkFP (symtab st) (data_img st) (ic_image st) (IC st) (DC st) exts ents ds1
             (had_error st)
    | EXTERN =>
        let '(_, ents, exts, ds1) :=
          handle_directive_argument false (skip_ws token_end)
                                    (ent_list st) (ext_list st) (diagnostics st) in
        mkFP (symtab st) (data_img st) (ic_image st) (IC st) (DC st) exts ents ds1
             (had_error st)
    | _ => st
    end.

Definition with_diag (st : fp_state) (ds : diags) (err : bool) : fp_state :=
  mkFP (symtab st) (data_img st) (ic_image st) (IC st) (DC st)
       (ext_list st) (ent_list st) ds (err || had_error st).

Definition with_symtab (st : fp_state) (tab : table) : fp_state :=
  mkFP tab (data_img st) (ic_image st) (IC st) (DC st)
       (ext_list st) (ent_list st) (diagnostics st) (had_error st).

(** One iteration of the reading loop of [first_pass] on the text
    [line_buffer] returned by [fgets]. *)
Definition first_pass_line (st : fp_state) (line_buffer : string) : fp_state :=
  let current_pos := skip_ws line_buffer in
  if is_empty current_pos || starts_with current_pos ";" then st
  else
    (* phase 1: label detection *)
    let '(has_label, label_name, ds1) :=
      is_label_definition current_pos (diagnostics st) in
    let st1 :=
      if has_label then with_diag st ds1 false
      else
        let before_delim := span_until delimiter_stop current_pos in
        match strchr before_delim ":" with
        | Some _ => with_diag st (err_first_pass ds1 "AS001") true
        | None => with_diag st ds1 false
        end in
    let current_pos1 :=
      if has_label
      then skip_ws (advance 1 (drop_until colon_stop current_pos))
      else current_pos in
    let '(label_name1, st2) :=
      if has_label then
        match find_symbol (symtab st1) (tok_text label_name) with
        | Some _ => (None, with_diag st1 (err_first_pass (diagnostics st1) "AS020") true)
        | None => (label_name, st1)
        end
      else (label_name, st1) in
    (* phase 2: token extraction *)
    let '(token, token_end) := extract_token (Z.to_nat (TOK_MAX_LEN - 1)) current_pos1 in
    (* phase 3: classification *)
    let '(cmd, ds3) := get_command_type current_pos1 (diagnostics st2) in
    if is_undefined cmd then with_diag st2 (err_first_pass ds3 "AS002") true
    else
      let st3 := with_diag st2 ds3 false in
      let sym_type := determine_symbol_type cmd in
      (* phase 4: label registration *)
      let st4 :=
        match cmd, label_name1 with
        | ENTRY, _ | EXTERN, _ => st3
        | _, Some l =>
            if has_label
            then with_symtab st3 (process_valid_label (symtab st3) l sym_type (IC st3) (DC st3))
            else st3
        | _, None => st3
        end in
      dispatch_command cmd current_pos1 token_end st4.

(** What [first_pass] leaves behind: its return value, the final state
    and, when it was run, the second pass. *)
Record pass1 : Type := mkPass1 {
  p1_rc : Z;
  p1_state : fp_state;
  p1_second : option pass2
}.

Definition clean (st : fp_state) : bool :=
  (error_count (g_first_pass (diagnostics st)) =? 0) && negb (had_error st).

(** [first_pass]: [source_file] is the sequence of buffers [fgets]
    returns for [<stem>.am], [None] when the file cannot be opened;
    [init] holds the objects of the caller. *)
Definition first_pass (fopen_w : string -> bool) (file_stem : string)
           (source_file : option (list string)) (init : fp_state) : pass1 :=
  match source_file with
  | None => mkPass1 1 (with_diag init (err_first_pass (diagnostics init) "AS040") false) None
  | Some lines =>
      let st0 :=
        mkFP [] (data_img init) (ic_image init) IC_INIT_VALUE 0
             (ext_list init) (ent_list init) (diagnostics init) false in
      let st := fold_left first_pass_line lines st0 in
      if clean st then
        let r :=
          second_pass fopen_w file_stem (symtab st) (ic_image st) (data_img st)
                      (IC st - IC_INIT_VALUE) (DC st) (ext_list st) (ent_list st)
                      (diagnostics st) in
        mkPass1 0 st (Some r)
      else mkPass1 1 st None
  end.

(** The objects [main] hands to [first_pass] for one input stem. *)
Definition main_state (ds : diags) : fp_state :=
  mkFP [] [] [] IC_INIT_VALUE 0 [] [] ds false.

(** Split a text into the buffers [fgets] returns (lines keep their
    newline; the buffer holds at most [room] characters). *)
Fixpoint fgets_all (room : nat) (cur : string) (n : nat) (text : string) : list string :=
  match text with
  | EmptyString => if is_empty cur then [] else [rev_string cur]
  | String c r =>
      let cur1 := String c cur in
      if Ascii.eqb c NL then rev_string cur1 :: fgets_all room EmptyString O r
      else if Nat.eqb (S n) room then rev_string cur1 :: fgets_all room EmptyString O r
      else fgets_all room cur1 (S n) r
  end.

Definition MAX_LINE_LEN : Z := 81.

Definition read_lines (text : string) : list string :=
  fgets_all (Z.to_nat (MAX_LINE_LEN - 1)) EmptyString O text.

(* ================================================================== *)
(** ** The macro preprocessor ([process_macros.c]) *)

Definition MC_LINE_TOO_LONG : string := "MC001".
Definition MC_NO_SPACE_AFTER : string := "MC002".
Definition MC_NO_NAME : string := "MC003".
Definition MC_NAME_TOO_LONG : string := "MC004".
Definition MC_NAME_BAD_SYNTAX : string := "MC005".
Definition MC_NAME_RESERVED : string := "MC006".
Definition MC_NAME_DUP : string := "MC007".
Definition MC_GARBAGE_AFTER_END : string := "MC008".
Definition MC_FILE_OPEN : string := "MC009".
Definition MC_FILE_TOO_LONG : string := "MC010".
Definition MC_UNTERMINATED_MACRO : string := "MC_UNTERMINATED_MACRO".
Definition MC_FILE_RENAME : string := "MC_FILE_RENAME".

Definition MACRO_NAME_MAX : Z := 31.
Definition MAX_SOURCE_LINES : Z := 10000.

(** [ltrim]: the text from the first character that is not a space. *)
Definition ltrim (s : string) : string := skip_ws s.

(** [first_token]: the first whitespace-delimited token of the line. *)
Definition first_token (line : string) : string :=
  span_until isspace (skip_ws line).

Definition is_valid_macro_name (nm : string) : bool :=
  match nm with
  | EmptyString => false
  | String c r => isalpha c && all_chars (fun a => isalnum a || Ascii.eqb a "_") r
  end.

(** [get_macro_name]: the text after the first token and the blanks
    that follow it, trailing whitespace removed; [None] is the null
    pointer. *)
Definition get_macro_name (trimmed_line_after_mcro : string) : option string :=
  let p := skip_ws (drop_until isspace trimmed_line_after_mcro) in
  if is_empty p then None else Some (rtrim p).

Record Macro : Type := mkMacro {
  macro_name : string;
  body : list string
}.

Definition MacroTable : Type := list Macro.

Fixpoint find_macro (tbl : MacroTable) (nm : string) : option Macro :=
  match tbl with
  | [] => None
  | m :: rest => if String.eqb (macro_name m) nm then Some m else find_macro rest nm
  end.

(** [add_macro]: a macro with an empty body at the end of the table. *)
Definition add_macro (tbl : MacroTable) (nm : string) : MacroTable :=
  tbl ++ [mkMacro nm []].

(** [append_macro_line] on the macro at position [cur] of the table. *)
Fixpoint append_macro_line (tbl : MacroTable) (cur : nat) (line : string) : MacroTable :=
  match tbl, cur with
  | m :: rest, O => mkMacro (macro_name m) (body m ++ [line]) :: rest
  | m :: rest, S k => m :: append_macro_line rest k line
  | [], _ => []
  end.

(** The state of the reading loop of [process_macros]: the table, the
    macro being defined (its position in the table), the lines written
    to the temporary file, the sink of the translation unit and the
    line counter. *)
Record mc_state : Type := mkMC {
  tbl : MacroTable;
  cur : option nat;
  fout : list string;
  g_macros : diag;
  line_no : Z
}.

(** One iteration of the reading loop: [line] is the buffer [fgets]
    filled and [at_eof] the value of [feof] after that call. *)
Definition process_macros_line (st : mc_state) (rd : string * bool) : mc_state :=
  let '(line, at_eof) := rd in
  let n := line_no st + 1 in
  let d1 :=
    if MAX_SOURCE_LINES <? n then diag_error (g_macros st) MC_FILE_TOO_LONG
    else g_macros st in
  let had_overflow :=
    match strchr line NL with
    | None => negb at_eof
    | Some _ => false
    end in
  let p := rtrim (ltrim line) in
  let tok := first_token p in
  let d2 := if had_overflow then diag_error d1 MC_LINE_TOO_LONG else d1 in
  match cur st with
  | Some c =>
      if String.eqb tok "mcroend" then
        let after := skip_ws (advance 7 p) in
        mkMC (tbl st) None (fout st)
             (if negb (is_empty after) then diag_error d2 MC_GARBAGE_AFTER_END else d2) n
      else mkMC (append_macro_line (tbl st) c p) (Some c) (fout st) d2 n
  | None =>
      if prefix "mcro" p && negb (String.eqb tok "mcro") && negb (String.eqb tok "mcroend")
      then mkMC (tbl st) None (fout st) (diag_error d2 MC_NO_SPACE_AFTER) n
      else if String.eqb tok "mcro" then
        match get_macro_name p with
        | None => mkMC (tbl st) None (fout st) (diag_error d2 MC_NO_NAME) n
        | Some nm =>
            if is_empty nm
            then mkMC (tbl st) None (fout st) (diag_error d2 MC_NO_NAME) n
            else if MACRO_NAME_MAX <? slen nm
            then mkMC (tbl st) None (fout st) (diag_error d2 MC_NAME_TOO_LONG) n
            else if negb (is_valid_macro_name nm)
            then mkMC (tbl st) None (fout st) (diag_error d2 MC_NAME_BAD_SYNTAX) n
            else if is_reserved_mnemonic nm || is_register_name nm
                    || String.eqb nm "mcro" || String.eqb nm "mcroend"
            then mkMC (tbl st) None (fout st) (diag_error d2 MC_NAME_RESERVED) n
            else
              match find_macro (tbl st) nm with
              | Some _ => mkMC (tbl st) None (fout st) (diag_error d2 MC_NAME_DUP) n
              | None =>
                  mkMC (add_macro (tbl st) nm) (Some (List.length (tbl st))) (fout st) d2 n
              end
        end
      else
        match (if is_empty tok then None else find_macro (tbl st) tok) with
        | Some invoked =>
            mkMC (tbl st) None (fout st ++ map (fun l => l +++ NLs) (body invoked)) d2 n
        | None => mkMC (tbl st) None (fout st ++ [p +++ NLs]) d2 n
        end
  end.

(** What [process_macros] leaves: its return value, the table, the
    sink, and the lines of [<in_path>.am] when this run wrote it. *)
Record macros_result : Type := mkMacros {
  mc_rc : Z;
  mc_table : MacroTable;
  mc_diag : diag;
  am_file : option (list string)
}.

(** [process_macros]: [source] is the sequence of reads of
    [<in_path>.as] ([None] when it cannot be opened), [rename_ok] the
    outcome of the final [rename].  The paths are built in buffers of
    [MAX_LINE_LEN] characters, which the stem is taken to fit. *)
Definition process_macros (fopen_w : string -> bool) (rename_ok : bool) (in_path : string)
           (source : option (list (string * bool))) (tbl0 : MacroTable) (d0 : diag)
  : macros_result :=
  match source with
  | None => mkMacros (-1) tbl0 (diag_error d0 MC_FILE_OPEN) None
  | Some reads =>
      if negb (fopen_w (in_path +++ ".am.tmp"))
      then mkMacros (-1) tbl0 (diag_error d0 MC_FILE_OPEN) None
      else
        let start_errs := error_count d0 in
        let st := fold_left process_macros_line reads (mkMC tbl0 None [] d0 0) in
        let d1 :=
          match cur st with
          | Some _ => diag_error (g_macros st) MC_UNTERMINATED_MACRO
          | None => g_macros st
          end in
        if start_errs <? error_count d1 then mkMacros (-1) (tbl st) d1 None
        else if rename_ok then mkMacros 0 (tbl st) d1 (Some (fout st))
        else mkMacros (-1) (tbl st) (diag_error d1 MC_FILE_RENAME) None
  end.

(* ================================================================== *)
(** ** The driver ([main.c]) *)

(** One command-line argument with what the file system answers for
    it: the reads of [<stem>.as], the outcome of the rename of the
    temporary file, and whether [<stem>.am] can be opened for
    reading. *)
Record input_file : Type := mkInput {
  in_stem : string;
  as_reads : option (list (string * bool));
  rename_ok : bool;
  am_opens : bool
}.

(** The sinks of the program: those of [main.c] and
    [process_macros.c] beside the five of the passes.  [runs] is a
    trace, not an object of the program: for each argument processed
    so far, what [process_macros] left and, when it was called, what
    [first_pass] left. *)
Record main_state_t : Type := mkMain {
  g_main : diag;
  g_preproc : diag;
  g_passes : diags;
  runs : list (macros_result * option pass1)
}.

(** The text of a file written line by line. *)
Definition file_text (lines : list string) : string :=
  fold_right String.append EmptyString lines.

(** The sinks of the passes after a call of [first_pass]. *)
Definition diags_after (r : pass1) : diags :=
  match p1_second r with
  | Some p => p2_diags p
  | None => diagnostics (p1_state r)
  end.

(** The body of the loop of [main] for one argument. *)
Definition main_file (fopen_w : string -> bool) (s : main_state_t) (f : input_file)
  : main_state_t :=
  let m := process_macros fopen_w (rename_ok f) (in_stem f) (as_reads f) [] (g_preproc s) in
  if negb (mc_rc m =? 0)
  then mkMain (diag_error (g_main s) "AS101") (mc_diag m) (g_passes s)
              (runs s ++ [(m, None)])
  else
    let am :=
      if am_opens f then option_map (fun ls => read_lines (file_text ls)) (am_file m)
      else None in
    let r := first_pass fopen_w (in_stem f) am (main_state (g_passes s)) in
    mkMain (if negb (p1_rc r =? 0) then diag_error (g_main s) "AS102" else g_main s)
           (mc_diag m) (diags_after r) (runs s ++ [(m, Some r)]).

(** [main]: the exit status and the final state for the arguments
    after the program name; every sink starts empty. *)
Definition main (fopen_w : string -> bool) (argv : list input_file)
  : Z * main_state_t :=
  match argv with
  | [] => (1, mkMain (diag_error diag_zero "AS000") diag_zero diags_zero [])
  | _ =>
      let s := fold_left (main_file fopen_w) argv
                         (mkMain diag_zero diag_zero diags_zero []) in
      (if 0 <? error_count (g_main s) then 1 else 0, s)
  end.

(* ================================================================== *)
(** ** Notions used in the statements *)

(** The lines of a source file as the preprocessor writes them (each
    followed by a newline) and [fgets] returns them. *)
Definition am_lines (ls : list string) : list string :=
  map (fun l => l +++ NLs) ls.

(** The position of the first extern node named [lbl]. *)
Fixpoint first_extern (ext_ptr : list extern_list) (lbl : string) : option nat :=
  match ext_ptr with
  | [] => None
  | x :: next =>
      if String.eqb (x_labels x) lbl then Some O
      else option_map S (first_extern next lbl)
  end.

(** The extern node a code word is resolved through, if any: the word
    carries a label, the symbol table does not know it, and the extern
    list does. *)
Definition extern_target (symtab : table) (ext_ptr : list extern_list)
           (mw : machine_word) : option nat :=
  if String.eqb (label mw) EmptyString then None
  else match find_symbol symtab (label mw) with
       | Some _ => None
       | None => first_extern ext_ptr (label mw)
       end.

Definition targets (symtab : table) (ext_ptr : list extern_list) (j : nat)
           (mw : machine_word) : bool :=
  match extern_target symtab ext_ptr mw with
  | Some k => Nat.eqb k j
  | None => false
  end.

(** The usage chain of the [j]-th extern node. *)
Definition usage_at (ext_ptr : list extern_list) (j : nat) : list Z :=
  match nth_error ext_ptr j with
  | Some x => addr_head x
  | None => []
  end.

(** The object file a run of the first pass leaves, if any. *)
Definition ob_output (r : pass1) : option string :=
  match p1_second r with
  | Some p => ob_file p
  | None => None
  end.

(** [h] is the minimum-width base-4 letter form of [v]. *)
Definition base4_minimal (h : string) (v : Z) : Prop :=
  from_base4_letters h = Some v
  /\ (h = "a" \/ starts_with h "a" = false).

(** The number written by a string of decimal digits. *)
Fixpoint decimal_value_acc (digits : string) (acc : Z) : Z :=
  match digits with
  | EmptyString => acc
  | String c r => decimal_value_acc r (10 * acc + digit_val c)
  end.

Definition decimal_value (digits : string) : Z := decimal_value_acc digits 0.

(** [tok] is an immediate literal of value [n]: the prefix [#], blanks
    (as [strtol] skips them), an optional sign, at least one decimal
    digit, then only blanks; and [n] fits in a signed byte. *)
Definition imm_literal (tok : string) (n : Z) : Prop :=
  exists ws sgn digits trail,
    tok = String IMMEDIATE_PREFIX (ws +++ sgn +++ digits +++ trail)
    /\ all_chars isspace ws = true
    /\ (sgn = EmptyString \/ sgn = "+" \/ sgn = "-")
    /\ digits <> EmptyString
    /\ all_chars isdigit digits = true
    /\ all_chars isspace trail = true
    /\ n = (if String.eqb sgn "-" then - decimal_value digits else decimal_value digits)
    /\ IMM8_MIN <= n <= IMM8_MAX.

(** A sink only grows: [d'] holds the reports of [d] followed by new
    ones, and its counter advanced by their number. *)
Definition sink_le (d d' : diag) : Prop :=
  exists l,
    reported d' = reported d ++ l
    /\ error_count d' = error_count d + Z.of_nat (List.length l).

Definition diags_le (ds ds' : diags) : Prop :=
  sink_le (g_first_pass ds) (g_first_pass ds')
  /\ sink_le (g_functions ds) (g_functions ds')
  /\ sink_le (g_opmodes ds) (g_opmodes ds')
  /\ sink_le (g_words ds) (g_words ds')
  /\ g_second_pass ds' = g_second_pass ds.

(** [e'] is [e] after emitting the words [ws]: they are appended in
    order, the counter advances by one per word, and each word carries
    the counter value at its emission (narrowed to [int]), an 8-bit
    payload and a 2-bit ARE. *)
Definition emitted (e e' : emitter) (ws : list machine_word) : Prop :=
  em_image e' = em_image e ++ ws
  /\ em_IC e' = em_IC e + Z.of_nat (List.length ws)
  /\ forall i w,
      nth_error ws i = Some w ->
      address w = to_int (em_IC e + Z.of_nat i)
      /\ 0 <= value w < 256
      /\ 0 <= are w < 4.

(** [s'] is [s] after emitting the data words [ws]: the data counter
    advances by one per word and each word carries [IC] plus the data
    counter at its emission (narrowed to [int]) and a 16-bit payload. *)
Definition data_emitted (IC : Z) (s s' : data_state) (ws : list data_word) : Prop :=
  ds_image s' = ds_image s ++ ws
  /\ ds_DC s' = ds_DC s + Z.of_nat (List.length ws)
  /\ forall i w,
      nth_error ws i = Some w ->
      d_address w = to_int (ds_DC s + Z.of_nat i + IC)
      /\ 0 <= d_value w < 2 ^ 16.

(** What an operand encoder leaves: at most two words; on success the
    sinks are untouched, on failure nothing was emitted and one error
    was recorded. *)
Definition operand_outcome (e : emitter) (ds : diags) (r : bool * emitter * diags) : Prop :=
  let '(ok, e', ds') := r in
  exists ws,
    emitted e e' ws /\ (List.length ws <= 2)%nat /\ diags_le ds ds'
    /\ (ok = true -> ds' = ds)
    /\ (ok = false -> ws = [] /\ total_errors ds' = total_errors ds + 1).

(** What [process_commands_words] leaves: at most five words; return
    code 0 with at least the first word and untouched sinks, or -1 with
    at least one more error recorded. *)
Definition instruction_outcome (e : emitter) (ds : diags) (r : Z * emitter * diags) : Prop :=
  let '(rc, e', ds') := r in
  exists ws,
    emitted e e' ws /\ (List.length ws <= 5)%nat /\ diags_le ds ds'
    /\ ((rc = 0 /\ ds' = ds /\ (1 <= List.length ws)%nat)
        \/ (rc = -1 /\ total_errors ds < total_errors ds')).

(** What a data directive leaves: the words it emitted; return code 0
    with untouched sinks, or -1 with at most one error recorded. *)
Definition directive_outcome (IC : Z) (s : data_state) (ds : diags)
           (r : Z * data_state * diags) : Prop :=
  let '(rc, s', ds') := r in
  exists ws,
    data_emitted IC s s' ws /\ diags_le ds ds'
    /\ ((rc = 0 /\ ds' = ds) \/ (rc = -1 /\ total_errors ds' <= total_errors ds + 1)).

(** [st'] is [st] after the label and classification phases of a line:
    counters, images and declaration lists are untouched, the error
    flag is not lowered, sinks only grow, and at most one symbol, new
    to the table, was inserted at its head with the current counters. *)
Definition line_prepared (st st' : fp_state) : Prop :=
  IC st' = IC st /\ DC st' = DC st
  /\ ic_image st' = ic_image st /\ data_img st' = data_img st
  /\ ext_list st' = ext_list st /\ ent_list st' = ent_list st
  /\ diags_le (diagnostics st) (diagnostics st')
  /\ (had_error st = true -> had_error st' = true)
  /\ (symtab st' = symtab st
      \/ exists l v t,
          find_symbol (symtab st) l = None
          /\ symtab st' = mkSym l v t :: symtab st
          /\ ((t = CODE_SYMBOL /\ v = IC st) \/ (t = DATA_SYMBOL /\ v = IC st + DC st))).

(** Invariant of the reading loop on counters and symbols. *)
Definition counters_ok (st : fp_state) : Prop :=
  IC_INIT_VALUE <= IC st
  /\ 0 <= DC st
  /\ (had_error st = false -> IC st + DC st < OB_SUM_LIMIT)
  /\ (OB_SUM_LIMIT <= IC st + DC st ->
      had_error st = true
      /\ In "AS_SUM_GE_LIMIT" (reported (g_first_pass (diagnostics st))))
  /\ NoDup (map key (symtab st))
  /\ Forall (fun sym =>
               (type sym = CODE_SYMBOL \/ type sym = DATA_SYMBOL)
               /\ IC_INIT_VALUE <= sym_value sym <= IC st + DC st) (symtab st).

(** Invariant of the reading loop on the images and declaration
    lists. *)
Definition images_ok (st : fp_state) : Prop :=
  emitted (mkEmit IC_INIT_VALUE []) (mkEmit (IC st) (ic_image st)) (ic_image st)
  /\ Z.of_nat (List.length (data_img st)) = DC st
  /\ (forall i w,
         nth_error (data_img st) i = Some w ->
         0 <= d_value w < 2 ^ 16
         /\ exists ic, IC_INIT_VALUE <= ic <= IC st /\ d_address w = to_int (Z.of_nat i + ic))
  /\ Forall (fun x => addr_head x = []) (ext_list st)
  /\ Forall (fun e => e_addr e = 0) (ent_list st).

(** The text with its upper-case letters lowered. *)
Fixpoint lower (s : string) : string :=
  match s with
  | EmptyString => EmptyString
  | String c r => String (tolower c) (lower r)
  end.

(** Mode [m] is one of the modes the mask allows. *)
Definition mode_allowed (mask : Z) (m : addr_mode) : bool :=
  negb (Z.land mask (mode_bit m) =? 0).

(** The character codes of a text. *)
Fixpoint char_codes (s : string) : list Z :=
  match s with
  | EmptyString => []
  | String c r => char_code c :: char_codes r
  end.

(** No character of [s] satisfies [f]. *)
Definition none_chars (f : ascii -> bool) (s : string) : bool :=
  all_chars (fun c => negb (f c)) s.

(** A read of [fgets] with a buffer of [MAX_LINE_LEN] characters: at
    most [MAX_LINE_LEN - 1] characters, a newline only as the last
    one. *)
Definition fgets_read (line : string) : Prop :=
  slen line <= MAX_LINE_LEN - 1
  /\ exists t, none_chars (fun c => Ascii.eqb c NL) t = true
               /\ (line = t \/ line = t +++ NLs).

(** The operand count and the modes are those the rule of [cmd]
    admits: the count is the rule's, a lone operand is the
    destination (no source), and each operand present is in its
    mask. *)
Definition modes_accepted (cmd : CommandsTable) (n : Z) (s d : addr_mode) : bool :=
  match opcode_rule cmd with
  | None => false
  | Some rule =>
      (n =? min_ops rule)
      && (if n =? 1 then addr_mode_eqb s ADDR_NONE && mode_allowed (dst_mask rule) d
          else if n =? 2 then mode_allowed (src_mask rule) s && mode_allowed (dst_mask rule) d
          else true)
  end.

(** The data state after emitting the values [vs] in order. *)
Definition push_all (vs : list Z) (IC : Z) (s : data_state) : data_state :=
  fold_left (fun acc v => push_data v IC acc) vs s.

(** A decimal literal as [strtol] reads it in a list: blanks, an
    optional sign, digits, and the blanks that follow. *)
Record literal : Type := mkLit {
  lit_pre : string;
  lit_sign : string;
  lit_digits : string;
  lit_post : string
}.

Definition literal_text (l : literal) : string :=
  lit_pre l +++ lit_sign l +++ lit_digits l +++ lit_post l.

Definition literal_value (l : literal) : Z :=
  if String.eqb (lit_sign l) "-" then - decimal_value (lit_digits l)
  else decimal_value (lit_digits l).

(** A well-formed literal whose value is in the range of a data
    word. *)
Definition literal_ok (l : literal) : Prop :=
  all_chars isspace (lit_pre l) = true
  /\ (lit_sign l = EmptyString \/ lit_sign l = "+" \/ lit_sign l = "-")
  /\ lit_digits l <> EmptyString
  /\ all_chars isdigit (lit_digits l) = true
  /\ all_chars isspace (lit_post l) = true
  /\ DATA_MIN <= literal_value l <= DATA_MAX.

(** The literals separated by commas. *)
Fixpoint list_text (ls : list literal) : string :=
  match ls with
  | [] => EmptyString
  | l :: rest =>
      literal_text l
      +++ match rest with
          | [] => EmptyString
          | _ :: _ => String OPERAND_DELIMITER (list_text rest)
          end
  end.

(** What one iteration of the reading loop may do to the state. *)
Inductive macro_step (st : mc_state) (p : string) : mc_state -> Prop :=
| step_report d :
    sink_le (g_macros st) d ->
    error_count (g_macros st) < error_count d ->
    macro_step st p (mkMC (tbl st) None (fout st) d (line_no st + 1))
| step_end d :
    cur st <> None ->
    sink_le (g_macros st) d ->
    macro_step st p (mkMC (tbl st) None (fout st) d (line_no st + 1))
| step_body c d :
    cur st = Some c ->
    sink_le (g_macros st) d ->
    macro_step st p (mkMC (append_macro_line (tbl st) c p) (Some c) (fout st) d
                          (line_no st + 1))
| step_define nm d :
    cur st = None ->
    sink_le (g_macros st) d ->
    get_macro_name p = Some nm ->
    nm <> EmptyString ->
    slen nm <= MACRO_NAME_MAX ->
    is_valid_macro_name nm = true ->
    is_reserved_mnemonic nm = false ->
    nm <> "mcro" -> nm <> "mcroend" ->
    find_macro (tbl st) nm = None ->
    macro_step st p (mkMC (add_macro (tbl st) nm) (Some (List.length (tbl st))) (fout st) d
                          (line_no st + 1))
| step_expand m d :
    cur st = None ->
    sink_le (g_macros st) d ->
    find_macro (tbl st) (first_token p) = Some m ->
    macro_step st p (mkMC (tbl st) None (fout st ++ map (fun l => l +++ NLs) (body m)) d
                          (line_no st + 1))
| step_copy d :
    cur st = None ->
    sink_le (g_macros st) d ->
    macro_step st p (mkMC (tbl st) None (fout st ++ [p +++ NLs]) d (line_no st + 1)).

(** Invariant of the reading loop: names in the table are pairwise
    distinct, valid and not reserved; recorded bodies and written
    lines are trimmed texts; the macro being defined is in the
    table. *)
Definition macros_ok (st : mc_state) : Prop :=
  NoDup (map macro_name (tbl st))
  /\ Forall (fun m =>
               is_valid_macro_name (macro_name m) = true
               /\ slen (macro_name m) <= MACRO_NAME_MAX
               /\ is_reserved_mnemonic (macro_name m) = false
               /\ macro_name m <> "mcro" /\ macro_name m <> "mcroend"
               /\ Forall (fun b => trim_inplace b = b) (body m)) (tbl st)
  /\ Forall (fun l => exists p, l = p +++ NLs /\ trim_inplace p = p) (fout st)
  /\ (forall c, cur st = Some c -> (c < List.length (tbl st))%nat).

(** The line of the object file for a code word: the address in four
    base-4 letters, a space, the ten bits [payload * 4 + ARE] in five
    letters, a newline. *)
Definition ob_code_line (w : machine_word) : string :=
  to_base4_letters (address w) OB_ADDR_WIDTH_DEFAULT EmptyString
  +++ " " +++ to_base4_letters (4 * value w + are w) WORD10_DIGITS EmptyString +++ NLs.

(** The line of the object file for a data word: the address, then
    the low ten bits of the value. *)
Definition ob_data_line (w : data_word) : string :=
  to_base4_letters (d_address w) OB_ADDR_WIDTH_DEFAULT EmptyString
  +++ " " +++ to_base4_letters (d_value w mod 1024) WORD10_DIGITS EmptyString +++ NLs.

(* ================================================================== *)
(** * Properties *)


(** ** Base-4 letters *)

Section Base4.

Lemma land3_mod4 (v : Z) : Z.land v BASE4_DIGIT_MASK = v mod 4.
Proof. unfold BASE4_DIGIT_MASK. change 3 with (Z.ones 2). now rewrite Z.land_ones by lia. Qed.

Lemma shiftr2_div4 (v : Z) : Z.shiftr v 2 = v / 4.
Proof. now rewrite Z.shiftr_div_pow2 by lia. Qed.

Lemma letter_digit_quad (d : Z) :
  letter_digit (quad_letter d) = Some (d mod 4).
Proof.
  unfold quad_letter. rewrite land3_mod4.
  assert (H : 0 <= d mod 4 < 4) by (apply Z.mod_pos_bound; lia).
  assert (C : d mod 4 = 0 \/ d mod 4 = 1 \/ d mod 4 = 2 \/ d mod 4 = 3) by lia.
  destruct C as [E | [E | [E | E]]]; rewrite E; reflexivity.
Qed.

Lemma from_base4_fill (i : nat) :
  forall value filled acc,
    0 <= value ->
    from_base4_letters_acc (base4_fill i value filled) acc =
    from_base4_letters_acc filled (acc * 4 ^ Z.of_nat i + value mod 4 ^ Z.of_nat i).
Proof.
  induction i as [| k IH]; intros value filled acc Hv.
  - simpl. rewrite Z.mod_1_r. f_equal. lia.
  - cbn [base4_fill]. rewrite IH by (rewrite shiftr2_div4; apply Z.div_pos; lia).
    cbn [from_base4_letters_acc]. rewrite land3_mod4.
    rewrite letter_digit_quad, Z.mod_mod by lia.
    f_equal. rewrite shiftr2_div4.
    rewrite Nat2Z.inj_succ, Z.pow_succ_r by lia.
    assert (P : 0 < 4 ^ Z.of_nat k) by (apply Z.pow_pos_nonneg; lia).
    rewrite (Z.rem_mul_r value 4 (4 ^ Z.of_nat k)) by lia.
    ring.
Qed.
End Base4.

Section Base4Header.

Lemma app_assoc_s (a b c : string) : (a +++ b) +++ c = a +++ (b +++ c).
Proof. induction a as [| x a IH]; simpl; [reflexivity | now rewrite IH]. Qed.

Lemma app_empty_r (a : string) : a +++ EmptyString = a.
Proof. induction a as [| x a IH]; simpl; [reflexivity | now rewrite IH]. Qed.

Lemma rev_string_acc_app (s acc : string) :
  rev_string_acc s acc = rev_string s +++ acc.
Proof.
  unfold rev_string. revert acc.
  induction s as [| c s IH]; intro acc; simpl; [reflexivity |].
  rewrite IH, (IH (String c EmptyString)), app_assoc_s. reflexivity.
Qed.

Lemma rev_string_app (a b : string) :
  rev_string (a +++ b) = rev_string b +++ rev_string a.
Proof.
  induction a as [| c a IH].
  - simpl. now rewrite app_empty_r.
  - unfold rev_string in *. simpl.
    rewrite rev_string_acc_app, (rev_string_acc_app a).
    unfold rev_string. rewrite IH, app_assoc_s. reflexivity.
Qed.

Lemma from_base4_app (a b : string) :
  forall acc,
    from_base4_letters_acc (a +++ b) acc =
    match from_base4_letters_acc a acc with
    | Some x => from_base4_letters_acc b x
    | None => None
    end.
Proof.
  induction a as [| c a IH]; intro acc; simpl; [reflexivity |].
  destruct (letter_digit c); [apply IH | reflexivity].
Qed.

Lemma header_collect_app (room : nat) :
  forall value tmp,
    header_collect room value tmp = tmp +++ header_collect room value EmptyString.
Proof.
  induction room as [| k IH]; intros value tmp; simpl.
  - now rewrite app_empty_r.
  - destruct (0 <? value).
    + rewrite IH, (IH _ (String _ EmptyString)), app_assoc_s. reflexivity.
    + now rewrite app_empty_r.
Qed.

Lemma header_collect_step (k : nat) (value : Z) :
  0 < value ->
  rev_string (header_collect (S k) value EmptyString) =
  rev_string (header_collect k (value / 4) EmptyString)
    +++ String (quad_letter value) EmptyString.
Proof.
  intro H. cbn [header_collect]. replace (0 <? value) with true by (symmetry; apply Z.ltb_lt; lia).
  rewrite header_collect_app, rev_string_app, shiftr2_div4.
  replace (quad_letter (Z.land value BASE4_DIGIT_MASK)) with (quad_letter value).
  - reflexivity.
  - unfold quad_letter. rewrite !land3_mod4, Z.mod_mod by lia. reflexivity.
Qed.

Lemma header_collect_zero (room : nat) :
  header_collect room 0 EmptyString = EmptyString.
Proof. destruct room; reflexivity. Qed.

Lemma header_collect_decodes (room : nat) :
  forall value,
    0 <= value < 4 ^ Z.of_nat room ->
    from_base4_letters (rev_string (header_collect room value EmptyString)) = Some value.
Proof.
  unfold from_base4_letters.
  induction room as [| k IH]; intros value H.
  - simpl in H. assert (value = 0) by lia; subst. reflexivity.
  - destruct (Z.eq_dec value 0) as [-> | Hnz]; [reflexivity |].
    rewrite header_collect_step by lia.
    rewrite Nat2Z.inj_succ, Z.pow_succ_r in H by lia.
    rewrite from_base4_app, IH.
    + cbn [from_base4_letters_acc]. rewrite letter_digit_quad. f_equal.
      pose proof (Z.div_mod value 4). lia.
    + split; [apply Z.div_pos; lia | apply Z.div_lt_upper_bound; lia].
Qed.

Lemma header_collect_leading (room : nat) :
  forall value,
    0 < value < 4 ^ Z.of_nat room ->
    exists c rest,
      rev_string (header_collect room value EmptyString) = String c rest
      /\ c <> "a"%char.
Proof.
  induction room as [| k IH]; intros value H.
  - simpl in H. lia.
  - rewrite header_collect_step by lia.
    rewrite Nat2Z.inj_succ, Z.pow_succ_r in H by lia.
    destruct (Z.eq_dec (value / 4) 0) as [E | Hq].
    + rewrite E, header_collect_zero.
      exists (quad_letter value), EmptyString. split; [reflexivity |].
      assert (V : value = 1 \/ value = 2 \/ value = 3).
      { pose proof (Z.div_mod value 4). pose proof (Z.mod_pos_bound value 4). lia. }
      destruct V as [-> | [-> | ->]]; discriminate.
    + destruct (IH (value / 4)) as (c & rest & E & Hc).
      * split.
        -- pose proof (Z.div_pos value 4). lia.
        -- apply Z.div_lt_upper_bound; lia.
      * rewrite E. exists c, (rest +++ String (quad_letter value) EmptyString).
        split; [reflexivity | exact Hc].
Qed.

End Base4Header.

Section Base4RoundTrip.

Lemma base4_fill_length (i : nat) :
  forall value filled,
    String.length (base4_fill i value filled) = (i + String.length filled)%nat.
Proof.
  induction i as [| k IH]; intros value filled; [reflexivity |].
  cbn [base4_fill]. rewrite IH. cbn [String.length]. lia.
Qed.

(** C8.  For every width [w > 0] and every [v] with [0 <= v < 4^w],
    reading back the [w] letters written by [to_base4_letters] (a=0,
    b=1, c=2, d=3, most significant digit first) gives [v]; exactly [w]
    letters are written. *)
Theorem to_base4_letters_round_trip (width value : Z) (out : string) :
  0 < width ->
  0 <= value < 4 ^ width ->
  from_base4_letters (to_base4_letters value width out) = Some value
  /\ slen (to_base4_letters value width out) = width.
Proof.
  intros Hw Hv. unfold to_base4_letters, from_base4_letters, slen.
  replace (width <=? 0) with false by (symmetry; apply Z.leb_gt; lia).
  split.
  - rewrite from_base4_fill by lia. cbn [from_base4_letters_acc].
    rewrite Z2Nat.id by lia. rewrite Z.mod_small by lia. reflexivity.
  - rewrite base4_fill_length. cbn [String.length]. lia.
Qed.

Lemma to_base4_letters_round_trip_witness :
  from_base4_letters (to_base4_letters 100 4 EmptyString) = Some 100
  /\ slen (to_base4_letters 100 4 EmptyString) = 4.
Proof. apply to_base4_letters_round_trip; lia. Defined.

End Base4RoundTrip.

(** ** Label resolution *)

Section Resolution.

Variable symtab : table.

Lemma extern_use_first (ext_ptr : list extern_list) (lbl : string) (addr : Z) :
  match first_extern ext_ptr lbl with
  | None => extern_use ext_ptr lbl addr = None
  | Some j =>
      exists ext',
        extern_use ext_ptr lbl addr = Some ext'
        /\ map x_labels ext' = map x_labels ext_ptr
        /\ usage_at ext' j = usage_at ext_ptr j ++ [addr]
        /\ forall k, k <> j -> usage_at ext' k = usage_at ext_ptr k
  end.
Proof.
  induction ext_ptr as [| x next IH]; [reflexivity |].
  cbn [first_extern extern_use].
  destruct (String.eqb (x_labels x) lbl) eqn:E.
  - eexists. split; [reflexivity |]. split; [reflexivity |]. split; [reflexivity |].
    intros [| k] Hk; [congruence | reflexivity].
  - destruct (first_extern next lbl) as [j |]; cbn [option_map].
    + destruct IH as (ext' & -> & Hl & Hj & Hk).
      eexists. split; [reflexivity |]. split; [cbn [map]; now rewrite Hl |].
      split; [exact Hj |].
      intros [| k] Hne; [reflexivity |]. apply Hk. congruence.
    + now rewrite IH.
Qed.

Lemma first_extern_labels (e1 e2 : list extern_list) (lbl : string) :
  map x_labels e1 = map x_labels e2 -> first_extern e1 lbl = first_extern e2 lbl.
Proof.
  revert e2. induction e1 as [| x e1 IH]; intros [| y e2] H; try discriminate; [reflexivity |].
  cbn [map] in H. injection H as Hx Ht. cbn [first_extern]. rewrite Hx.
  now rewrite (IH e2 Ht).
Qed.

Lemma targets_labels (e1 e2 : list extern_list) (j : nat) (mw : machine_word) :
  map x_labels e1 = map x_labels e2 -> targets symtab e1 j mw = targets symtab e2 j mw.
Proof.
  intro H. unfold targets, extern_target. now rewrite (first_extern_labels e1 e2 _ H).
Qed.

(** The outcome of one iteration, by the node the word is resolved
    through. *)
Lemma resolve_word_spec (mw : machine_word) (ext_ptr : list extern_list) :
  let r := resolve_word mw symtab ext_ptr in
  map x_labels (snd r) = map x_labels ext_ptr
  /\ address (fst r) = address mw
  /\ label (fst r) = label mw
  /\ forall j,
      usage_at (snd r) j =
      usage_at ext_ptr j ++ (if targets symtab ext_ptr j mw then [address mw] else []).
Proof.
  unfold resolve_word, targets, extern_target.
  destruct (String.eqb (label mw) EmptyString) eqn:El.
  { cbn. repeat split; try reflexivity. intro j. now rewrite app_nil_r. }
  destruct (find_symbol symtab (label mw)) as [hit |].
  { cbn. repeat split; try reflexivity. intro j. now rewrite app_nil_r. }
  pose proof (extern_use_first ext_ptr (label mw) (address mw)) as H.
  destruct (first_extern ext_ptr (label mw)) as [j |].
  - destruct H as (ext' & -> & Hl & Hj & Hk). cbn.
    repeat split; try reflexivity; [exact Hl |].
    intro k. destruct (Nat.eqb j k) eqn:E.
    + apply Nat.eqb_eq in E. subst k. exact Hj.
    + apply Nat.eqb_neq in E. rewrite app_nil_r. apply Hk. congruence.
  - rewrite H. cbn. repeat split; try reflexivity. intro j. now rewrite app_nil_r.
Qed.

(** After the pass, every usage chain is its previous contents followed
    by the addresses of the words resolved through that node, in code
    order. *)
Lemma resolve_usage (head : list machine_word) :
  forall ext_ptr,
    let r := resolve_labels_in_place head symtab ext_ptr in
    map x_labels (snd r) = map x_labels ext_ptr
    /\ map address (fst r) = map address head
    /\ map label (fst r) = map label head
    /\ forall j,
        usage_at (snd r) j =
        usage_at ext_ptr j ++ map address (filter (targets symtab ext_ptr j) head).
Proof.
  induction head as [| mw next IH]; intro ext_ptr.
  - cbn. repeat split; try reflexivity. intro j. now rewrite app_nil_r.
  - cbn [resolve_labels_in_place].
    pose proof (resolve_word_spec mw ext_ptr) as Hw.
    destruct (resolve_word mw symtab ext_ptr) as [mw' ext1]. cbn [fst snd] in Hw.
    destruct Hw as (Hl1 & Ha1 & Hb1 & Hu1).
    specialize (IH ext1).
    destruct (resolve_labels_in_place next symtab ext1) as [next' ext2].
    cbn [fst snd] in *. destruct IH as (Hl2 & Ha2 & Hb2 & Hu2).
    split; [congruence |]. split; [cbn [map]; congruence |].
    split; [cbn [map]; congruence |].
    intro j. rewrite Hu2, Hu1. cbn [filter].
    rewrite <- app_assoc. f_equal.
    rewrite (filter_ext _ _ (fun m => targets_labels ext1 ext_ptr j m Hl1)).
    destruct (targets symtab ext_ptr j mw); reflexivity.
Qed.

(** The word written at position [i], given the extern list as it is
    when the loop reaches it. *)
Lemma resolve_nth (head : list machine_word) :
  forall ext_ptr i mw,
    nth_error head i = Some mw ->
    exists ext_i,
      map x_labels ext_i = map x_labels ext_ptr
      /\ nth_error (fst (resolve_labels_in_place head symtab ext_ptr)) i
         = Some (fst (resolve_word mw symtab ext_i)).
Proof.
  induction head as [| w next IH]; intros ext_ptr i mw H.
  - destruct i; discriminate.
  - cbn [resolve_labels_in_place].
    pose proof (resolve_word_spec w ext_ptr) as Hw.
    destruct (resolve_word w symtab ext_ptr) as [w' ext1] eqn:Ew. cbn [fst snd] in Hw.
    destruct (resolve_labels_in_place next symtab ext1) as [next' ext2] eqn:En.
    destruct i as [| i].
    + injection H as <-. exists ext_ptr. split; [reflexivity |]. now rewrite Ew.
    + cbn [nth_error] in H. destruct (IH ext1 i mw H) as (ext_i & Hl & Hn).
      exists ext_i. split; [destruct Hw; congruence |].
      rewrite En in Hn. exact Hn.
Qed.

End Resolution.

Section ResolutionClaims.

Lemma first_extern_none (ext_ptr : list extern_list) (lbl : string) :
  (forall x, In x ext_ptr -> x_labels x <> lbl) -> first_extern ext_ptr lbl = None.
Proof.
  induction ext_ptr as [| x next IH]; intro H; [reflexivity |].
  cbn [first_extern].
  destruct (String.eqb_spec (x_labels x) lbl) as [E | _].
  - exfalso. apply (H x); [now left | exact E].
  - rewrite IH; [reflexivity |]. intros y Hy. apply H. now right.
Qed.

Lemma first_extern_at (ext_ptr : list extern_list) (lbl : string) :
  forall j x,
    nth_error ext_ptr j = Some x ->
    x_labels x = lbl ->
    (forall k y, (k < j)%nat -> nth_error ext_ptr k = Some y -> x_labels y <> lbl) ->
    first_extern ext_ptr lbl = Some j.
Proof.
  induction ext_ptr as [| x0 next IH]; intros j x Hn Hx Hfirst.
  - destruct j; discriminate.
  - cbn [first_extern]. destruct j as [| j].
    + injection Hn as ->. rewrite Hx, String.eqb_refl. reflexivity.
    + destruct (String.eqb_spec (x_labels x0) lbl) as [E | _].
      * exfalso. apply (Hfirst O x0); [lia | reflexivity | exact E].
      * rewrite (IH j x Hn Hx); [reflexivity |].
        intros k y Hk Hy. apply (Hfirst (S k) y); [lia | exact Hy].
Qed.

(** C1 (as the code has it).  A labelled code word whose label is
    neither in the symbol table nor in the extern list keeps its ARE
    field, its address and its label through [resolve_labels_in_place],
    and its payload is set to 0. *)
Theorem resolve_unmatched_word
        (symtab : table) (head : list machine_word) (ext_ptr : list extern_list)
        (i : nat) (mw : machine_word) :
  nth_error head i = Some mw ->
  label mw <> EmptyString ->
  find_symbol symtab (label mw) = None ->
  (forall x, In x ext_ptr -> x_labels x <> label mw) ->
  exists mw',
    nth_error (fst (resolve_labels_in_place head symtab ext_ptr)) i = Some mw'
    /\ are mw' = are mw
    /\ value mw' = 0
    /\ address mw' = address mw
    /\ label mw' = label mw.
Proof.
  intros Hn Hl Hs He.
  destruct (resolve_nth symtab head ext_ptr i mw Hn) as (ext_i & Hlab & Hi).
  eexists. split; [exact Hi |].
  unfold resolve_word.
  destruct (String.eqb_spec (label mw) EmptyString) as [E | _]; [contradiction |].
  rewrite Hs.
  pose proof (extern_use_first ext_i (label mw) (address mw)) as Hu.
  rewrite (first_extern_labels ext_i ext_ptr _ Hlab) in Hu.
  rewrite (first_extern_none ext_ptr (label mw) He) in Hu.
  rewrite Hu. cbn. repeat split; reflexivity.
Qed.

Lemma resolve_unmatched_word_witness :
  exists mw',
    nth_error (fst (resolve_labels_in_place [mkWord 100 "X" 5 ARE_REL] [] [])) 0
    = Some mw'
    /\ are mw' = ARE_REL /\ value mw' = 0 /\ address mw' = 100 /\ label mw' = "X".
Proof.
  apply (resolve_unmatched_word [] [mkWord 100 "X" 5 ARE_REL] [] 0
                                (mkWord 100 "X" 5 ARE_REL)).
  - reflexivity.
  - discriminate.
  - reflexivity.
  - intros x [].
Defined.

(** C1 as stated fails: a labelled word with payload 5 whose label is
    unknown to both lists comes out with payload 0. *)
Lemma resolve_unmatched_changes_payload :
  let mw := mkWord 100 "X" 5 ARE_REL in
  label mw <> EmptyString
  /\ find_symbol [] (label mw) = None
  /\ first_extern [] (label mw) = None
  /\ map value (fst (resolve_labels_in_place [mw] [] [])) = [0]
  /\ map value [mw] = [5]
  /\ ~ (map value (fst (resolve_labels_in_place [mw] [] [])) = map value [mw]).
Proof.
  cbn. repeat split; try reflexivity; discriminate.
Qed.

Lemma filter_address_absent (f : machine_word -> bool) (l : list machine_word) (a : Z) :
  ~ In a (map address l) -> ~ In a (map address (filter f l)).
Proof.
  intros H Hin. apply H. apply in_map_iff in Hin. destruct Hin as (w & Hw & Hf).
  apply filter_In in Hf. apply in_map_iff. exists w. tauto.
Qed.

(** With distinct addresses, the address of a word occurs in the
    addresses of a selection once if the word is selected and not at
    all otherwise. *)
Lemma count_selected (f : machine_word -> bool) (head : list machine_word) :
  NoDup (map address head) ->
  forall i mw,
    nth_error head i = Some mw ->
    count_occ Z.eq_dec (map address (filter f head)) (address mw)
    = if f mw then 1%nat else 0%nat.
Proof.
  induction head as [| w next IH]; intros Hnd i mw Hn.
  - destruct i; discriminate.
  - cbn [map] in Hnd. apply NoDup_cons_iff in Hnd. destruct Hnd as [Hw Hnd].
    destruct i as [| i].
    + injection Hn as <-. cbn [filter].
      pose proof (filter_address_absent f next (address w) Hw) as Habs.
      apply (count_occ_not_In Z.eq_dec) in Habs.
      destruct (f w); [| exact Habs].
      cbn [map]. rewrite count_occ_cons_eq by reflexivity. now rewrite Habs.
    + cbn [nth_error] in Hn. cbn [filter].
      assert (Hne : address w <> address mw).
      { intro E. apply Hw. rewrite E. apply in_map. eapply nth_error_In; eauto. }
      destruct (f w).
      * cbn [map]. rewrite count_occ_cons_neq by exact Hne. eapply IH; eauto.
      * eapply IH; eauto.
Qed.

Lemma usage_at_empty (ext_ptr : list extern_list) (j : nat) :
  Forall (fun x => addr_head x = []) ext_ptr -> usage_at ext_ptr j = [].
Proof.
  intro H. unfold usage_at. destruct (nth_error ext_ptr j) as [x |] eqn:E; [| reflexivity].
  rewrite Forall_forall in H. apply H. eapply nth_error_In; eauto.
Qed.

Lemma nth_error_same_labels (e1 e2 : list extern_list) (j : nat) (x : extern_list) :
  map x_labels e1 = map x_labels e2 ->
  nth_error e2 j = Some x ->
  exists x', nth_error e1 j = Some x' /\ x_labels x' = x_labels x.
Proof.
  intros Hl Hn.
  assert (H : nth_error (map x_labels e1) j = Some (x_labels x)).
  { rewrite Hl. now apply map_nth_error. }
  rewrite nth_error_map in H.
  destruct (nth_error e1 j) as [x' |]; [| discriminate].
  exists x'. split; [reflexivity |]. cbn in H. congruence.
Qed.

(** Where the addresses of extern-resolved words end up. *)
Lemma resolve_extern_usage
        (symtab : table) (head : list machine_word) (ext_ptr : list extern_list) :
  NoDup (map address head) ->
  Forall (fun x => addr_head x = []) ext_ptr ->
  forall i mw,
    nth_error head i = Some mw ->
    label mw <> EmptyString ->
    (find_symbol symtab (label mw) = None ->
     forall j x,
       nth_error ext_ptr j = Some x ->
       x_labels x = label mw ->
       (forall k y, (k < j)%nat -> nth_error ext_ptr k = Some y -> x_labels y <> label mw) ->
       exists mw' x',
         nth_error (fst (resolve_labels_in_place head symtab ext_ptr)) i = Some mw'
         /\ value mw' = 0 /\ are mw' = ARE_EXT /\ address mw' = address mw
         /\ nth_error (snd (resolve_labels_in_place head symtab ext_ptr)) j = Some x'
         /\ x_labels x' = label mw
         /\ count_occ Z.eq_dec (addr_head x') (address mw) = 1%nat
         /\ forall k y,
             k <> j ->
             nth_error (snd (resolve_labels_in_place head symtab ext_ptr)) k = Some y ->
             ~ In (address mw) (addr_head y))
    /\ (find_symbol symtab (label mw) <> None ->
        forall y,
          In y (snd (resolve_labels_in_place head symtab ext_ptr)) ->
          ~ In (address mw) (addr_head y)).
Proof.
  intros Hnd Hempty i mw Hn Hl.
  pose proof (resolve_usage symtab head ext_ptr) as Hres. cbn zeta in Hres.
  destruct Hres as (Hlab & _ & _ & Huse).
  assert (Hchain : forall k,
             usage_at (snd (resolve_labels_in_place head symtab ext_ptr)) k
             = map address (filter (targets symtab ext_ptr k) head)).
  { intro k. rewrite Huse, (usage_at_empty _ _ Hempty). reflexivity. }
  split.
  - intros Hs j x Hx Hxl Hfirst.
    pose proof (first_extern_at ext_ptr (label mw) j x Hx Hxl Hfirst) as Hfe.
    assert (Ht : extern_target symtab ext_ptr mw = Some j).
    { unfold extern_target.
      destruct (String.eqb_spec (label mw) EmptyString); [contradiction |].
      now rewrite Hs. }
    destruct (resolve_nth symtab head ext_ptr i mw Hn) as (ext_i & Hli & Hi).
    destruct (nth_error_same_labels _ _ j x Hlab Hx) as (x' & Hx' & Hxl').
    exists (fst (resolve_word mw symtab ext_i)), x'.
    split; [exact Hi |].
    assert (Hw : value (fst (resolve_word mw symtab ext_i)) = 0
                 /\ are (fst (resolve_word mw symtab ext_i)) = ARE_EXT
                 /\ address (fst (resolve_word mw symtab ext_i)) = address mw).
    { unfold resolve_word.
      destruct (String.eqb_spec (label mw) EmptyString); [contradiction |].
      rewrite Hs.
      pose proof (extern_use_first ext_i (label mw) (address mw)) as Hu.
      rewrite (first_extern_labels ext_i ext_ptr _ Hli), Hfe in Hu.
      destruct Hu as (ext' & -> & _). cbn. repeat split; reflexivity. }
    destruct Hw as (Hv & Ha & Had).
    repeat (split; [assumption |]).
    split; [congruence |].
    split.
    + specialize (Hchain j). unfold usage_at in Hchain at 1. rewrite Hx' in Hchain.
      rewrite Hchain, (count_selected _ head Hnd i mw Hn).
      unfold targets. rewrite Ht, Nat.eqb_refl. reflexivity.
    + intros k y Hk Hy.
      specialize (Hchain k). unfold usage_at in Hchain at 1. rewrite Hy in Hchain.
      rewrite Hchain. apply (count_occ_not_In Z.eq_dec).
      rewrite (count_selected _ head Hnd i mw Hn).
      unfold targets. rewrite Ht.
      destruct (Nat.eqb_spec j k); [congruence | reflexivity].
  - intros Hs y Hy.
    apply In_nth_error in Hy. destruct Hy as [k Hy].
    specialize (Hchain k). unfold usage_at in Hchain at 1. rewrite Hy in Hchain.
    rewrite Hchain. apply (count_occ_not_In Z.eq_dec).
    rewrite (count_selected _ head Hnd i mw Hn).
    unfold targets, extern_target.
    destruct (String.eqb (label mw) EmptyString); [reflexivity |].
    destruct (find_symbol symtab (label mw)); [reflexivity | contradiction].
Qed.


(** C7.  With distinct code addresses and usage chains empty before the
    pass: a labelled word unknown to the symbol table and declared
    extern comes out with payload 0 and ARE External, and its address
    occurs exactly once in the chain of the first extern node carrying
    its label and in no other chain; the address of a word resolved
    through the symbol table occurs in no chain. *)
Theorem extern_usage_complete
        (symtab : table) (head : list machine_word) (ext_ptr : list extern_list) :
  NoDup (map address head) ->
  Forall (fun x => addr_head x = []) ext_ptr ->
  forall i mw,
    nth_error head i = Some mw ->
    label mw <> EmptyString ->
    (find_symbol symtab (label mw) = None ->
     forall j x,
       nth_error ext_ptr j = Some x ->
       x_labels x = label mw ->
       (forall k y, (k < j)%nat -> nth_error ext_ptr k = Some y -> x_labels y <> label mw) ->
       exists mw' x',
         nth_error (fst (resolve_labels_in_place head symtab ext_ptr)) i = Some mw'
         /\ value mw' = 0 /\ are mw' = ARE_EXT /\ address mw' = address mw
         /\ nth_error (snd (resolve_labels_in_place head symtab ext_ptr)) j = Some x'
         /\ x_labels x' = label mw
         /\ count_occ Z.eq_dec (addr_head x') (address mw) = 1%nat
         /\ forall k y,
             k <> j ->
             nth_error (snd (resolve_labels_in_place head symtab ext_ptr)) k = Some y ->
             ~ In (address mw) (addr_head y))
    /\ (find_symbol symtab (label mw) <> None ->
        forall y,
          In y (snd (resolve_labels_in_place head symtab ext_ptr)) ->
          ~ In (address mw) (addr_head y)).
Proof. exact (resolve_extern_usage symtab head ext_ptr). Qed.

Lemma extern_usage_complete_witness :
  let head := [mkWord 100 "" 7 ARE_ABS; mkWord 101 "W" 0 ARE_ABS; mkWord 102 "A" 0 ARE_ABS] in
  let symtab := [mkSym "A" 103 DATA_SYMBOL] in
  let ext_ptr := [mkExtern "W" []] in
  NoDup (map address head)
  /\ Forall (fun x => addr_head x = []) ext_ptr
  /\ (exists mw' x',
         nth_error (fst (resolve_labels_in_place head symtab ext_ptr)) 1 = Some mw'
         /\ value mw' = 0 /\ are mw' = ARE_EXT /\ address mw' = 101
         /\ nth_error (snd (resolve_labels_in_place head symtab ext_ptr)) 0 = Some x'
         /\ x_labels x' = "W"
         /\ count_occ Z.eq_dec (addr_head x') 101 = 1%nat
         /\ forall k y,
             k <> 0%nat ->
             nth_error (snd (resolve_labels_in_place head symtab ext_ptr)) k = Some y ->
             ~ In 101 (addr_head y))
  /\ (forall y,
         In y (snd (resolve_labels_in_place head symtab ext_ptr)) ->
         ~ In 102 (addr_head y)).
Proof.
  intros head symtab ext_ptr.
  assert (Hnd : NoDup (map address head)).
  { cbn. repeat constructor; cbn; intuition discriminate. }
  assert (Hem : Forall (fun x => addr_head x = []) ext_ptr).
  { repeat constructor. }
  split; [exact Hnd |]. split; [exact Hem |]. split.
  - destruct (extern_usage_complete symtab head ext_ptr Hnd Hem 1%nat
                (mkWord 101 "W" 0 ARE_ABS) eq_refl) as [HA _]; [discriminate |].
    apply (HA eq_refl 0%nat (mkExtern "W" []) eq_refl eq_refl).
    intros k y Hk. lia.
  - destruct (extern_usage_complete symtab head ext_ptr Hnd Hem 2%nat
                (mkWord 102 "A" 0 ARE_ABS) eq_refl) as [_ HB]; [discriminate |].
    apply HB. discriminate.
Defined.

End ResolutionClaims.

(** ** Tokens and operands *)

Section Trimming.

Lemma skip_ws_head (s : string) (c : ascii) (r : string) :
  skip_ws s = String c r -> isspace c = false.
Proof.
  induction s as [| a s IH]; cbn [skip_ws]; [discriminate |].
  destruct (isspace a) eqn:E; [exact IH |].
  intro H. injection H as <- _. exact E.
Qed.

Lemma skip_ws_fixed (c : ascii) (r : string) :
  isspace c = false -> skip_ws (String c r) = String c r.
Proof. intro H. cbn [skip_ws]. now rewrite H. Qed.

Lemma skip_ws_idem (s : string) : skip_ws (skip_ws s) = skip_ws s.
Proof.
  destruct (skip_ws s) as [| c r] eqn:E; [reflexivity |].
  apply skip_ws_fixed. eapply skip_ws_head; eauto.
Qed.

Lemma rtrim_head (c : ascii) (r : string) :
  isspace c = false -> rtrim (String c r) = String c (rtrim r).
Proof. intro H. cbn [rtrim]. rewrite H, andb_false_r. reflexivity. Qed.

(** A trimmed text is empty or starts with a character that is not a
    space. *)
Lemma trim_inplace_head (s : string) :
  trim_inplace s = EmptyString
  \/ exists c r, trim_inplace s = String c r /\ isspace c = false.
Proof.
  unfold trim_inplace. destruct (skip_ws s) as [| c r] eqn:E; [now left |].
  right. pose proof (skip_ws_head s c r E) as Hc.
  rewrite rtrim_head by exact Hc. eauto.
Qed.

Lemma trim_inplace_no_leading (s : string) : skip_ws (trim_inplace s) = trim_inplace s.
Proof.
  destruct (trim_inplace_head s) as [-> | (c & r & -> & Hc)]; [reflexivity |].
  now apply skip_ws_fixed.
Qed.

Lemma is_empty_false (s : string) : is_empty s = false -> s <> EmptyString.
Proof. destruct s; [discriminate | discriminate]. Qed.


End Trimming.

Section Registers.




End Registers.

Section RegisterPair.




End RegisterPair.

(** ** Numbers: [strtol] and immediates *)

Section Strtol.

Lemma skip_ws_blank (ws s : string) :
  all_chars isspace ws = true -> skip_ws (ws +++ s) = skip_ws s.
Proof.
  induction ws as [| c ws IH]; cbn [all_chars String.append skip_ws]; [reflexivity |].
  intro H. apply andb_prop in H. destruct H as [Hc Hw]. rewrite Hc. now apply IH.
Qed.

Lemma skip_ws_all_blank (s : string) :
  all_chars isspace s = true <-> skip_ws s = EmptyString.
Proof.
  induction s as [| c s IH]; cbn [all_chars skip_ws]; [tauto |].
  destruct (isspace c); cbn [andb]; [exact IH |]. split; discriminate.
Qed.

(** A text splits into its leading blanks and what [skip_ws] returns. *)
Lemma skip_ws_split (s : string) :
  exists ws, s = ws +++ skip_ws s /\ all_chars isspace ws = true.
Proof.
  induction s as [| c s (ws & E & H)].
  - exists EmptyString. split; reflexivity.
  - cbn [skip_ws]. destruct (isspace c) eqn:Ec.
    + exists (String c ws). cbn [String.append all_chars]. rewrite Ec, H.
      split; [now rewrite <- E | reflexivity].
    + exists EmptyString. split; reflexivity.
Qed.

Lemma strtol_digits_spec (s : string) :
  forall acc n,
    exists digits rest,
      s = digits +++ rest
      /\ all_chars isdigit digits = true
      /\ (match rest with String c _ => isdigit c = false | EmptyString => True end)
      /\ strtol_digits s acc n
         = (decimal_value_acc digits acc, (n + String.length digits)%nat, rest).
Proof.
  induction s as [| c s IH]; intros acc n.
  - exists EmptyString, EmptyString. cbn. rewrite Nat.add_0_r. repeat split.
  - cbn [strtol_digits]. destruct (isdigit c) eqn:Ec.
    + destruct (IH (10 * acc + digit_val c) (S n)) as (d & r & E & Hd & Hr & Hs).
      exists (String c d), r. cbn [String.append all_chars decimal_value_acc String.length].
      rewrite Ec, Hd, Hs, <- E. repeat split; try assumption.
      f_equal. f_equal. lia.
    + exists EmptyString, (String c s). cbn. rewrite Nat.add_0_r. repeat split. exact Ec.
Qed.

(** Digits followed by something that is not a digit are consumed
    exactly. *)
Lemma strtol_digits_app (digits rest : string) :
  all_chars isdigit digits = true ->
  (match rest with String c _ => isdigit c = false | EmptyString => True end) ->
  forall acc n,
    strtol_digits (digits +++ rest) acc n
    = (decimal_value_acc digits acc, (n + String.length digits)%nat, rest).
Proof.
  intros Hd Hr. induction digits as [| c d IH]; intros acc n.
  - cbn [String.append decimal_value_acc String.length]. rewrite Nat.add_0_r.
    destruct rest as [| c r]; [reflexivity |]. cbn [strtol_digits]. now rewrite Hr.
  - cbn [all_chars] in Hd. apply andb_prop in Hd. destruct Hd as [Hc Hd].
    cbn [String.append strtol_digits decimal_value_acc String.length].
    rewrite Hc, (IH Hd). f_equal. f_equal. lia.
Qed.

Lemma decimal_value_acc_nonneg (digits : string) :
  all_chars isdigit digits = true ->
  forall acc, 0 <= acc -> 0 <= decimal_value_acc digits acc.
Proof.
  induction digits as [| c d IH]; intros Hd acc Ha; [exact Ha |].
  cbn [all_chars] in Hd. apply andb_prop in Hd. destruct Hd as [Hc Hd].
  cbn [decimal_value_acc]. apply IH; [exact Hd |].
  unfold isdigit in Hc. apply andb_prop in Hc. destruct Hc as [H1 H2].
  apply Z.leb_le in H1. unfold digit_val. lia.
Qed.

Lemma clamp_long_small (v : Z) :
  LONG_MIN <= v <= LONG_MAX -> clamp_long v = v.
Proof.
  intro H. unfold clamp_long.
  destruct (Z.ltb_spec v LONG_MIN); [lia |].
  destruct (Z.ltb_spec LONG_MAX v); [lia | reflexivity].
Qed.

Lemma clamp_long_in_byte (v : Z) :
  IMM8_MIN <= clamp_long v <= IMM8_MAX -> clamp_long v = v.
Proof.
  unfold clamp_long, IMM8_MIN, IMM8_MAX, LONG_MIN, LONG_MAX.
  destruct (Z.ltb_spec v (- 2 ^ 63)); [lia |].
  destruct (Z.ltb_spec (2 ^ 63 - 1) v); [lia | reflexivity].
Qed.

End Strtol.

Section Immediates.

Lemma isdigit_code (c : ascii) : isdigit c = true -> 48 <= char_code c <= 57.
Proof.
  unfold isdigit. intro H. apply andb_prop in H. destruct H as [H1 H2].
  apply Z.leb_le in H1, H2. lia.
Qed.

Lemma isspace_code (c : ascii) :
  isspace c = true -> char_code c = 32 \/ 9 <= char_code c <= 13.
Proof.
  unfold isspace. intro H. apply orb_prop in H. destruct H as [H | H].
  - apply Z.eqb_eq in H. now left.
  - apply andb_prop in H. destruct H as [H1 H2]. apply Z.leb_le in H1, H2. now right.
Qed.

Lemma isdigit_not_space (c : ascii) : isdigit c = true -> isspace c = false.
Proof.
  intro H. apply isdigit_code in H. destruct (isspace c) eqn:E; [| reflexivity].
  apply isspace_code in E. lia.
Qed.

Lemma isspace_not_digit (c : ascii) : isspace c = true -> isdigit c = false.
Proof.
  intro H. destruct (isdigit c) eqn:E; [| reflexivity].
  apply isdigit_not_space in E. congruence.
Qed.

Lemma isdigit_not_sign (c : ascii) :
  isdigit c = true -> Ascii.eqb c "-" = false /\ Ascii.eqb c "+" = false.
Proof.
  intro H. apply isdigit_code in H.
  split; apply Ascii.eqb_neq; intro E; subst c;
    [change (char_code "-") with 45 in H | change (char_code "+") with 43 in H]; lia.
Qed.

Lemma to_int_byte (v : Z) : IMM8_MIN <= v <= IMM8_MAX -> to_int v = v.
Proof.
  unfold IMM8_MIN, IMM8_MAX, to_int. intro H. rewrite Z.mod_small; lia.
Qed.

Lemma blank_tail_not_digit (trail : string) :
  all_chars isspace trail = true ->
  match trail with String c _ => isdigit c = false | EmptyString => True end.
Proof.
  destruct trail as [| c t]; [trivial |]. cbn [all_chars]. intro H.
  apply andb_prop in H. destruct H as [H _]. now apply isspace_not_digit.
Qed.

(** What [strtol] returns on blanks, an optional sign and digits. *)
Lemma strtol_literal (ws sgn digits trail : string) :
  all_chars isspace ws = true ->
  (sgn = EmptyString \/ sgn = "+" \/ sgn = "-") ->
  digits <> EmptyString ->
  all_chars isdigit digits = true ->
  (match trail with String c _ => isdigit c = false | EmptyString => True end) ->
  strtol (ws +++ sgn +++ digits +++ trail)
  = Some (clamp_long (if String.eqb sgn "-" then - decimal_value digits
                      else decimal_value digits), trail).
Proof.
  intros Hws Hsgn Hne Hd Ht. unfold strtol. rewrite skip_ws_blank by exact Hws.
  destruct digits as [| d ds]; [contradiction |].
  pose proof Hd as Hd0. cbn [all_chars] in Hd0. apply andb_prop in Hd0.
  destruct Hd0 as [Hd0 _].
  pose proof (isdigit_not_space d Hd0) as Hsp.
  destruct (isdigit_not_sign d Hd0) as [Hm Hp].
  destruct Hsgn as [-> | [-> | ->]].
  - cbn [String.append]. rewrite skip_ws_fixed by exact Hsp. rewrite Hm, Hp.
    change (String d (ds +++ trail)) with (String d ds +++ trail).
    rewrite strtol_digits_app by assumption. cbn [String.length Nat.add]. reflexivity.
  - cbn [String.append]. rewrite skip_ws_fixed by reflexivity.
    change (Ascii.eqb "+" "-") with false. change (Ascii.eqb "+" "+") with true. cbv iota.
    change (String d (ds +++ trail)) with (String d ds +++ trail).
    rewrite strtol_digits_app by assumption. cbn [String.length Nat.add]. reflexivity.
  - cbn [String.append]. rewrite skip_ws_fixed by reflexivity.
    change (Ascii.eqb "-" "-") with true. cbv iota.
    change (String d (ds +++ trail)) with (String d ds +++ trail).
    rewrite strtol_digits_app by assumption. cbn [String.length Nat.add]. reflexivity.
Qed.

(** Whatever [strtol] converts has this shape. *)
Lemma strtol_shape (p : string) (v : Z) (e : string) :
  strtol p = Some (v, e) ->
  exists ws sgn digits,
    p = ws +++ sgn +++ digits +++ e
    /\ all_chars isspace ws = true
    /\ (sgn = EmptyString \/ sgn = "+" \/ sgn = "-")
    /\ digits <> EmptyString
    /\ all_chars isdigit digits = true
    /\ (match e with String c _ => isdigit c = false | EmptyString => True end)
    /\ v = clamp_long (if String.eqb sgn "-" then - decimal_value digits
                       else decimal_value digits).
Proof.
  unfold strtol. destruct (skip_ws_split p) as (ws & Ep & Hws).
  set (q := skip_ws p) in *.
  assert (Hbody : forall neg body sgn,
             q = sgn +++ body ->
             (sgn = EmptyString \/ sgn = "+" \/ sgn = "-") ->
             neg = String.eqb sgn "-" ->
             (let '(v0, n, rest) := strtol_digits body 0 0 in
              match n with
              | O => None
              | S _ => Some (clamp_long (if neg then - v0 else v0), rest)
              end) = Some (v, e) ->
             exists ws sgn digits,
               p = ws +++ sgn +++ digits +++ e
               /\ all_chars isspace ws = true
               /\ (sgn = EmptyString \/ sgn = "+" \/ sgn = "-")
               /\ digits <> EmptyString
               /\ all_chars isdigit digits = true
               /\ (match e with String c _ => isdigit c = false | EmptyString => True end)
               /\ v = clamp_long (if String.eqb sgn "-" then - decimal_value digits
                                  else decimal_value digits)).
  { intros neg body sgn Eq Hsgn Hneg.
    destruct (strtol_digits_spec body 0 0) as (digits & rest & Eb & Hd & Hr & ->).
    cbn [Nat.add]. destruct digits as [| d ds]; [discriminate |].
    cbn [String.length]. intro H. injection H as <- <-.
    exists ws, sgn, (String d ds). rewrite Ep, Eq, Eb, Hneg.
    repeat split; try assumption. discriminate. }
  destruct q as [| c r] eqn:Eq.
  - apply (Hbody false EmptyString EmptyString); auto.
  - destruct (Ascii.eqb_spec c "-") as [-> | Hm].
    + apply (Hbody true r "-"); auto.
    + destruct (Ascii.eqb_spec c "+") as [-> | Hp].
      * apply (Hbody false r "+"); auto.
      * apply (Hbody false (String c r) EmptyString); auto.
Qed.

(** [parse_imm8] accepts exactly the immediate literals. *)
Lemma parse_imm8_literal (tok : string) (n : Z) :
  parse_imm8 tok = Some n <-> imm_literal tok n.
Proof.
  split.
  - unfold parse_imm8. destruct tok as [| c rest]; [discriminate |].
    destruct (Ascii.eqb_spec c IMMEDIATE_PREFIX) as [-> | _]; [| discriminate].
    destruct (strtol rest) as [[v e] |] eqn:Es; [| discriminate].
    destruct (is_empty (skip_ws e)) eqn:Ee; [| discriminate]. cbn [negb].
    destruct (Z.ltb_spec v IMM8_MIN) as [| Hlo]; [discriminate |].
    destruct (Z.ltb_spec IMM8_MAX v) as [| Hhi]; [discriminate |]. cbn [orb].
    intro Hsome. injection Hsome as <-.
    destruct (strtol_shape rest v e Es) as (ws & sgn & digits & Er & Hws & Hsgn & Hne & Hd & _ & Hv).
    rewrite to_int_byte by lia.
    exists ws, sgn, digits, e. repeat split; try assumption; try lia.
    + now rewrite Er.
    + apply skip_ws_all_blank. destruct (skip_ws e); [reflexivity | discriminate].
    + rewrite Hv. apply clamp_long_in_byte. rewrite <- Hv. lia.
  - intros (ws & sgn & digits & trail & -> & Hws & Hsgn & Hne & Hd & Ht & Hn & Hr).
    unfold parse_imm8. rewrite Ascii.eqb_refl.
    rewrite (strtol_literal ws sgn digits trail Hws Hsgn Hne Hd (blank_tail_not_digit _ Ht)).
    apply skip_ws_all_blank in Ht. rewrite Ht. cbn [is_empty negb].
    rewrite <- Hn. rewrite clamp_long_small by (unfold LONG_MIN, LONG_MAX, IMM8_MIN, IMM8_MAX in *; lia).
    destruct (Z.ltb_spec n IMM8_MIN); [lia |].
    destruct (Z.ltb_spec IMM8_MAX n); [lia |]. cbn [orb].
    now rewrite to_int_byte.
Qed.

End Immediates.

Section ImmediateOperands.


(** A validation either reports nothing or reports one error. *)
Lemma validate_operand_cases (rule : opcode_mode) (mode : addr_mode) (is_source : bool)
      (ds : diags) :
  validate_operand rule mode is_source ds = (0, ds)
  \/ exists c, validate_operand rule mode is_source ds = (1, err_opmodes ds c).
Proof.
  unfold validate_operand.
  destruct mode; try (destruct (Z.land _ _ =? 0); [right | left]; eauto); right; eauto.
Qed.

Lemma validate_modes_ok (cmd : CommandsTable) (n : Z) (s d : addr_mode) (ds ds1 : diags) :
  validate_modes_for_opcode cmd n s d ds = (0, ds1) -> ds1 = ds.
Proof.
  unfold validate_modes_for_opcode.
  destruct (opcode_rule cmd) as [rule |]; [| discriminate].
  destruct (_ || _); [discriminate |].
  destruct (n =? OPS_ZERO); [intro H; now injection H |].
  destruct (n =? OPS_ONE).
  - destruct s;
      match goal with
      | |- context [validate_operand rule d false ?X] =>
          destruct (validate_operand_cases rule d false X) as [E | [c E]]; rewrite E
      end; cbn; intro H; try discriminate; now injection H.
  - destruct (n =? OPS_TWO); [| discriminate].
    destruct (validate_operand_cases rule s true ds) as [E1 | [c1 E1]]; rewrite E1;
      match goal with
      | |- context [validate_operand rule d false ?X] =>
          destruct (validate_operand_cases rule d false X) as [E | [c E]]; rewrite E
      end; cbn; intro H; try discriminate; now injection H.
Qed.

Lemma validate_modes_fst (cmd : CommandsTable) (n : Z) (s d : addr_mode) (ds : diags) :
  fst (validate_modes_for_opcode cmd n s d ds) = 0 ->
  validate_modes_for_opcode cmd n s d ds = (0, ds).
Proof.
  destruct (validate_modes_for_opcode cmd n s d ds) as [r ds1] eqn:E. cbn [fst].
  intros ->. now rewrite (validate_modes_ok _ _ _ _ _ _ E).
Qed.



End ImmediateOperands.

(** ** Data directives *)

Section DataState.






Lemma err_functions_fresh (ds : diags) (c : string) : err_functions ds c <> ds.
Proof.
  intro H. apply (f_equal (fun d => error_count (g_functions d))) in H. cbn in H. lia.
Qed.


End DataState.

Section MatrixDirective.




End MatrixDirective.

(** ** Diagnostics only accumulate *)

Section Sinks.

Lemma sink_le_refl (d : diag) : sink_le d d.
Proof. exists []. rewrite app_nil_r. split; [reflexivity | cbn; lia]. Qed.

Lemma sink_le_trans (a b c : diag) : sink_le a b -> sink_le b c -> sink_le a c.
Proof.
  intros (l1 & R1 & C1) (l2 & R2 & C2). exists (l1 ++ l2).
  rewrite R2, R1, C2, C1, <- app_assoc, length_app, Nat2Z.inj_add. split; [reflexivity | lia].
Qed.

Lemma sink_le_error (d : diag) (c : string) : sink_le d (diag_error d c).
Proof. exists [c]. split; reflexivity. Qed.

Lemma diags_le_refl (ds : diags) : diags_le ds ds.
Proof. repeat split; apply sink_le_refl. Qed.

Lemma diags_le_trans (a b c : diags) : diags_le a b -> diags_le b c -> diags_le a c.
Proof.
  intros (A1 & A2 & A3 & A4 & A5) (B1 & B2 & B3 & B4 & B5).
  repeat split; try (eapply sink_le_trans; eauto). congruence.
Qed.

Lemma diags_le_first_pass (ds : diags) (c : string) : diags_le ds (err_first_pass ds c).
Proof. repeat split; try apply sink_le_refl. apply sink_le_error. Qed.

Lemma diags_le_functions (ds : diags) (c : string) : diags_le ds (err_functions ds c).
Proof. repeat split; try apply sink_le_refl. apply sink_le_error. Qed.

Lemma diags_le_opmodes (ds : diags) (c : string) : diags_le ds (err_opmodes ds c).
Proof. repeat split; try apply sink_le_refl. apply sink_le_error. Qed.

Lemma diags_le_words (ds : diags) (c : string) : diags_le ds (err_words ds c).
Proof. repeat split; try apply sink_le_refl. apply sink_le_error. Qed.

Lemma sink_le_count (d d' : diag) : sink_le d d' -> error_count d <= error_count d'.
Proof. intros (l & _ & C). lia. Qed.

Lemma sink_le_In (d d' : diag) (c : string) :
  sink_le d d' -> In c (reported d) -> In c (reported d').
Proof. intros (l & R & _) H. rewrite R. apply in_or_app. now left. Qed.

End Sinks.

Create HintDb sinks.

#[local] Hint Resolve diags_le_refl diags_le_first_pass diags_le_functions
  diags_le_opmodes diags_le_words : sinks.

(** Close a goal [diags_le ds (f ... ds)] for a function that only
    branches and reports. *)
Ltac sinks_step :=
  match goal with
  | |- diags_le ?d ?d => apply diags_le_refl
  | |- diags_le ?d (err_first_pass ?d _) => apply diags_le_first_pass
  | |- diags_le ?d (err_functions ?d _) => apply diags_le_functions
  | |- diags_le ?d (err_opmodes ?d _) => apply diags_le_opmodes
  | |- diags_le ?d (err_words ?d _) => apply diags_le_words
  | |- diags_le _ (err_first_pass ?d _) =>
      apply diags_le_trans with (b := d); [| apply diags_le_first_pass]
  | |- diags_le _ (err_functions ?d _) =>
      apply diags_le_trans with (b := d); [| apply diags_le_functions]
  | |- diags_le _ (err_opmodes ?d _) =>
      apply diags_le_trans with (b := d); [| apply diags_le_opmodes]
  | |- diags_le _ (err_words ?d _) =>
      apply diags_le_trans with (b := d); [| apply diags_le_words]
  | |- context [if ?b then _ else _] => destruct b
  | |- context [match ?x with _ => _ end] => destruct x
  end.

Ltac sinks := repeat (cbn [fst snd]; sinks_step); auto with sinks.

Section SinksOfFunctions.

Lemma validate_operand_sinks (rule : opcode_mode) (m : addr_mode) (b : bool) (ds : diags) :
  diags_le ds (snd (validate_operand rule m b ds)).
Proof. unfold validate_operand. sinks. Qed.

Lemma validate_modes_sinks (cmd : CommandsTable) (n : Z) (s d : addr_mode) (ds : diags) :
  diags_le ds (snd (validate_modes_for_opcode cmd n s d ds)).
Proof.
  unfold validate_modes_for_opcode.
  destruct (opcode_rule cmd) as [rule |]; [| sinks].
  destruct (_ || _); [sinks |].
  destruct (n =? OPS_ZERO); [sinks |].
  destruct (n =? OPS_ONE).
  - set (first := match s with ADDR_NONE => (0, ds) | _ => (1, err_opmodes ds "AS024") end).
    assert (H1 : diags_le ds (snd first)) by (subst first; destruct s; sinks).
    destruct first as [e1 ds1]. cbn [snd] in H1.
    pose proof (validate_operand_sinks rule d false ds1) as H2.
    destruct (validate_operand rule d false ds1) as [e2 ds2]. cbn [snd] in *.
    eapply diags_le_trans; eauto.
  - destruct (n =? OPS_TWO); [| sinks].
    pose proof (validate_operand_sinks rule s true ds) as H1.
    destruct (validate_operand rule s true ds) as [e1 ds1]. cbn [snd] in H1.
    pose proof (validate_operand_sinks rule d false ds1) as H2.
    destruct (validate_operand rule d false ds1) as [e2 ds2]. cbn [snd] in *.
    eapply diags_le_trans; eauto.
Qed.

Lemma split_matrix_sinks (tok : string) (cap : Z) (ds : diags) :
  diags_le ds (fst (split_matrix_ex tok cap ds)).
Proof.
  unfold split_matrix_ex, report_matrix_error.
  destruct (m_error (parse_matrix_operand tok)); sinks.
Qed.

End SinksOfFunctions.

(** ** The code image grows word by word *)

Section Emission.

Lemma emitted_nil (e : emitter) : emitted e e [].
Proof.
  repeat split; try (destruct i; discriminate).
  - now rewrite app_nil_r.
  - cbn. lia.
Qed.

Lemma emitted_app (e e1 e2 : emitter) (ws1 ws2 : list machine_word) :
  emitted e e1 ws1 -> emitted e1 e2 ws2 -> emitted e e2 (ws1 ++ ws2).
Proof.
  intros (I1 & C1 & A1) (I2 & C2 & A2). split; [| split].
  - now rewrite I2, I1, app_assoc.
  - rewrite C2, C1, length_app, Nat2Z.inj_add. lia.
  - intros i w H. destruct (Nat.lt_ge_cases i (List.length ws1)) as [Hlt | Hge].
    + rewrite nth_error_app1 in H by exact Hlt. now apply A1.
    + rewrite nth_error_app2 in H by exact Hge.
      destruct (A2 _ _ H) as (Ha & Hv). split; [| exact Hv].
      rewrite Ha, C1. f_equal. lia.
Qed.

Lemma emitted_one (e : emitter) (w : machine_word) :
  address w = to_int (em_IC e) -> 0 <= value w < 256 -> 0 <= are w < 4 ->
  emitted e (mkEmit (em_IC e + 1) (em_image e ++ [w])) [w].
Proof.
  intros Ha Hv Hr. split; [reflexivity |]. split; [reflexivity |].
  intros [| i] w' H; [| destruct i; discriminate].
  injection H as <-. rewrite Z.add_0_r. auto.
Qed.

Lemma put_word_emitted (e : emitter) (payload a : Z) (lbl : option string) :
  emitted e (mkEmit (em_IC e + 1) (put_word (em_IC e) payload a (em_image e) lbl))
          [mkWord (to_int (em_IC e))
                  (match lbl with
                   | Some s => take (Z.to_nat (MAX_LABEL_LEN - 1)) s
                   | None => EmptyString
                   end)
                  (Z.land payload PAYLOAD8_MASK mod 256) (a mod 4)].
Proof.
  unfold put_word. apply emitted_one; cbn [address value are].
  - reflexivity.
  - apply Z.mod_pos_bound. lia.
  - apply Z.mod_pos_bound. lia.
Qed.

Lemma first_word_emitted (op : CommandsTable) (s d : addr_mode) (e : emitter) :
  exists w, emitted e (toBinaryFirstWord op s d e) [w]
            /\ label w = EmptyString /\ are w = ARE_ABS.
Proof.
  unfold toBinaryFirstWord. eexists. split; [apply emitted_one |]; cbn [address value are label].
  - reflexivity.
  - apply Z.mod_pos_bound. lia.
  - unfold ARE_ABS. lia.
  - split; reflexivity.
Qed.

Lemma emit_addr_word_emitted (sym : option string) (addr8 a : Z) (e : emitter) :
  exists w, emitted e (emit_addr_word sym addr8 a e) [w].
Proof. eexists. apply put_word_emitted. Qed.

Lemma emit_imm_word_emitted (v : Z) (e : emitter) :
  exists w, emitted e (emit_imm_word v e) [w].
Proof. eexists. apply put_word_emitted. Qed.

Lemma emit_regcode_pair_emitted (a b : Z) (e : emitter) :
  exists w, emitted e (emit_regcode_pair a b e) [w].
Proof. eexists. apply put_word_emitted. Qed.

Lemma emit_regcode_single_dest_emitted (r : Z) (e : emitter) :
  exists w, emitted e (emit_regcode_single_dest r e) [w].
Proof. eexists. apply put_word_emitted. Qed.

Lemma emit_regcode_single_src_emitted (r : Z) (e : emitter) :
  exists w, emitted e (emit_regcode_single_src r e) [w].
Proof. eexists. apply put_word_emitted. Qed.

Lemma emit_symbol_addr_emitted (n : string) (symtab : table) (e : emitter) :
  exists w, emitted e (emit_symbol_addr n symtab e) [w].
Proof.
  unfold emit_symbol_addr.
  destruct (match find_symbol symtab n with Some _ => _ | None => _ end) as [p a].
  apply emit_addr_word_emitted.
Qed.

Lemma total_errors_le (ds ds' : diags) :
  diags_le ds ds' -> total_errors ds <= total_errors ds'.
Proof.
  intros (H1 & H2 & H3 & H4 & H5). unfold total_errors. rewrite H5.
  apply sink_le_count in H1, H2, H3, H4. lia.
Qed.

Lemma validate_modes_cases (cmd : CommandsTable) (n : Z) (s d : addr_mode) (ds : diags) :
  validate_modes_for_opcode cmd n s d ds = (0, ds)
  \/ exists ds',
      validate_modes_for_opcode cmd n s d ds = (1, ds')
      /\ diags_le ds ds' /\ total_errors ds < total_errors ds'.
Proof.
  pose proof (validate_modes_sinks cmd n s d ds) as Hle.
  destruct (validate_modes_for_opcode cmd n s d ds) as [r ds'] eqn:E. cbn [snd] in Hle.
  assert (Hr : r = 0 \/ (r = 1 /\ total_errors ds < total_errors ds')).
  { revert E. unfold validate_modes_for_opcode.
    assert (Hone : forall c, total_errors ds < total_errors (err_opmodes ds c)).
    { intro c. unfold total_errors. cbn. lia. }
    destruct (opcode_rule cmd) as [rule |];
      [| intro E; injection E as <- <-; right; split; [reflexivity | apply Hone]].
    destruct (_ || _); [intro E; injection E as <- <-; right; split; [reflexivity | apply Hone] |].
    destruct (n =? OPS_ZERO); [intro E; injection E as <- <-; now left |].
    destruct (n =? OPS_ONE).
    - destruct s;
        match goal with
        | |- context [validate_operand rule d false ?X] =>
            destruct (validate_operand_cases rule d false X) as [E2 | [c E2]]; rewrite E2
        end; cbn; intro E; injection E as <- <-; auto; right; split; auto;
        unfold total_errors; cbn; lia.
    - destruct (n =? OPS_TWO);
        [| intro E; injection E as <- <-; right; split; [reflexivity | apply Hone]].
      destruct (validate_operand_cases rule s true ds) as [E1 | [c1 E1]]; rewrite E1;
        match goal with
        | |- context [validate_operand rule d false ?X] =>
            destruct (validate_operand_cases rule d false X) as [E2 | [c E2]]; rewrite E2
        end; cbn; intro E; injection E as <- <-; auto; right; split; auto;
        unfold total_errors; cbn; lia. }
  destruct Hr as [-> | [-> Hlt]].
  - left. now rewrite (validate_modes_ok _ _ _ _ _ _ E).
  - right. exists ds'. auto.
Qed.

Lemma encode_matrix_outcome (tok : string) (symtab : table) (e : emitter) (ds : diags) :
  operand_outcome e ds (encode_matrix_operand tok symtab e ds).
Proof.
  unfold encode_matrix_operand, split_matrix_ex.
  destruct (m_error (parse_matrix_operand tok)) eqn:Em.
  2-8: (exists []; split; [apply emitted_nil |]; split; [cbn; lia |];
        split; [cbn [report_matrix_error]; sinks |];
        split; [discriminate |]; intros _; split; [reflexivity |];
        unfold total_errors; cbn; lia).
  destruct ((reg_id _ <? 0) || (reg_id _ <? 0)).
  - exists []. split; [apply emitted_nil |]. split; [cbn; lia |]. split; [sinks |].
    split; [discriminate |]. intros _. split; [reflexivity |]. unfold total_errors; cbn; lia.
  - destruct (emit_symbol_addr_emitted (copy_slice_safe (m_label (parse_matrix_operand tok)) 64)
                                       symtab e) as [w1 H1].
    destruct (emit_regcode_pair_emitted
                (reg_id (copy_slice_safe (m_reg1 (parse_matrix_operand tok)) REGBUF_MAX))
                (reg_id (copy_slice_safe (m_reg2 (parse_matrix_operand tok)) REGBUF_MAX))
                (emit_symbol_addr (copy_slice_safe (m_label (parse_matrix_operand tok)) 64)
                                  symtab e)) as [w2 H2].
    exists ([w1] ++ [w2]). split; [eapply emitted_app; eauto |].
    split; [cbn; lia |]. split; [sinks |]. split; [reflexivity | discriminate].
Qed.

Lemma outcome_one (e e' : emitter) (ds : diags) :
  (exists w, emitted e e' [w]) -> operand_outcome e ds (true, e', ds).
Proof.
  intros [w H]. exists [w]. split; [exact H |]. split; [cbn; lia |].
  split; [sinks |]. split; [reflexivity | discriminate].
Qed.

Lemma outcome_words_error (e : emitter) (ds : diags) (c : string) :
  operand_outcome e ds (false, e, err_words ds c).
Proof.
  exists []. split; [apply emitted_nil |]. split; [cbn; lia |]. split; [sinks |].
  split; [discriminate |]. intros _. split; [reflexivity |]. unfold total_errors; cbn; lia.
Qed.

Lemma outcome_none (e : emitter) (ds : diags) : operand_outcome e ds (true, e, ds).
Proof.
  exists []. split; [apply emitted_nil |]. split; [cbn; lia |]. split; [sinks |].
  split; [reflexivity | discriminate].
Qed.

Lemma encode_source_outcome (m : addr_mode) (tok : option string) (symtab : table)
      (e : emitter) (ds : diags) :
  operand_outcome e ds (encode_source m tok symtab e ds).
Proof.
  destruct m; cbn [encode_source].
  - destruct (parse_imm8 (tok_text tok));
      [apply outcome_one, emit_imm_word_emitted | apply outcome_words_error].
  - apply outcome_one, emit_symbol_addr_emitted.
  - apply encode_matrix_outcome.
  - destruct (reg_id (tok_text tok) <? 0);
      [apply outcome_words_error | apply outcome_one, emit_regcode_single_src_emitted].
  - apply outcome_none.
Qed.

Lemma encode_destination_outcome (m : addr_mode) (tok : option string) (symtab : table)
      (e : emitter) (ds : diags) :
  operand_outcome e ds (encode_destination m tok symtab e ds).
Proof.
  destruct m; cbn [encode_destination].
  - destruct (parse_imm8 (tok_text tok));
      [apply outcome_one, emit_imm_word_emitted | apply outcome_words_error].
  - apply outcome_one, emit_symbol_addr_emitted.
  - apply encode_matrix_outcome.
  - destruct (reg_id (tok_text tok) <? 0);
      [apply outcome_words_error | apply outcome_one, emit_regcode_single_dest_emitted].
  - apply outcome_none.
Qed.

Lemma process_commands_words_outcome
      (cmd : CommandsTable) (line : string) (e : emitter) (symtab : table) (ds : diags) :
  instruction_outcome e ds (process_commands_words cmd line e symtab ds).
Proof.
  unfold process_commands_words.
  destruct (split_operands line) as [[n src] dst].
  set (modes := if n =? OPS_TWO then _ else _).
  destruct modes as [sm dm].
  destruct (validate_modes_cases cmd n sm dm ds) as [-> | (ds' & -> & Hle & Hlt)].
  2:{ change (negb (1 =? 0)) with true. cbv iota.
      exists []. split; [apply emitted_nil |]. split; [cbn; lia |]. split; [exact Hle |].
      right. split; [reflexivity | exact Hlt]. }
  change (negb (0 =? 0)) with false. cbv iota.
  destruct (first_word_emitted cmd sm dm e) as (w0 & H0 & _).
  set (e1 := toBinaryFirstWord cmd sm dm e) in *.
  destruct ((n =? OPS_TWO) && addr_mode_eqb sm ADDR_REGISTER && addr_mode_eqb dm ADDR_REGISTER).
  - destruct ((reg_id (tok_text src) <? 0) || (reg_id (tok_text dst) <? 0)).
    + exists [w0]. split; [exact H0 |]. split; [cbn; lia |]. split; [sinks |].
      right. split; [reflexivity |]. unfold total_errors; cbn; lia.
    + eexists. split; [eapply emitted_app; [exact H0 | apply put_word_emitted] |].
      split; [cbn; lia |]. split; [sinks |]. left. repeat split. cbn. lia.
  - set (r4 := if n =? OPS_TWO then encode_source sm src symtab e1 ds else (true, e1, ds)).
    assert (H4 : operand_outcome e1 ds r4).
    { subst r4. destruct (n =? OPS_TWO); [apply encode_source_outcome | apply outcome_none]. }
    clearbody r4. destruct r4 as [[ok4 e2] ds2]. cbn beta iota.
    unfold operand_outcome in H4. destruct H4 as (ws4 & E4 & L4 & D4 & T4 & F4).
    destruct ok4; cbn [negb].
    2:{ destruct (F4 eq_refl) as [-> Herr].
        exists [w0]. split; [rewrite <- (app_nil_r [w0]); eapply emitted_app; eauto |].
        split; [cbn; lia |]. split; [exact D4 |]. right. split; [reflexivity | lia]. }
    rewrite (T4 eq_refl) in *. clear T4 F4 D4.
    set (r5 := if OPS_ONE <=? n
               then encode_destination dm (if n =? OPS_TWO then dst else src) symtab e2 ds
               else (true, e2, ds)).
    assert (H5 : operand_outcome e2 ds r5).
    { subst r5. destruct (OPS_ONE <=? n); [apply encode_destination_outcome | apply outcome_none]. }
    clearbody r5. destruct r5 as [[ok5 e3] ds3]. cbn beta iota.
    unfold operand_outcome in H5. destruct H5 as (ws5 & E5 & L5 & D5 & T5 & F5).
    assert (He : emitted e e3 ([w0] ++ ws4 ++ ws5)).
    { eapply emitted_app; [exact H0 | eapply emitted_app; eauto]. }
    assert (Hl : (List.length ([w0] ++ ws4 ++ ws5) <= 5)%nat).
    { rewrite !length_app. cbn [List.length]. lia. }
    destruct ok5; cbn [negb]; exists ([w0] ++ ws4 ++ ws5);
      (split; [exact He |]); (split; [exact Hl |]); (split; [exact D5 |]).
    + left. rewrite (T5 eq_refl). repeat split. rewrite !length_app. cbn [List.length]. lia.
    + right. split; [reflexivity |]. destruct (F5 eq_refl) as [_ Herr]. lia.
Qed.

End Emission.

(** ** The data image grows word by word *)

Section DataEmission.

Variable IC : Z.

Lemma data_emitted_nil (s : data_state) : data_emitted IC s s [].
Proof.
  repeat split; try (destruct i; discriminate).
  - now rewrite app_nil_r.
  - cbn. lia.
Qed.

Lemma data_emitted_app (s s1 s2 : data_state) (ws1 ws2 : list data_word) :
  data_emitted IC s s1 ws1 -> data_emitted IC s1 s2 ws2 -> data_emitted IC s s2 (ws1 ++ ws2).
Proof.
  intros (I1 & C1 & A1) (I2 & C2 & A2). split; [| split].
  - now rewrite I2, I1, app_assoc.
  - rewrite C2, C1, length_app, Nat2Z.inj_add. lia.
  - intros i w H. destruct (Nat.lt_ge_cases i (List.length ws1)) as [Hlt | Hge].
    + rewrite nth_error_app1 in H by exact Hlt. now apply A1.
    + rewrite nth_error_app2 in H by exact Hge.
      destruct (A2 _ _ H) as (Ha & Hv). split; [| exact Hv].
      rewrite Ha, C1. f_equal. lia.
Qed.

Lemma push_data_emitted (v : Z) (s : data_state) :
  data_emitted IC s (push_data v IC s)
               [create_data_word (to_int v) (to_int (ds_DC s + IC))].
Proof.
  split; [reflexivity |]. split; [reflexivity |].
  intros [| i] w H; [| destruct i; discriminate].
  injection H as <-. cbn [create_data_word d_address d_value]. split.
  - f_equal. lia.
  - unfold to_ushort. apply Z.mod_pos_bound. lia.
Qed.

Lemma data_emitted_push (v : Z) (s s' : data_state) (ws : list data_word) :
  data_emitted IC (push_data v IC s) s' ws ->
  data_emitted IC s s' (create_data_word (to_int v) (to_int (ds_DC s + IC)) :: ws).
Proof. intro H. apply (data_emitted_app s _ s' [_] ws (push_data_emitted v s) H). Qed.

Lemma total_errors_functions (ds : diags) (c : string) :
  total_errors (err_functions ds c) = total_errors ds + 1.
Proof. unfold total_errors. cbn. lia. Qed.

Lemma directive_ok (s : data_state) (ds : diags) : directive_outcome IC s ds (0, s, ds).
Proof. exists []. split; [apply data_emitted_nil |]. split; [sinks |]. now left. Qed.

Lemma directive_error (s : data_state) (ds : diags) (c : string) :
  directive_outcome IC s ds (-1, s, err_functions ds c).
Proof.
  exists []. split; [apply data_emitted_nil |]. split; [sinks |].
  right. split; [reflexivity |]. rewrite total_errors_functions. lia.
Qed.

Lemma directive_silent (s : data_state) (ds : diags) : directive_outcome IC s ds (-1, s, ds).
Proof.
  exists []. split; [apply data_emitted_nil |]. split; [sinks |]. right. split; [reflexivity | lia].
Qed.

Lemma directive_after_push (v : Z) (s : data_state) (ds : diags)
      (r : Z * data_state * diags) :
  directive_outcome IC (push_data v IC s) ds r -> directive_outcome IC s ds r.
Proof.
  destruct r as [[rc s'] ds']. intros (ws & E & D & R).
  eexists. split; [apply data_emitted_push; exact E |]. split; assumption.
Qed.

Lemma data_loop_outcome (fuel : nat) :
  forall p expect_value last_comma s ds,
    directive_outcome IC s ds (data_loop fuel p expect_value last_comma IC s ds).
Proof.
  induction fuel as [| k IH]; intros p ev lc s ds; cbn [data_loop].
  - apply directive_ok.
  - destruct (is_empty (skip_ws p)).
    { destruct (ev && lc); [apply directive_error | apply directive_ok]. }
    destruct ev.
    + destruct (starts_with (skip_ws p) ","); [apply directive_error |].
      destruct (strtol (skip_ws p)) as [[v endptr] |]; [| apply directive_error].
      destruct (in_data_range v); cbn [negb]; [| apply directive_error].
      apply (directive_after_push v), IH.
    + destruct (starts_with (skip_ws p) ","); cbn [negb]; [apply IH | apply directive_error].
Qed.

Lemma string_loop_emitted (p : string) :
  forall s, exists ws, data_emitted IC s (snd (string_loop p IC s)) ws.
Proof.
  induction p as [| c r IH]; intro s; cbn [string_loop].
  - exists []. apply data_emitted_nil.
  - destruct (Ascii.eqb c DQUOTE).
    + exists []. apply data_emitted_nil.
    + destruct (IH (push_data (char_code c) IC s)) as [ws H].
      eexists. apply data_emitted_push. exact H.
Qed.

Lemma mat_fill_emitted (n : nat) :
  forall s, exists ws, data_emitted IC s (mat_fill n IC s) ws.
Proof.
  induction n as [| k IH]; intro s; cbn [mat_fill].
  - exists []. apply data_emitted_nil.
  - destruct (IH (push_data 0 IC s)) as [ws H].
    eexists. apply data_emitted_push. exact H.
Qed.

Lemma mat_loop_emitted (fuel : nat) :
  forall p expect_value total produced s ds,
    let '(rc, _, s', ds') := mat_loop fuel p expect_value total produced IC s ds in
    directive_outcome IC s ds (rc, s', ds').
Proof.
  induction fuel as [| k IH]; intros p ev total produced s ds; cbn [mat_loop].
  - apply directive_ok.
  - destruct (is_empty (skip_ws p)); [apply directive_ok |].
    destruct ev.
    + destruct (starts_with (skip_ws p) ","); [apply directive_error |].
      destruct (strtol (skip_ws p)) as [[v endptr] |]; [| apply directive_error].
      destruct (in_data_range v); cbn [negb]; [| apply directive_error].
      destruct (total <=? produced); [apply directive_error |].
      specialize (IH endptr false total (produced + 1) (push_data v IC s) ds).
      destruct (mat_loop k endptr false total (produced + 1) IC (push_data v IC s) ds)
        as [[[rc pr] s'] ds'].
      now apply (directive_after_push v).
    + destruct (starts_with (skip_ws p) ","); [| apply directive_error].
      destruct (is_empty (skip_ws (advance 1 (skip_ws p)))); [apply directive_error |].
      apply IH.
Qed.

Lemma process_data_string_mat_outcome (cmd : CommandsTable) (line : string)
      (s : data_state) (ds : diags) :
  directive_outcome IC s ds (process_data_string_mat cmd line IC s ds).
Proof.
  destruct cmd; cbn [process_data_string_mat]; try apply directive_silent.
  - unfold process_data_directive_at.
    destruct (strstr _ ".data"); [apply data_loop_outcome | apply directive_silent].
  - unfold process_string_directive_at.
    destruct (strstr _ ".string") as [d |]; [| apply directive_silent].
    destruct (starts_with _ DQUOTE); cbn [negb]; [| apply directive_error].
    pose proof (string_loop_emitted (advance 1 (skip_ws (advance 7 d))) s) as [ws H].
    destruct (string_loop _ IC s) as [p1 s1]. cbn [snd] in H.
    destruct (starts_with p1 DQUOTE); cbn [negb].
    + eexists. split; [eapply data_emitted_app; [exact H | apply push_data_emitted] |].
      split; [sinks |]. now left.
    + exists ws. split; [exact H |]. split; [sinks |].
      right. split; [reflexivity |]. rewrite total_errors_functions. lia.
  - unfold process_matrix_directive_at.
    destruct (strstr _ ".mat") as [m |]; [| apply directive_silent].
    destruct (parse_bracketed_pos_int _) as [[p1 rows] |]; [| apply directive_error].
    destruct (parse_bracketed_pos_int p1) as [[p2 cols] |]; [| apply directive_error].
    destruct (_ && _ && _); [apply directive_error |].
    pose proof (mat_loop_emitted (S (String.length (skip_ws p2))) (skip_ws p2) true
                                 (rows * cols) 0 s ds) as H.
    destruct (mat_loop _ (skip_ws p2) true (rows * cols) 0 IC s ds)
      as [[[rc pr] s1] ds1].
    destruct H as (ws & E & D & [[-> ->] | [-> Herr]]).
    + change (negb (0 =? 0)) with false. cbv iota.
      destruct (mat_fill_emitted (Z.to_nat (rows * cols - pr)) s1) as [ws2 H2].
      eexists. split; [eapply data_emitted_app; eauto |]. split; [sinks |]. now left.
    + change (negb (-1 =? 0)) with true. cbv iota.
      exists ws. split; [exact E |]. split; [exact D |]. right. split; [reflexivity | exact Herr].
Qed.

End DataEmission.

(** ** The reading loop of the first pass *)

Section LinePhases.

Lemma find_symbol_absent (tab : table) (k : string) :
  find_symbol tab k = None -> ~ In k (map key tab).
Proof.
  induction tab as [| c next IH]; cbn [find_symbol map]; [tauto |].
  destruct (String.eqb_spec (key c) k) as [E | N]; [discriminate |].
  intros H [E | Hin]; [contradiction | now apply IH].
Qed.

Lemma find_symbol_In (tab : table) (k : string) (sym : symbol_table) :
  find_symbol tab k = Some sym -> In sym tab /\ key sym = k.
Proof.
  induction tab as [| c next IH]; cbn [find_symbol]; [discriminate |].
  destruct (String.eqb_spec (key c) k) as [E | N].
  - intro H. injection H as <-. split; [now left | exact E].
  - intro H. destruct (IH H). split; [now right | assumption].
Qed.

Lemma update_symbol_absent (tab : table) (k : string) (v : Z) (t : symbol_type) :
  find_symbol tab k = None -> update_symbol tab k v t = None.
Proof.
  induction tab as [| c next IH]; cbn [find_symbol update_symbol]; [reflexivity |].
  destruct (String.eqb (key c) k); [discriminate |].
  intro H. now rewrite (IH H).
Qed.

Lemma add_table_item_fresh (tab : table) (k : string) (v : Z) (t : symbol_type) :
  find_symbol tab k = None -> add_table_item tab k v t = mkSym k v t :: tab.
Proof. intro H. unfold add_table_item. now rewrite update_symbol_absent. Qed.

Lemma validate_label_name_sinks (l : string) (ds : diags) :
  diags_le ds (snd (validate_label_name l ds)).
Proof. unfold validate_label_name. sinks. Qed.

Lemma is_label_definition_sinks (p : string) (ds : diags) :
  diags_le ds (snd (is_label_definition p ds)).
Proof.
  unfold is_label_definition.
  destruct (negb _); [sinks |]. destruct (_ <? _); [sinks |].
  pose proof (validate_label_name_sinks (span_until label_stop (skip_ws p)) ds) as H.
  destruct (validate_label_name _ ds) as [ok ds1]. exact H.
Qed.

Lemma get_command_type_sinks (line : string) (ds : diags) :
  diags_le ds (snd (get_command_type line ds)).
Proof.
  unfold get_command_type.
  destruct (_ || _); [sinks |].
  destruct (extract_token _ _) as [token e].
  destruct (is_empty token); [sinks |].
  destruct (negb _); [sinks |]. destruct (negb _); sinks.
Qed.

Lemma handle_directive_argument_spec (is_entry : bool) (arg : string)
      (ents : list entry_list) (exts : list extern_list) (ds : diags) :
  let '(rc, ents', exts', ds') := handle_directive_argument is_entry arg ents exts ds in
  diags_le ds ds'
  /\ ((rc = 1 /\ ents' = ents /\ exts' = exts
       /\ error_count (g_first_pass ds') = error_count (g_first_pass ds) + 1)
      \/ (rc = 0 /\ ds' = ds
          /\ exists l,
              l <> EmptyString
              /\ ((is_entry = true /\ ents' = ents ++ [mkEntry l 0] /\ exts' = exts)
                  \/ (is_entry = false /\ exts' = exts ++ [mkExtern l []] /\ ents' = ents)))).
Proof.
  unfold handle_directive_argument.
  set (missing := if is_entry then "AS011" else "AS012").
  assert (Herr : forall c,
             diags_le ds (err_first_pass ds c)
             /\ ((1 = 1 /\ ents = ents /\ exts = exts
                  /\ error_count (g_first_pass (err_first_pass ds c))
                     = error_count (g_first_pass ds) + 1)
                 \/ (1 = 0 /\ err_first_pass ds c = ds
                     /\ exists l,
                         l <> EmptyString
                         /\ ((is_entry = true /\ ents = ents ++ [mkEntry l 0] /\ exts = exts)
                             \/ (is_entry = false /\ exts = exts ++ [mkExtern l []] /\ ents = ents))))).
  { intro c. split; [sinks |]. left. repeat split. }
  destruct (_ || _); [apply Herr |].
  set (lbl := span_until arg_stop (skip_ws arg)).
  destruct (Z.leb_spec (slen lbl) 0) as [| Hlen]; [apply Herr |].
  destruct (_ <? _); [apply Herr |].
  destruct (_ || _ || _); [apply Herr |].
  destruct (_ && _); [apply Herr |].
  assert (Hne : take 30 lbl <> EmptyString).
  { destruct lbl; [cbn in Hlen; lia | discriminate]. }
  destruct is_entry; (split; [sinks |]); right; repeat split;
    exists (take 30 lbl); (split; [exact Hne |]); [left | right]; repeat split.
Qed.

End LinePhases.

Section LineCases.

Lemma prepared_refl (st : fp_state) : line_prepared st st.
Proof.
  unfold line_prepared. repeat (split; [reflexivity |]).
  split; [apply diags_le_refl |]. split; [auto | now left].
Qed.

Lemma prepared_with_diag (st st1 : fp_state) (ds' : diags) (err : bool) :
  line_prepared st st1 ->
  diags_le (diagnostics st1) ds' ->
  line_prepared st (with_diag st1 ds' err).
Proof.
  intros (H1 & H2 & H3 & H4 & H5 & H6 & H7 & H8 & H9) Hle.
  unfold with_diag, line_prepared. cbn.
  repeat (split; [assumption |]).
  split; [eapply diags_le_trans; eauto |].
  split; [| exact H9].
  intro H. rewrite (H8 H). apply orb_true_r.
Qed.

Lemma prepared_with_symtab (st st3 : fp_state) (l : string) (t : symbol_type) :
  line_prepared st st3 ->
  symtab st3 = symtab st ->
  find_symbol (symtab st) l = None ->
  line_prepared st (with_symtab st3 (process_valid_label (symtab st3) l t (IC st3) (DC st3))).
Proof.
  intros (H1 & H2 & H3 & H4 & H5 & H6 & H7 & H8 & H9) Hs Hf.
  unfold with_symtab, line_prepared. cbn.
  repeat (split; [assumption |]).
  rewrite Hs, H1, H2.
  destruct t; cbn [process_valid_label]; auto;
    rewrite add_table_item_fresh by exact Hf; right; eauto 10.
Qed.

Lemma with_diag_symtab (st : fp_state) (ds : diags) (b : bool) :
  symtab (with_diag st ds b) = symtab st.
Proof. reflexivity. Qed.

(** A line is skipped, rejected before dispatch, or dispatched on a
    state prepared from the previous one. *)
Lemma first_pass_line_cases (st : fp_state) (line : string) :
  (exists st', line_prepared st st' /\ first_pass_line st line = st')
  \/ (exists st4 cmd pos tokend,
         line_prepared st st4
         /\ is_undefined cmd = false
         /\ first_pass_line st line = dispatch_command cmd pos tokend st4).
Proof.
  unfold first_pass_line.
  destruct (_ || _); [left; exists st; split; [apply prepared_refl | reflexivity] |].
  pose proof (is_label_definition_sinks (skip_ws line) (diagnostics st)) as Hl.
  destruct (is_label_definition (skip_ws line) (diagnostics st)) as [[has_label label_name] ds1]
    eqn:El.
  cbn [snd] in Hl.
  set (st1 := if has_label then with_diag st ds1 false else _).
  assert (P1 : line_prepared st st1 /\ symtab st1 = symtab st).
  { subst st1. destruct has_label.
    - split; [apply prepared_with_diag; [apply prepared_refl | exact Hl] | reflexivity].
    - destruct (strchr _ ":"); (split; [apply prepared_with_diag; [apply prepared_refl |] | reflexivity]).
      + eapply diags_le_trans; [exact Hl | sinks].
      + exact Hl. }
  clearbody st1. destruct P1 as [P1 S1].
  set (pos := if has_label then _ else skip_ws line).
  set (r2 := if has_label then _ else (label_name, st1)).
  assert (P2 : line_prepared st (snd r2) /\ symtab (snd r2) = symtab st
               /\ (has_label = true -> forall l, fst r2 = Some l ->
                   find_symbol (symtab st) l = None)).
  { subst r2. destruct has_label.
    - destruct (find_symbol (symtab st1) (tok_text label_name)) eqn:Ef; cbn [fst snd].
      + split; [apply prepared_with_diag; [exact P1 | sinks] |].
        split; [now rewrite with_diag_symtab |]. discriminate.
      + split; [exact P1 |]. split; [exact S1 |].
        intros _ l Hlab. subst label_name. cbn [tok_text] in Ef. now rewrite <- S1.
    - cbn [fst snd]. split; [exact P1 |]. split; [exact S1 |]. discriminate. }
  clearbody r2. destruct r2 as [label_name1 st2]. cbn [fst snd] in P2.
  destruct P2 as (P2 & S2 & F2).
  destruct (extract_token _ pos) as [token token_end].
  pose proof (get_command_type_sinks pos (diagnostics st2)) as Hc.
  destruct (get_command_type pos (diagnostics st2)) as [cmd ds3]. cbn [snd] in Hc.
  destruct (is_undefined cmd) eqn:Eu.
  - left. eexists. split; [| reflexivity].
    apply prepared_with_diag; [exact P2 |]. eapply diags_le_trans; [exact Hc | sinks].
  - right.
    pose proof (prepared_with_diag st st2 ds3 false P2 Hc) as P3.
    set (st3 := with_diag st2 ds3 false) in *.
    assert (S3 : symtab st3 = symtab st) by exact S2.
    eexists _, cmd, pos, token_end. split; [| split; [exact Eu | reflexivity]].
    destruct cmd; try exact P3;
      destruct label_name1 as [l |]; try exact P3;
      destruct has_label; try exact P3;
      apply prepared_with_symtab; auto.
Qed.

End LineCases.

(** ** Invariants of the reading loop *)

Section CounterInvariant.

Lemma check_sum_limit_spec (IC DC : Z) (ds : diags) :
  (IC + DC < OB_SUM_LIMIT /\ check_sum_limit IC DC ds = (1, ds))
  \/ (OB_SUM_LIMIT <= IC + DC
      /\ check_sum_limit IC DC ds = (0, err_first_pass ds "AS_SUM_GE_LIMIT")).
Proof.
  unfold check_sum_limit. destruct (Z.ltb_spec (IC + DC) OB_SUM_LIMIT); [left | right]; auto.
Qed.

Lemma symbols_weaken (tab : table) (a b : Z) :
  a <= b ->
  Forall (fun sym =>
            (type sym = CODE_SYMBOL \/ type sym = DATA_SYMBOL)
            /\ IC_INIT_VALUE <= sym_value sym <= a) tab ->
  Forall (fun sym =>
            (type sym = CODE_SYMBOL \/ type sym = DATA_SYMBOL)
            /\ IC_INIT_VALUE <= sym_value sym <= b) tab.
Proof.
  intros Hab H. eapply Forall_impl; [| exact H]. cbn. intros sym [Ht Hv]. split; [exact Ht | lia].
Qed.

Lemma prepared_counters (st st' : fp_state) :
  line_prepared st st' -> counters_ok st -> counters_ok st'.
Proof.
  intros (H1 & H2 & H3 & H4 & H5 & H6 & H7 & H8 & H9) (C1 & C2 & C3 & C4 & C5 & C6).
  unfold counters_ok. rewrite H1, H2.
  split; [exact C1 |]. split; [exact C2 |].
  split.
  { intro Hf. apply C3. destruct (had_error st); [| reflexivity].
    rewrite (H8 eq_refl) in Hf. discriminate. }
  split.
  { intro Hs. destruct (C4 Hs) as [He Hin]. split; [auto |].
    destruct H7 as [Hfp _]. eapply sink_le_In; eauto. }
  destruct H9 as [-> | (l & v & t & Hf & -> & Hv)]; [split; assumption |].
  cbn [map key]. split.
  - constructor; [now apply find_symbol_absent | exact C5].
  - constructor; [| exact C6]. cbn [type sym_value].
    destruct Hv as [[-> ->] | [-> ->]]; split; auto; lia.
Qed.

Lemma dispatch_counters (cmd : CommandsTable) (pos tokend : string) (st : fp_state) :
  counters_ok st -> counters_ok (dispatch_command cmd pos tokend st).
Proof.
  intros (C1 & C2 & C3 & C4 & C5 & C6). unfold dispatch_command.
  destruct (is_instruction cmd).
  - pose proof (process_commands_words_outcome cmd pos (mkEmit (IC st) (ic_image st))
                                               (symtab st) (diagnostics st)) as Ho.
    destruct (process_commands_words _ _ _ _ _) as [[rc e] ds1].
    destruct Ho as (ws & (_ & Hic & _) & _ & Hle & _). cbn [em_IC] in Hic.
    destruct (check_sum_limit_spec (em_IC e) (DC st) ds1) as [[Hlt ->] | [Hge ->]];
      unfold counters_ok; cbn.
    + split; [lia |]. split; [exact C2 |]. split; [intros _; exact Hlt |].
      split; [intro; unfold OB_SUM_LIMIT in *; lia |]. split; [exact C5 |].
      eapply symbols_weaken; [| exact C6]. lia.
    + split; [lia |]. split; [exact C2 |]. split; [discriminate |].
      split; [intros _; split; [reflexivity | apply in_or_app; right; now left] |].
      split; [exact C5 |]. eapply symbols_weaken; [| exact C6]. lia.
  - destruct (is_data_directive cmd).
    + pose proof (process_data_string_mat_outcome (IC st) cmd pos (mkDS (DC st) (data_img st))
                                                  (diagnostics st)) as Ho.
      destruct (process_data_string_mat _ _ _ _ _) as [[rc s] ds1].
      destruct Ho as (ws & (_ & Hdc & _) & Hle & _). cbn [ds_DC] in Hdc.
      destruct (check_sum_limit_spec (IC st) (ds_DC s) ds1) as [[Hlt ->] | [Hge ->]];
        unfold counters_ok; cbn.
      * split; [exact C1 |]. split; [lia |]. split; [intros _; exact Hlt |].
        split; [intro; unfold OB_SUM_LIMIT in *; lia |]. split; [exact C5 |].
        eapply symbols_weaken; [| exact C6]. lia.
      * split; [exact C1 |]. split; [lia |]. split; [discriminate |].
        split; [intros _; split; [reflexivity | apply in_or_app; right; now left] |].
        split; [exact C5 |]. eapply symbols_weaken; [| exact C6]. lia.
    + assert (Hdecl : forall b,
                 counters_ok
                   (let '(_, ents, exts, ds1) :=
                      handle_directive_argument b (skip_ws tokend) (ent_list st) (ext_list st)
                                                (diagnostics st) in
                    mkFP (symtab st) (data_img st) (ic_image st) (IC st) (DC st) exts ents ds1
                         (had_error st))).
      { intro b.
        pose proof (handle_directive_argument_spec b (skip_ws tokend) (ent_list st)
                                                   (ext_list st) (diagnostics st)) as Hh.
        destruct (handle_directive_argument _ _ _ _ _) as [[[rc ents] exts] ds1].
        destruct Hh as [[Hfp _] _]. unfold counters_ok. cbn.
        split; [exact C1 |]. split; [exact C2 |]. split; [exact C3 |].
        split; [| split; assumption].
        intro Hs. destruct (C4 Hs) as [He Hin]. split; [exact He |].
        eapply sink_le_In; eauto. }
      destruct cmd; try exact (conj C1 (conj C2 (conj C3 (conj C4 (conj C5 C6)))));
        apply Hdecl.
Qed.

End CounterInvariant.

Section FirstPassCounters.

Lemma first_pass_line_counters (st : fp_state) (line : string) :
  counters_ok st -> counters_ok (first_pass_line st line).
Proof.
  intro H.
  destruct (first_pass_line_cases st line)
    as [(st' & P & ->) | (st4 & cmd & pos & te & P & _ & ->)].
  - eapply prepared_counters; eauto.
  - apply dispatch_counters. eapply prepared_counters; eauto.
Qed.

Lemma fold_counters (lines : list string) :
  forall st, counters_ok st -> counters_ok (fold_left first_pass_line lines st).
Proof.
  induction lines as [| l ls IH]; intros st H; [exact H |].
  cbn [fold_left]. apply IH. now apply first_pass_line_counters.
Qed.

Lemma initial_counters (init : fp_state) :
  counters_ok (mkFP [] (data_img init) (ic_image init) IC_INIT_VALUE 0
                    (ext_list init) (ent_list init) (diagnostics init) false).
Proof.
  unfold counters_ok, IC_INIT_VALUE, OB_SUM_LIMIT. cbn.
  split; [lia |]. split; [lia |]. split; [lia |]. split; [lia |].
  split; constructor.
Qed.

(** The state the reading loop ends in, for a source file that could be
    opened. *)
Lemma first_pass_state (fopen_w : string -> bool) (stem : string) (lines : list string)
      (init : fp_state) :
  let st := p1_state (first_pass fopen_w stem (Some lines) init) in
  counters_ok st
  /\ (clean st = true ->
      first_pass fopen_w stem (Some lines) init
      = mkPass1 0 st
                (Some (second_pass fopen_w stem (symtab st) (ic_image st) (data_img st)
                                   (IC st - IC_INIT_VALUE) (DC st) (ext_list st)
                                   (ent_list st) (diagnostics st))))
  /\ (clean st = false ->
      first_pass fopen_w stem (Some lines) init = mkPass1 1 st None).
Proof.
  unfold first_pass.
  set (st0 := mkFP [] _ _ _ _ _ _ _ _).
  pose proof (fold_counters lines st0 (initial_counters init)) as H.
  destruct (clean (fold_left first_pass_line lines st0)) eqn:E; cbn [p1_state];
    rewrite E; (split; [exact H |]); split; intro; try discriminate; reflexivity.
Qed.

(** C2.  A run that succeeds (or leaves an object file) satisfies
    [(IC_final - 100) + DC_final <= 255]; a program beyond that bound
    has the error AS_SUM_GE_LIMIT reported, fails, and no second pass
    runs, so no object file is written. *)
Theorem size_bound_enforced (fopen_w : string -> bool) (stem : string)
        (lines : list string) (init : fp_state) :
  let r := first_pass fopen_w stem (Some lines) init in
  ((p1_rc r = 0 \/ ob_output r <> None) ->
   (IC (p1_state r) - 100) + DC (p1_state r) <= 255)
  /\ (255 < (IC (p1_state r) - 100) + DC (p1_state r) ->
      In "AS_SUM_GE_LIMIT" (reported (g_first_pass (diagnostics (p1_state r))))
      /\ p1_rc r = 1
      /\ p1_second r = None
      /\ ob_output r = None).
Proof.
  cbn zeta.
  destruct (first_pass_state fopen_w stem lines init) as ((C1 & C2 & C3 & C4 & _) & Hc & Hn).
  set (r := first_pass fopen_w stem (Some lines) init) in *.
  set (st := p1_state r) in *.
  unfold OB_SUM_LIMIT, IC_INIT_VALUE in *.
  destruct (clean st) eqn:E.
  - assert (Hb : IC st + DC st < 255).
    { apply C3. unfold clean in E. apply andb_prop in E. destruct E as [_ E].
      now destruct (had_error st). }
    split; [intros _; lia | intro; lia].
  - rewrite (Hn eq_refl). unfold ob_output. cbn [p1_rc p1_second p1_state].
    split.
    + intros [H | H]; [discriminate | contradiction].
    + intro Hbig. destruct C4 as [_ Hin]; [lia |]. repeat split. exact Hin.
Qed.

End FirstPassCounters.

(** ** The object file *)

Section ObjectHeader.

Lemma size_bound_enforced_witness :
  let r := first_pass (fun _ => true) "big"
                      (Some (am_lines [".mat [10][10]"; ".mat [10][10]"; ".mat [10][10]"]))
                      (main_state diags_zero) in
  255 < (IC (p1_state r) - 100) + DC (p1_state r)
  /\ In "AS_SUM_GE_LIMIT" (reported (g_first_pass (diagnostics (p1_state r))))
  /\ p1_rc r = 1
  /\ p1_second r = None
  /\ ob_output r = None.
Proof.
  cbn zeta. split; [vm_compute; reflexivity |].
  apply (size_bound_enforced (fun _ => true) "big"
           (am_lines [".mat [10][10]"; ".mat [10][10]"; ".mat [10][10]"])
           (main_state diags_zero)).
  vm_compute. reflexivity.
Defined.

(** The header form of a value below [4^16] is its minimum-width
    base-4 letter form. *)
Lemma header_minimal (v : Z) :
  0 <= v < 4 ^ 16 -> base4_minimal (to_base4_letters_header v) v.
Proof.
  intro H. unfold to_base4_letters_header, base4_minimal.
  destruct (Z.eqb_spec v 0) as [-> | Hnz].
  - split; [reflexivity | now left].
  - change (Z.to_nat (BASE4_TMP_MAX - 1)) with 16%nat. split.
    + apply header_collect_decodes. exact H.
    + right. destruct (header_collect_leading 16 v) as (c & rest & -> & Hc); [lia |].
      cbn [starts_with]. now apply Ascii.eqb_neq.
Qed.

Lemma to_unsigned_small (v : Z) : 0 <= v < 2 ^ 32 -> to_unsigned v = v.
Proof. intro H. unfold to_unsigned. now apply Z.mod_small. Qed.





End ObjectHeader.

(** ** Behaviour at concrete programs *)

Section Programs.

(** C3 fails on the code: a data directive placed before an
    instruction keeps the address computed from the counter at that
    point.  For [X: .data 7] followed by [stop] the data word sits at
    100, below the final counter 101, and at the same address as the
    code word. *)
Lemma data_before_code_not_relocated :
  let r := first_pass (fun _ => true) "ps"
                      (Some (am_lines ["X: .data 7"; "stop"])) (main_state diags_zero) in
  p1_rc r = 0
  /\ IC (p1_state r) = 101
  /\ map d_address (data_img (p1_state r)) = [100]
  /\ map address (ic_image (p1_state r)) = [100]
  /\ ob_output r
     = Some (TABs +++ "b" +++ TABs +++ "b" +++ NLs
                  +++ "bcba ddaaa" +++ NLs +++ "bcba aaabd" +++ NLs).
Proof. vm_compute. repeat split; reflexivity. Qed.

(** C5 fails on the code: the addressing-mode error of [mov r1, #5] is
    recorded in the sink of [opmodes.c], which the gate of the first
    pass does not read; the second pass runs and writes an object
    file. *)
Lemma operand_error_does_not_stop_second_pass :
  let r := first_pass (fun _ => true) "ps"
                      (Some (am_lines ["mov r1, #5"])) (main_state diags_zero) in
  reported (g_opmodes (diagnostics (p1_state r))) = ["AS022"]
  /\ total_errors (diagnostics (p1_state r)) = 1
  /\ p1_rc r = 0
  /\ option_map p2_rc (p1_second r) = Some 0
  /\ ob_output r = Some (TABs +++ "a" +++ TABs +++ "a" +++ NLs).
Proof. vm_compute. repeat split; reflexivity. Qed.

End Programs.

(** ** Images and declaration lists through the reading loop *)

Section ImageInvariant.

Lemma prepared_images (st st' : fp_state) :
  line_prepared st st' -> images_ok st -> images_ok st'.
Proof.
  intros (H1 & H2 & H3 & H4 & H5 & H6 & _) H.
  unfold images_ok. rewrite H1, H2, H3, H4, H5, H6. exact H.
Qed.

Lemma data_words_weaken (img : list data_word) (a b : Z) :
  a <= b ->
  (forall i w,
      nth_error img i = Some w ->
      0 <= d_value w < 2 ^ 16
      /\ exists ic, IC_INIT_VALUE <= ic <= a /\ d_address w = to_int (Z.of_nat i + ic)) ->
  forall i w,
    nth_error img i = Some w ->
    0 <= d_value w < 2 ^ 16
    /\ exists ic, IC_INIT_VALUE <= ic <= b /\ d_address w = to_int (Z.of_nat i + ic).
Proof.
  intros Hab H i w Hn. destruct (H i w Hn) as (Hv & ic & Hic & Ha).
  split; [exact Hv |]. exists ic. split; [lia | exact Ha].
Qed.

Lemma dispatch_images (cmd : CommandsTable) (pos tokend : string) (st : fp_state) :
  IC_INIT_VALUE <= IC st ->
  images_ok st -> images_ok (dispatch_command cmd pos tokend st).
Proof.
  intros Hic (I1 & I2 & I3 & I4 & I5). unfold dispatch_command.
  destruct (is_instruction cmd).
  - pose proof (process_commands_words_outcome cmd pos (mkEmit (IC st) (ic_image st))
                                               (symtab st) (diagnostics st)) as Ho.
    destruct (process_commands_words _ _ _ _ _) as [[rc e] ds1].
    destruct Ho as (ws & He & _).
    pose proof (emitted_app _ _ _ _ _ I1 He) as Hall.
    destruct He as (Himg & Hcnt & _). cbn [em_image em_IC] in Himg, Hcnt.
    destruct (check_sum_limit _ _ _) as [ok ds2].
    unfold images_ok. cbn [ic_image IC data_img DC ext_list ent_list].
    split.
    { rewrite Himg. destruct e as [eIC eimg]. cbn [em_image] in Himg. subst eimg. exact Hall. }
    split; [exact I2 |]. split; [| split; assumption].
    eapply data_words_weaken; [| exact I3]. lia.
  - destruct (is_data_directive cmd).
    + pose proof (process_data_string_mat_outcome (IC st) cmd pos (mkDS (DC st) (data_img st))
                                                  (diagnostics st)) as Ho.
      destruct (process_data_string_mat _ _ _ _ _) as [[rc s] ds1].
      destruct Ho as (ws & (Himg & Hcnt & Hw) & _). cbn [ds_image ds_DC] in Himg, Hcnt, Hw.
      destruct (check_sum_limit _ _ _) as [ok ds2].
      unfold images_ok. cbn [ic_image IC data_img DC ext_list ent_list].
      split; [exact I1 |].
      split; [rewrite Himg, Hcnt, length_app, Nat2Z.inj_add; lia |].
      split; [| split; assumption].
      intros i w Hn. rewrite Himg in Hn.
      destruct (Nat.lt_ge_cases i (List.length (data_img st))) as [Hlt | Hge].
      * rewrite nth_error_app1 in Hn by exact Hlt. now apply I3.
      * rewrite nth_error_app2 in Hn by exact Hge.
        destruct (Hw _ _ Hn) as (Ha & Hv). split; [exact Hv |].
        exists (IC st). split; [lia |]. rewrite Ha. f_equal. lia.
    + assert (Hdecl : forall b,
                 images_ok
                   (let '(_, ents, exts, ds1) :=
                      handle_directive_argument b (skip_ws tokend) (ent_list st) (ext_list st)
                                                (diagnostics st) in
                    mkFP (symtab st) (data_img st) (ic_image st) (IC st) (DC st) exts ents ds1
                         (had_error st))).
      { intro b.
        pose proof (handle_directive_argument_spec b (skip_ws tokend) (ent_list st)
                                                   (ext_list st) (diagnostics st)) as Hh.
        destruct (handle_directive_argument _ _ _ _ _) as [[[rc ents] exts] ds1].
        unfold images_ok. cbn [ic_image IC data_img DC ext_list ent_list].
        split; [exact I1 |]. split; [exact I2 |]. split; [exact I3 |].
        destruct Hh as [_ [(_ & -> & -> & _) | (_ & _ & l & _ & [(_ & -> & ->) | (_ & -> & ->)])]].
        - split; assumption.
        - split; [exact I4 |]. apply Forall_app. split; [exact I5 | repeat constructor].
        - split; [| exact I5]. apply Forall_app. split; [exact I4 | repeat constructor]. }
      destruct cmd; try exact (conj I1 (conj I2 (conj I3 (conj I4 I5)))); apply Hdecl.
Qed.

Lemma first_pass_line_images (st : fp_state) (line : string) :
  counters_ok st -> images_ok st -> images_ok (first_pass_line st line).
Proof.
  intros Hc H.
  destruct (first_pass_line_cases st line)
    as [(st' & P & ->) | (st4 & cmd & pos & te & P & _ & ->)].
  - eapply prepared_images; eauto.
  - apply dispatch_images; [| eapply prepared_images; eauto].
    destruct P as (-> & _). now destruct Hc.
Qed.

Lemma fold_images (lines : list string) :
  forall st,
    counters_ok st -> images_ok st -> images_ok (fold_left first_pass_line lines st).
Proof.
  induction lines as [| l ls IH]; intros st Hc H; [exact H |].
  cbn [fold_left]. apply IH;
    [now apply first_pass_line_counters | now apply first_pass_line_images].
Qed.

Lemma initial_images (ds : diags) :
  images_ok (mkFP [] (data_img (main_state ds)) (ic_image (main_state ds)) IC_INIT_VALUE 0
                  (ext_list (main_state ds)) (ent_list (main_state ds))
                  (diagnostics (main_state ds)) false).
Proof.
  unfold images_ok. cbn.
  split; [apply emitted_nil |]. split; [reflexivity |].
  split; [intros [| i] w H; discriminate |]. split; constructor.
Qed.

(** Both invariants hold in the state a run of the first pass ends in,
    when it starts from the objects of [main]. *)
Lemma first_pass_invariants (fopen_w : string -> bool) (stem : string)
      (lines : list string) (ds : diags) :
  let st := p1_state (first_pass fopen_w stem (Some lines) (main_state ds)) in
  counters_ok st /\ images_ok st.
Proof.
  cbn zeta. unfold first_pass.
  set (st0 := mkFP [] _ _ _ _ _ _ _ _).
  assert (H : counters_ok (fold_left first_pass_line lines st0)
              /\ images_ok (fold_left first_pass_line lines st0)).
  { split; [apply fold_counters, initial_counters |].
    apply fold_images; [apply initial_counters | apply initial_images]. }
  destruct (clean (fold_left first_pass_line lines st0)); exact H.
Qed.

End ImageInvariant.

(** ** What the first pass guarantees *)

Section FirstPassResults.

Variable fopen_w : string -> bool.
Variable stem : string.
Variable lines : list string.
Variable ds : diags.

Let st : fp_state := p1_state (first_pass fopen_w stem (Some lines) (main_state ds)).

Lemma to_int_small (v : Z) : - 2 ^ 31 <= v < 2 ^ 31 -> to_int v = v.
Proof. intro H. unfold to_int. rewrite Z.mod_small; lia. Qed.

Lemma clean_no_error : clean st = true -> had_error st = false.
Proof.
  unfold clean. intro H. apply andb_prop in H. destruct H as [_ H].
  now destruct (had_error st).
Qed.

(** The code image after the first pass: one word per counter step
    from 100, each with the address at which it was emitted and fields
    within their bit widths; on a run without error the addresses are
    100, 101, ... *)
Theorem code_image_layout :
  Z.of_nat (List.length (ic_image st)) = IC st - 100
  /\ forall i w,
      nth_error (ic_image st) i = Some w ->
      address w = to_int (100 + Z.of_nat i)
      /\ 0 <= value w < 256
      /\ 0 <= are w < 4
      /\ (had_error st = false -> address w = 100 + Z.of_nat i).
Proof.
  destruct (first_pass_invariants fopen_w stem lines ds) as [Hc Hi]. fold st in Hc, Hi.
  destruct Hc as (C1 & C2 & C3 & _). destruct Hi as ((_ & Hn & Hw) & _).
  cbn [em_IC em_image] in Hn, Hw. unfold IC_INIT_VALUE, OB_SUM_LIMIT in *.
  split; [lia |].
  intros i w H. destruct (Hw i w H) as (Ha & Hv & Hr).
  repeat split; try assumption; try lia.
  intro He. rewrite Ha. apply to_int_small.
  assert (Hlt : (i < List.length (ic_image st))%nat) by (apply nth_error_Some; congruence).
  specialize (C3 He). lia.
Qed.

(** The data image after the first pass: [DC] words; the word at
    position [i] carries the address [i + ic] for the value [ic] the
    instruction counter had when it was emitted (between 100 and the
    final counter), and a 16-bit payload. *)
Theorem data_image_layout :
  Z.of_nat (List.length (data_img st)) = DC st
  /\ forall i w,
      nth_error (data_img st) i = Some w ->
      0 <= d_value w < 2 ^ 16
      /\ exists ic,
          100 <= ic <= IC st
          /\ d_address w = to_int (Z.of_nat i + ic)
          /\ (had_error st = false -> d_address w = Z.of_nat i + ic).
Proof.
  destruct (first_pass_invariants fopen_w stem lines ds) as [Hc Hi]. fold st in Hc, Hi.
  destruct Hc as (C1 & C2 & C3 & _). destruct Hi as (_ & Hn & Hw & _).
  unfold IC_INIT_VALUE, OB_SUM_LIMIT in *.
  split; [exact Hn |].
  intros i w H. destruct (Hw i w H) as (Hv & ic & Hic & Ha).
  split; [exact Hv |]. exists ic. split; [lia |]. split; [exact Ha |].
  intro He. rewrite Ha. apply to_int_small.
  assert (Hlt : (i < List.length (data_img st))%nat) by (apply nth_error_Some; congruence).
  specialize (C3 He). lia.
Qed.

(** The symbol table after the first pass: names are pairwise
    distinct, every symbol is a code or data symbol, and its value lies
    between 100 and [IC + DC]. *)
Theorem symbol_table_well_formed :
  NoDup (map key (symtab st))
  /\ forall sym,
      In sym (symtab st) ->
      (type sym = CODE_SYMBOL \/ type sym = DATA_SYMBOL)
      /\ 100 <= sym_value sym <= IC st + DC st.
Proof.
  destruct (first_pass_invariants fopen_w stem lines ds) as [Hc _]. fold st in Hc.
  destruct Hc as (_ & _ & _ & _ & Hnd & Hall).
  split; [exact Hnd |]. intros sym Hin. rewrite Forall_forall in Hall. now apply Hall.
Qed.

(** Declarations after the first pass: no extern has a recorded usage
    and every entry still has address 0. *)
Lemma declarations_pending :
  (forall x, In x (ext_list st) -> addr_head x = [])
  /\ (forall e, In e (ent_list st) -> e_addr e = 0).
Proof.
  destruct (first_pass_invariants fopen_w stem lines ds) as [_ Hi]. fold st in Hi.
  destruct Hi as (_ & _ & _ & Hx & He).
  rewrite Forall_forall in Hx, He. split; assumption.
Qed.

(** The limit the first pass enforces: a run that reaches the second
    pass has [IC + DC < 255], that is at most 154 words. *)
Theorem clean_run_below_limit :
  clean st = true ->
  IC st + DC st < 255
  /\ Z.of_nat (List.length (ic_image st)) + Z.of_nat (List.length (data_img st)) <= 154.
Proof.
  intro Hcl.
  destruct (first_pass_invariants fopen_w stem lines ds) as [Hc Hi]. fold st in Hc, Hi.
  destruct Hc as (C1 & C2 & C3 & _). destruct Hi as ((_ & Hn & _) & Hd & _).
  cbn [em_IC em_image] in Hn. unfold IC_INIT_VALUE, OB_SUM_LIMIT in *.
  specialize (C3 (clean_no_error Hcl)). lia.
Qed.

End FirstPassResults.

Lemma clean_run_below_limit_witness :
  let st := p1_state (first_pass (fun _ => true) "ps"
                                 (Some (am_lines ["mov r1, r2"; "X: .data 7, 8"]))
                                 (main_state diags_zero)) in
  IC st + DC st < 255
  /\ Z.of_nat (List.length (ic_image st)) + Z.of_nat (List.length (data_img st)) <= 154.
Proof.
  apply (clean_run_below_limit (fun _ => true) "ps"
           (am_lines ["mov r1, r2"; "X: .data 7, 8"]) diags_zero).
  vm_compute. reflexivity.
Defined.

(** ** What the second pass guarantees *)

Section SecondPassResults.

(** A second pass that returns 0 has resolved the code image, completed
    the entries and called the three writers. *)
Lemma second_pass_ran (fopen_w : string -> bool) (stem : string) (symtab : table)
      (code_head : list machine_word) (data_head : list data_word) (ICf DCf : Z)
      (exts : list extern_list) (ents : list entry_list) (ds : diags) :
  let p2 := second_pass fopen_w stem symtab code_head data_head ICf DCf exts ents ds in
  p2_rc p2 = 0 ->
  p2_code p2 = fst (resolve_labels_in_place code_head symtab exts)
  /\ p2_ext p2 = snd (resolve_labels_in_place code_head symtab exts)
  /\ p2_ent p2 = complete_entry_labels symtab ents.
Proof.
  cbn zeta. unfold second_pass.
  destruct (0 <? error_count _); [discriminate |].
  destruct (resolve_labels_in_place _ _ _) as [code1 ext1].
  destruct (write_ob_base4_only _ _ _ _ _ _ _ _) as [ds1 ob].
  destruct (write_ent_base4_only _ _ _ _) as [ds2 ent].
  destruct (write_ext_base4_only _ _ _ _) as [ds3 ext].
  intros _. repeat split.
Qed.

Lemma first_pass_second (fopen_w : string -> bool) (stem : string) (lines : list string)
      (init : fp_state) (p2 : pass2) :
  let r := first_pass fopen_w stem (Some lines) init in
  p1_second r = Some p2 ->
  clean (p1_state r) = true
  /\ p2 = second_pass fopen_w stem (symtab (p1_state r)) (ic_image (p1_state r))
                      (data_img (p1_state r)) (IC (p1_state r) - IC_INIT_VALUE)
                      (DC (p1_state r)) (ext_list (p1_state r)) (ent_list (p1_state r))
                      (diagnostics (p1_state r)).
Proof.
  cbn zeta. destruct (first_pass_state fopen_w stem lines init) as (_ & Hc & Hn).
  destruct (clean _) eqn:E.
  - rewrite (Hc eq_refl). cbn [p1_second p1_state]. intro H. injection H as <-.
    split; reflexivity.
  - rewrite (Hn eq_refl). discriminate.
Qed.

Lemma distinct_addresses (img : list machine_word) (base : Z) :
  (forall i w, nth_error img i = Some w -> address w = base + Z.of_nat i) ->
  NoDup (map address img).
Proof.
  intro H. apply NoDup_nth_error. intros i j Hi Hij.
  rewrite length_map in Hi.
  rewrite !nth_error_map in Hij.
  destruct (nth_error img i) as [wi |] eqn:Ei; [| apply nth_error_None in Ei; lia].
  destruct (nth_error img j) as [wj |] eqn:Ej; [| discriminate].
  cbn in Hij. injection Hij as Hij.
  rewrite (H _ _ Ei), (H _ _ Ej) in Hij. lia.
Qed.

(** Extern usage after a whole assembly.  When the second pass has run
    (return code 0), a code word whose label is unknown to the symbol
    table and declared extern has payload 0, ARE External and address
    [100 + i], and that address occurs exactly once in the usage chain
    of the first extern node with its label; a word whose label is in
    the symbol table has the symbol's value as payload, ARE
    Relocatable, and occurs in no usage chain. *)
Theorem extern_usage_after_assembly (fopen_w : string -> bool) (stem : string)
        (lines : list string) (ds : diags) (p2 : pass2) :
  let r := first_pass fopen_w stem (Some lines) (main_state ds) in
  let st := p1_state r in
  p1_second r = Some p2 ->
  p2_rc p2 = 0 ->
  forall i mw,
    nth_error (ic_image st) i = Some mw ->
    label mw <> EmptyString ->
    (find_symbol (symtab st) (label mw) = None ->
     forall j x,
       nth_error (ext_list st) j = Some x ->
       x_labels x = label mw ->
       (forall k y, (k < j)%nat -> nth_error (ext_list st) k = Some y ->
                    x_labels y <> label mw) ->
       exists mw' x',
         nth_error (p2_code p2) i = Some mw'
         /\ value mw' = 0 /\ are mw' = ARE_EXT /\ address mw' = 100 + Z.of_nat i
         /\ nth_error (p2_ext p2) j = Some x'
         /\ x_labels x' = label mw
         /\ count_occ Z.eq_dec (addr_head x') (100 + Z.of_nat i) = 1%nat)
    /\ (forall sym,
           find_symbol (symtab st) (label mw) = Some sym ->
           (exists mw',
               nth_error (p2_code p2) i = Some mw'
               /\ value mw' = sym_value sym /\ are mw' = ARE_REL
               /\ address mw' = 100 + Z.of_nat i)
           /\ forall y, In y (p2_ext p2) -> ~ In (100 + Z.of_nat i) (addr_head y)).
Proof.
  cbn zeta. intros Hsec Hrc i mw Hn Hl.
  destruct (first_pass_second fopen_w stem lines (main_state ds) p2 Hsec) as [Hcl ->].
  destruct (second_pass_ran _ _ _ _ _ _ _ _ _ _ Hrc) as (Hcode & Hext & _).
  rewrite Hcode, Hext. clear Hcode Hext Hrc Hsec.
  pose proof (first_pass_invariants fopen_w stem lines ds) as [Hc Hi]. cbn zeta in Hc, Hi.
  set (st := p1_state (first_pass fopen_w stem (Some lines) (main_state ds))) in *.
  destruct Hc as (C1 & C2 & C3 & _ & _ & Hsym).
  destruct Hi as ((_ & Hcnt & Hlay) & _ & _ & Hem & _).
  cbn [em_IC em_image] in Hcnt, Hlay. unfold IC_INIT_VALUE, OB_SUM_LIMIT in *.
  assert (Herr : had_error st = false).
  { unfold clean in Hcl. apply andb_prop in Hcl. destruct Hcl as [_ Hcl].
    now destruct (had_error st). }
  specialize (C3 Herr).
  assert (Haddr : forall k w, nth_error (ic_image st) k = Some w -> address w = 100 + Z.of_nat k).
  { intros k w Hk. destruct (Hlay k w Hk) as (Ha & _). rewrite Ha. apply to_int_small.
    assert (Hlt : (k < List.length (ic_image st))%nat) by (apply nth_error_Some; congruence).
    lia. }
  assert (Hnd : NoDup (map address (ic_image st))) by (eapply distinct_addresses; eauto).
  destruct (resolve_extern_usage (symtab st) (ic_image st) (ext_list st) Hnd Hem i mw Hn Hl)
    as [HA HB].
  rewrite <- (Haddr i mw Hn).
  split.
  - intros Hs j x Hx Hxl Hfirst.
    destruct (HA Hs j x Hx Hxl Hfirst) as (mw' & x' & H1 & H2 & H3 & H4 & H5 & H6 & H7 & _).
    exists mw', x'. repeat split; assumption.
  - intros sym Hs. split; [| apply HB; congruence].
    destruct (resolve_nth (symtab st) (ic_image st) (ext_list st) i mw Hn) as (ext_i & _ & Hi).
    eexists. split; [exact Hi |]. unfold resolve_word.
    destruct (String.eqb_spec (label mw) EmptyString); [contradiction |].
    rewrite Hs. cbn [value are address]. repeat split.
    apply Z.mod_small. destruct (find_symbol_In _ _ _ Hs) as [Hin _].
    rewrite Forall_forall in Hsym. destruct (Hsym sym Hin) as [_ Hv]. lia.
Qed.

End SecondPassResults.

Lemma extern_usage_after_assembly_witness :
  let r := first_pass (fun _ => true) "ps"
                      (Some (am_lines [".extern W"; "mov W, r1"]))
                      (main_state diags_zero) in
  exists p2,
    p1_second r = Some p2
    /\ p2_rc p2 = 0
    /\ exists mw' x',
        nth_error (p2_code p2) 1 = Some mw'
        /\ value mw' = 0 /\ are mw' = ARE_EXT /\ address mw' = 100 + Z.of_nat 1
        /\ nth_error (p2_ext p2) 0 = Some x'
        /\ x_labels x' = "W"
        /\ count_occ Z.eq_dec (addr_head x') (100 + Z.of_nat 1) = 1%nat.
Proof.
  intro r.
  destruct (p1_second r) as [p2 |] eqn:E; [| vm_compute in E; discriminate].
  exists p2. split; [reflexivity |].
  assert (Hrc : p2_rc p2 = 0).
  { vm_compute in E. injection E as <-. reflexivity. }
  split; [exact Hrc |].
  destruct (extern_usage_after_assembly (fun _ => true) "ps"
              (am_lines [".extern W"; "mov W, r1"]) diags_zero p2 E Hrc
              1%nat (mkWord 101 "W" 0 ARE_ABS)) as [HA _].
  - vm_compute. reflexivity.
  - discriminate.
  - apply (HA eq_refl 0%nat (mkExtern "W" [])).
    + vm_compute. reflexivity.
    + reflexivity.
    + intros k y Hk. lia.
Defined.

Section Entries.

Lemma complete_entry_nth (symtab : table) (ents : list entry_list) (k : nat) (e : entry_list) :
  nth_error (complete_entry_labels symtab ents) k = Some e ->
  exists e0,
    nth_error ents k = Some e0
    /\ e_labels e = e_labels e0
    /\ match find_symbol symtab (e_labels e0) with
       | Some sym => e_addr e = to_int (sym_value sym)
       | None => e_addr e = e_addr e0
       end.
Proof.
  unfold complete_entry_labels. rewrite nth_error_map.
  destruct (nth_error ents k) as [e0 |]; [| discriminate].
  cbn [option_map]. intro H. injection H as <-. exists e0. split; [reflexivity |].
  destruct (find_symbol symtab (e_labels e0)); split; reflexivity.
Qed.

(** Entries after a whole assembly.  When the second pass has run,
    every entry whose name is in the symbol table carries that symbol's
    value, and the symbol is a code or data symbol; an entry whose name
    is not in the table silently keeps address 0. *)
Theorem entries_after_assembly (fopen_w : string -> bool) (stem : string)
        (lines : list string) (ds : diags) (p2 : pass2) :
  let r := first_pass fopen_w stem (Some lines) (main_state ds) in
  let st := p1_state r in
  p1_second r = Some p2 ->
  p2_rc p2 = 0 ->
  map e_labels (p2_ent p2) = map e_labels (ent_list st)
  /\ forall k e,
      nth_error (p2_ent p2) k = Some e ->
      match find_symbol (symtab st) (e_labels e) with
      | Some sym =>
          e_addr e = sym_value sym
          /\ (type sym = CODE_SYMBOL \/ type sym = DATA_SYMBOL)
      | None => e_addr e = 0
      end.
Proof.
  cbn zeta. intros Hsec Hrc.
  destruct (first_pass_second fopen_w stem lines (main_state ds) p2 Hsec) as [Hcl ->].
  destruct (second_pass_ran _ _ _ _ _ _ _ _ _ _ Hrc) as (_ & _ & Hent).
  rewrite Hent. clear Hent Hrc Hsec.
  pose proof (first_pass_invariants fopen_w stem lines ds) as [Hc Hi]. cbn zeta in Hc, Hi.
  set (st := p1_state (first_pass fopen_w stem (Some lines) (main_state ds))) in *.
  destruct Hc as (C1 & C2 & C3 & _ & _ & Hsym).
  destruct Hi as (_ & _ & _ & _ & Hzero).
  unfold IC_INIT_VALUE, OB_SUM_LIMIT in *.
  assert (Herr : had_error st = false).
  { unfold clean in Hcl. apply andb_prop in Hcl. destruct Hcl as [_ Hcl].
    now destruct (had_error st). }
  specialize (C3 Herr).
  split.
  - unfold complete_entry_labels. rewrite map_map. apply map_ext.
    intro e. destruct (find_symbol (symtab st) (e_labels e)); reflexivity.
  - intros k e Hk. destruct (complete_entry_nth _ _ _ _ Hk) as (e0 & Hk0 & Hlab & Haddr).
    rewrite Hlab.
    destruct (find_symbol (symtab st) (e_labels e0)) as [sym |] eqn:Ef.
    + destruct (find_symbol_In _ _ _ Ef) as [Hin _].
      rewrite Forall_forall in Hsym. destruct (Hsym sym Hin) as [Ht Hv].
      split; [| exact Ht]. rewrite Haddr. apply to_int_small. lia.
    + rewrite Haddr. rewrite Forall_forall in Hzero. apply Hzero.
      eapply nth_error_In; eauto.
Qed.

End Entries.

Lemma entries_after_assembly_witness :
  let r := first_pass (fun _ => true) "ps"
                      (Some (am_lines [".entry A"; ".entry B"; "A: stop"]))
                      (main_state diags_zero) in
  exists p2,
    p1_second r = Some p2
    /\ p2_rc p2 = 0
    /\ map e_labels (p2_ent p2) = map e_labels (ent_list (p1_state r))
    /\ forall k e,
        nth_error (p2_ent p2) k = Some e ->
        match find_symbol (symtab (p1_state r)) (e_labels e) with
        | Some sym =>
            e_addr e = sym_value sym
            /\ (type sym = CODE_SYMBOL \/ type sym = DATA_SYMBOL)
        | None => e_addr e = 0
        end.
Proof.
  intro r.
  destruct (p1_second r) as [p2 |] eqn:E; [| vm_compute in E; discriminate].
  exists p2. split; [reflexivity |].
  assert (Hrc : p2_rc p2 = 0).
  { vm_compute in E. injection E as <-. reflexivity. }
  split; [exact Hrc |].
  exact (entries_after_assembly (fun _ => true) "ps"
           (am_lines [".entry A"; ".entry B"; "A: stop"]) diags_zero p2 E Hrc).
Defined.

(** ** More on the base-4 letter forms *)

Section LetterForms.

(** The header form of an [unsigned] value reads back as the value,
    is the single letter [a] exactly for 0, and otherwise does not
    start with [a]. *)
Theorem header_round_trip (v : Z) :
  0 <= v < 2 ^ 32 ->
  from_base4_letters (to_base4_letters_header v) = Some v
  /\ (to_base4_letters_header v = "a" <-> v = 0)
  /\ (v <> 0 -> starts_with (to_base4_letters_header v) "a" = false).
Proof.
  intro H. destruct (header_minimal v) as [Hd Hm]; [change (4 ^ 16) with (2 ^ 32); exact H |].
  split; [exact Hd |].
  assert (Hz : v <> 0 -> starts_with (to_base4_letters_header v) "a" = false).
  { intro Hnz. destruct Hm as [E | E]; [| exact E].
    rewrite E in Hd. cbn in Hd. congruence. }
  split; [| exact Hz]. split.
  - intro E. destruct (Z.eq_dec v 0) as [| Hnz]; [assumption |].
    specialize (Hz Hnz). rewrite E in Hz. discriminate.
  - intros ->. reflexivity.
Qed.

Lemma header_round_trip_witness :
  from_base4_letters (to_base4_letters_header 100) = Some 100
  /\ (to_base4_letters_header 100 = "a" <-> 100 = 0)
  /\ (100 <> 0 -> starts_with (to_base4_letters_header 100) "a" = false).
Proof. apply header_round_trip. lia. Defined.

Lemma lor_shift2 (x y : Z) : 0 <= y < 4 -> Z.lor (Z.shiftl x 2) y = 4 * x + y.
Proof.
  intro H. rewrite Z.shiftl_mul_pow2 by lia. change (2 ^ 2) with 4.
  rewrite <- Z.lxor_lor, <- Z.add_nocarry_lxor; try lia.
  all: apply Z.bits_inj'; intros n Hn; rewrite Z.land_spec, Z.bits_0;
    destruct (Z.lt_ge_cases n 2) as [Hlt | Hge].
  all: try (replace (x * 4) with (x * 2 ^ 2) by lia;
            rewrite Z.mul_pow2_bits_low by lia; reflexivity).
  all: replace y with (y mod 2 ^ 2) by (apply Z.mod_small; lia);
    rewrite Z.mod_pow2_bits_high by lia; apply andb_false_r.
Qed.

Lemma land_255 (p : Z) : Z.land p PAYLOAD8_MASK = p mod 256.
Proof. unfold PAYLOAD8_MASK. change 255 with (Z.ones 8). now rewrite Z.land_ones by lia. Qed.

Lemma land_3 (p : Z) : Z.land p ARE2_MASK = p mod 4.
Proof. unfold ARE2_MASK. change 3 with (Z.ones 2). now rewrite Z.land_ones by lia. Qed.

Lemma land_1023 (p : Z) : Z.land p WORD10_MASK = p mod 1024.
Proof. unfold WORD10_MASK. change 1023 with (Z.ones 10). now rewrite Z.land_ones by lia. Qed.

Lemma five_letters (v : Z) (out : string) :
  0 <= v < 1024 ->
  from_base4_letters (to_base4_letters v WORD10_DIGITS out) = Some v
  /\ slen (to_base4_letters v WORD10_DIGITS out) = 5.
Proof.
  intro H. unfold to_base4_letters, from_base4_letters, slen, WORD10_DIGITS.
  change (5 <=? 0) with false. cbv iota. change (Z.to_nat 5) with 5%nat. split.
  - rewrite from_base4_fill by lia. cbn [from_base4_letters_acc].
    change (4 ^ Z.of_nat 5) with 1024. rewrite Z.mod_small by lia. reflexivity.
  - rewrite base4_fill_length. reflexivity.
Qed.

(** The five letters of a code word read back as [payload * 4 + ARE]
    (payload taken modulo 256, ARE modulo 4); those of a data word as
    the payload modulo 1024. *)
Theorem word_letters_round_trip (payload are2 unused : Z) (out5 : string) :
  from_base4_letters (word10_to_letters_code payload are2 out5)
  = Some (4 * (payload mod 256) + are2 mod 4)
  /\ slen (word10_to_letters_code payload are2 out5) = 5
  /\ from_base4_letters (word10_to_letters_data payload unused out5)
     = Some (payload mod 1024)
  /\ slen (word10_to_letters_data payload unused out5) = 5.
Proof.
  unfold word10_to_letters_code, word10_to_letters_data.
  rewrite land_255, land_3, land_1023.
  pose proof (Z.mod_pos_bound payload 256). pose proof (Z.mod_pos_bound are2 4).
  pose proof (Z.mod_pos_bound payload 1024).
  rewrite lor_shift2 by lia.
  destruct (five_letters (4 * (payload mod 256) + are2 mod 4) out5) as [A B]; [lia |].
  destruct (five_letters (payload mod 1024) out5) as [C D]; [lia |].
  repeat split; assumption.
Qed.

End LetterForms.

(** ** Lexical helpers *)

Lemma rtrim_idem (s : string) : rtrim (rtrim s) = rtrim s.
Proof.
  induction s as [| c s IH]; [reflexivity |].
  cbn [rtrim]. destruct (is_empty (rtrim s) && isspace c) eqn:E; [reflexivity |].
  cbn [rtrim]. rewrite IH, E. reflexivity.
Qed.

Lemma rtrim_blank (s : string) :
  rtrim s = EmptyString <-> all_chars isspace s = true.
Proof.
  induction s as [| c s IH]; cbn [rtrim all_chars]; [tauto |].
  destruct (rtrim s) as [| a t] eqn:E; cbn [is_empty andb].
  - destruct (isspace c); cbn [andb].
    + split; [intros _; now apply IH | reflexivity].
    + split; discriminate.
  - split; [discriminate |]. intro H. apply andb_prop in H. destruct H as [_ H].
    apply IH in H. discriminate.
Qed.

Lemma all_chars_skip_ws (f : ascii -> bool) (s : string) :
  all_chars f s = true -> all_chars f (skip_ws s) = true.
Proof.
  induction s as [| c s IH]; [reflexivity |].
  intro H. cbn [skip_ws]. destruct (isspace c); [| exact H].
  cbn [all_chars] in H. apply andb_prop in H. now apply IH.
Qed.

Lemma trim_inplace_fixed (s : string) : trim_inplace (trim_inplace s) = trim_inplace s.
Proof.
  unfold trim_inplace at 1. rewrite trim_inplace_no_leading.
  unfold trim_inplace. apply rtrim_idem.
Qed.

(** [trim_inplace] leaves a text with no whitespace at either end, is
    idempotent, and gives the empty text exactly on blank input. *)
Theorem trim_inplace_trimmed (s : string) :
  skip_ws (trim_inplace s) = trim_inplace s
  /\ rtrim (trim_inplace s) = trim_inplace s
  /\ trim_inplace (trim_inplace s) = trim_inplace s
  /\ (trim_inplace s = EmptyString <-> all_chars isspace s = true).
Proof.
  split; [apply trim_inplace_no_leading |].
  split; [unfold trim_inplace; apply rtrim_idem |].
  split; [apply trim_inplace_fixed |].
  unfold trim_inplace. rewrite skip_ws_all_blank. split.
  - intro H. apply rtrim_blank in H.
    destruct (skip_ws s) as [| c r] eqn:E; [reflexivity |].
    cbn [all_chars] in H. apply andb_prop in H. destruct H as [H _].
    rewrite (skip_ws_head s c r E) in H. discriminate.
  - intros ->. reflexivity.
Qed.

(** [reg_id] is the digit of a register token ([r0]..[r7], either
    case of the letter) and -1 on any other text; the first pass's
    [is_register_name] accepts exactly the same tokens. *)
Lemma reg_id_spec (tok : string) :
  is_register_name tok = is_register_token tok
  /\ ((exists p d,
         tok = String p (String d EmptyString)
         /\ (p = "r"%char \/ p = "R"%char)
         /\ 48 <= char_code d <= 55
         /\ is_register_token tok = true
         /\ reg_id tok = char_code d - 48)
      \/ (is_register_token tok = false /\ reg_id tok = -1)).
Proof.
  split.
  - destruct tok as [| c0 [| c1 [| c2 t]]]; reflexivity.
  - unfold reg_id. destruct (is_register_token tok) eqn:E; [left | right; split; reflexivity].
    destruct tok as [| c0 [| c1 [| c2 t]]]; try discriminate.
    cbn [is_register_token] in E. apply andb_prop in E. destruct E as [Ep Ed].
    unfold IS_REGISTER_PREFIX in Ep. unfold IS_VALID_REGISTER_CHAR in Ed.
    change (char_code "0") with 48 in *. change (char_code "7") with 55 in Ed.
    exists c0, c1. split; [reflexivity |]. split.
    { apply orb_prop in Ep. destruct Ep as [Ep | Ep]; apply Ascii.eqb_eq in Ep; auto. }
    split; [lia |]. split; reflexivity.
Qed.

Lemma ieq_lower (a b : string) : ieq a b = String.eqb (lower a) (lower b).
Proof.
  revert b. induction a as [| x a IH]; intros [| y b]; cbn [ieq lower String.eqb]; try reflexivity.
  destruct (Ascii.eqb (tolower x) (tolower y)); [apply IH | reflexivity].
Qed.

(** [ieq] compares the two texts after lowering their letters; so it
    is an equivalence, and equal texts are [ieq]. *)
Lemma ieq_spec (a b c : string) :
  (ieq a b = true <-> lower a = lower b)
  /\ ieq a a = true
  /\ ieq a b = ieq b a
  /\ (ieq a b = true -> ieq b c = true -> ieq a c = true).
Proof.
  rewrite !ieq_lower. split; [apply String.eqb_eq |].
  split; [apply String.eqb_refl |].
  split; [apply String.eqb_sym |].
  rewrite !String.eqb_eq. congruence.
Qed.

Lemma ieq_spec_witness :
  (ieq "MOV" "mov" = true <-> lower "MOV" = lower "mov")
  /\ ieq "MOV" "MOV" = true
  /\ ieq "MOV" "mov" = ieq "mov" "MOV"
  /\ (ieq "MOV" "mov" = true -> ieq "mov" "Mov" = true -> ieq "MOV" "Mov" = true).
Proof. exact (ieq_spec "MOV" "mov" "Mov"). Defined.

Lemma reserved_covers_registers (l : string) :
  is_reserved_mnemonic l = false -> is_register_name l = false.
Proof.
  unfold is_reserved_mnemonic. destruct l as [| c r]; [reflexivity |].
  cbn [is_empty].
  destruct (negb (is_undefined (match_instruction (String c r)))); [discriminate |].
  destruct (negb (is_undefined (match_directive (String c r)))); [discriminate |].
  exact (fun H => H).
Qed.

(** [validate_label_name] never reports AS016: a register name is
    already refused as a reserved word (AS015); and it accepts exactly
    the names that start with a letter, continue with letters and
    digits, and are not reserved. *)
Theorem validate_label_name_spec (l : string) (ds : diags) :
  (fst (validate_label_name l ds) = true
   <-> is_alpha_num_label l = true /\ is_reserved_mnemonic l = false)
  /\ (fst (validate_label_name l ds) = true -> snd (validate_label_name l ds) = ds)
  /\ (fst (validate_label_name l ds) = false ->
      snd (validate_label_name l ds) = err_first_pass ds "AS001"
      \/ snd (validate_label_name l ds) = err_first_pass ds "AS015").
Proof.
  unfold validate_label_name.
  destruct l as [| c r].
  { cbn. repeat split; try discriminate; auto. intros [H _]. discriminate. }
  cbn [is_empty].
  destruct (is_alpha_num_label (String c r)) eqn:Ea; cbn [negb].
  2:{ cbn. repeat split; try discriminate; auto. intros [H _]. discriminate. }
  destruct (is_reserved_mnemonic (String c r)) eqn:Er.
  { cbn. repeat split; try discriminate; auto. intros [_ H]. discriminate. }
  rewrite (reserved_covers_registers _ Er). cbn.
  repeat split; auto; discriminate.
Qed.

(** ** Instruction words *)



Lemma count_not_rule (n lo : Z) (P Q R : Z * diags) (ds : diags) :
  (lo = 0 \/ lo = 1 \/ lo = 2) ->
  (n =? lo) = false ->
  fst (if (to_unsigned n <? lo) || (lo <? to_unsigned n) then (1, err_opmodes ds "AS003")
       else if n =? OPS_ZERO then P
       else if n =? OPS_ONE then Q
       else if n =? OPS_TWO then R
       else (1, err_opmodes ds "AS003")) = 1
  \/ (n =? OPS_ZERO) = true \/ (n =? OPS_ONE) = true \/ (n =? OPS_TWO) = true.
Proof.
  intros Hlo Hn.
  destruct ((to_unsigned n <? lo) || (lo <? to_unsigned n)); [now left |].
  destruct (n =? OPS_ZERO); [auto |].
  destruct (n =? OPS_ONE); [auto |].
  destruct (n =? OPS_TWO); [auto |]. now left.
Qed.

(** [validate_modes_for_opcode] returns 0 exactly when the operand
    count and the modes are those the rule of the opcode admits, and 1
    otherwise; acceptance reports nothing. *)
Theorem validate_modes_table (cmd : CommandsTable) (n : Z) (s d : addr_mode) (ds : diags) :
  fst (validate_modes_for_opcode cmd n s d ds) = (if modes_accepted cmd n s d then 0 else 1)
  /\ (modes_accepted cmd n s d = true -> snd (validate_modes_for_opcode cmd n s d ds) = ds).
Proof.
  assert (Hfst : fst (validate_modes_for_opcode cmd n s d ds)
                 = (if modes_accepted cmd n s d then 0 else 1)).
  { destruct (Z.eqb_spec n 0) as [-> | N0].
    { destruct cmd, s, d; reflexivity. }
    destruct (Z.eqb_spec n 1) as [-> | N1].
    { destruct cmd, s, d; reflexivity. }
    destruct (Z.eqb_spec n 2) as [-> | N2].
    { destruct cmd, s, d; reflexivity. }
    assert (E0 : (n =? OPS_ZERO) = false) by (apply Z.eqb_neq; exact N0).
    assert (E1 : (n =? OPS_ONE) = false) by (apply Z.eqb_neq; exact N1).
    assert (E2 : (n =? OPS_TWO) = false) by (apply Z.eqb_neq; exact N2).
    unfold modes_accepted, validate_modes_for_opcode.
    destruct (opcode_rule cmd) as [rule |] eqn:Er; [| reflexivity].
    assert (Hlo : min_ops rule = max_ops rule
                  /\ (min_ops rule = 0 \/ min_ops rule = 1 \/ min_ops rule = 2)).
    { destruct cmd; try discriminate; injection Er as <-; cbn; auto. }
    destruct Hlo as [Hmm Hlo]. rewrite <- Hmm.
    assert (En : (n =? min_ops rule) = false).
    { apply Z.eqb_neq. unfold OPS_ZERO, OPS_ONE, OPS_TWO in *. lia. }
    rewrite En. cbn [andb].
    rewrite E0, E1, E2.
    destruct ((to_unsigned n <? min_ops rule) || (min_ops rule <? to_unsigned n)); reflexivity. }
  split; [exact Hfst |].
  intro Hacc. rewrite Hacc in Hfst.
  rewrite (validate_modes_fst _ _ _ _ _ Hfst). reflexivity.
Qed.

(** One instruction line leaves at most five words, appended to the
    image with consecutive addresses from the current counter; return
    code 0 comes with at least the first word and no new diagnostic,
    return code -1 with at least one. *)
Theorem instruction_words (cmd : CommandsTable) (line : string) (e : emitter)
        (symtab : table) (ds : diags) :
  exists rc e' ds' ws,
    process_commands_words cmd line e symtab ds = (rc, e', ds')
    /\ em_image e' = em_image e ++ ws
    /\ em_IC e' = em_IC e + Z.of_nat (List.length ws)
    /\ (List.length ws <= 5)%nat
    /\ (forall i w, nth_error ws i = Some w ->
                    address w = to_int (em_IC e + Z.of_nat i)
                    /\ 0 <= value w < 256 /\ 0 <= are w < 4)
    /\ diags_le ds ds'
    /\ ((rc = 0 /\ ds' = ds /\ (1 <= List.length ws)%nat)
        \/ (rc = -1 /\ total_errors ds < total_errors ds')).
Proof.
  pose proof (process_commands_words_outcome cmd line e symtab ds) as H.
  destruct (process_commands_words cmd line e symtab ds) as [[rc e'] ds'].
  destruct H as (ws & (Hi & Hc & Hw) & Hlen & Hle & Hrc).
  exists rc, e', ds', ws.
  split; [reflexivity |]. split; [exact Hi |]. split; [exact Hc |].
  split; [exact Hlen |]. split; [exact Hw |]. split; [exact Hle | exact Hrc].
Qed.

Lemma emit_imm_word_payload (n : Z) (e : emitter) :
  emit_imm_word n e
  = mkEmit (em_IC e + 1)
           (em_image e ++ [mkWord (to_int (em_IC e)) EmptyString (n mod 256) ARE_ABS]).
Proof.
  unfold emit_imm_word, put_word. rewrite !land_255. unfold to_unsigned.
  f_equal. f_equal. f_equal. f_equal.
  rewrite !Z.mod_mod by lia.
  assert (E : n mod 2 ^ 32 = n + (- (n / 2 ^ 32) * 16777216) * 256).
  { pose proof (Z.div_mod n (2 ^ 32)). lia. }
  rewrite E. apply Z.mod_add. lia.
Qed.

(** An immediate literal is accepted as source and as destination
    operand: one absolute word whose payload is the value modulo 256
    (the two's complement byte), and no diagnostic. *)
Theorem immediate_literal_encoded (tok : string) (n : Z) (symtab : table) (e : emitter)
        (ds : diags) :
  imm_literal tok n ->
  let w := mkWord (to_int (em_IC e)) EmptyString (n mod 256) ARE_ABS in
  encode_source ADDR_IMMEDIATE (Some tok) symtab e ds
  = (true, mkEmit (em_IC e + 1) (em_image e ++ [w]), ds)
  /\ encode_destination ADDR_IMMEDIATE (Some tok) symtab e ds
     = (true, mkEmit (em_IC e + 1) (em_image e ++ [w]), ds)
  /\ get_addr_method (Some tok) = ADDR_IMMEDIATE.
Proof.
  intros H w. pose proof H as Hp. apply parse_imm8_literal in Hp.
  cbn [encode_source encode_destination tok_text]. rewrite Hp, emit_imm_word_payload.
  split; [reflexivity |]. split; [reflexivity |].
  destruct H as (ws & sgn & digits & trail & -> & _).
  reflexivity.
Qed.

Lemma immediate_literal_encoded_witness :
  let w := mkWord (to_int (em_IC (mkEmit 101 []))) EmptyString (-3 mod 256) ARE_ABS in
  encode_source ADDR_IMMEDIATE (Some "#-3") [] (mkEmit 101 []) diags_zero
  = (true, mkEmit (em_IC (mkEmit 101 []) + 1) (em_image (mkEmit 101 []) ++ [w]), diags_zero)
  /\ encode_destination ADDR_IMMEDIATE (Some "#-3") [] (mkEmit 101 []) diags_zero
     = (true, mkEmit (em_IC (mkEmit 101 []) + 1) (em_image (mkEmit 101 []) ++ [w]), diags_zero)
  /\ get_addr_method (Some "#-3") = ADDR_IMMEDIATE.
Proof.
  apply (immediate_literal_encoded "#-3" (-3) [] (mkEmit 101 []) diags_zero).
  exists EmptyString, "-", "3", EmptyString.
  repeat split; try reflexivity; try (now right; right); try discriminate; unfold IMM8_MIN, IMM8_MAX; cbn; lia.
Defined.

(** ** Data directives *)

Lemma before_char_absent (s : string) (c : ascii) :
  none_chars (fun a => Ascii.eqb a c) s = true -> before_char s c = s.
Proof.
  unfold none_chars. induction s as [| a s IH]; [reflexivity |].
  cbn [all_chars before_char]. intro H. apply andb_prop in H. destruct H as [Ha Hs].
  destruct (Ascii.eqb a c); [discriminate |]. now rewrite IH.
Qed.

Lemma before_char_app (s t : string) (c : ascii) :
  none_chars (fun a => Ascii.eqb a c) s = true ->
  before_char (s +++ t) c = s +++ before_char t c.
Proof.
  unfold none_chars. induction s as [| a s IH]; [reflexivity |].
  cbn [all_chars before_char String.append]. intro H. apply andb_prop in H.
  destruct H as [Ha Hs]. destruct (Ascii.eqb a c); [discriminate |]. now rewrite IH.
Qed.

Lemma none_chars_app (f : ascii -> bool) (s t : string) :
  none_chars f (s +++ t) = none_chars f s && none_chars f t.
Proof.
  unfold none_chars. induction s as [| a s IH]; [reflexivity |].
  cbn [all_chars String.append]. now rewrite IH, andb_assoc.
Qed.

Lemma all_chars_weaken (f g : ascii -> bool) (s : string) :
  (forall c, f c = true -> g c = true) -> all_chars f s = true -> all_chars g s = true.
Proof.
  intro H. induction s as [| a s IH]; [reflexivity |].
  cbn [all_chars]. intro E. apply andb_prop in E. destruct E as [Ea Es].
  now rewrite (H a Ea), IH.
Qed.

Lemma push_all_app (vs ws : list Z) (IC : Z) (s : data_state) :
  push_all (vs ++ ws) IC s = push_all ws IC (push_all vs IC s).
Proof. unfold push_all. apply fold_left_app. Qed.

Lemma push_all_spec (vs : list Z) (IC : Z) :
  forall s,
    ds_DC (push_all vs IC s) = ds_DC s + Z.of_nat (List.length vs)
    /\ map d_value (ds_image (push_all vs IC s))
       = map d_value (ds_image s) ++ map (fun v => to_ushort (to_int v)) vs.
Proof.
  induction vs as [| v vs IH]; intro s.
  - cbn. split; [lia | now rewrite app_nil_r].
  - change (push_all (v :: vs) IC s) with (push_all vs IC (push_data v IC s)).
    destruct (IH (push_data v IC s)) as [-> ->].
    cbn [push_data ds_DC ds_image List.length map]. split; [lia |].
    rewrite map_app, <- app_assoc. reflexivity.
Qed.

Lemma small_value_kept (v : Z) : 0 <= v < 2 ^ 16 -> to_ushort (to_int v) = v.
Proof.
  intro H. unfold to_ushort, to_int. rewrite (Z.mod_small (v + 2 ^ 31)) by lia.
  rewrite Z.mod_small; lia.
Qed.

Lemma char_codes_length (s : string) : List.length (char_codes s) = String.length s.
Proof. induction s as [| c r IH]; [reflexivity |]. cbn. now rewrite IH. Qed.

Lemma char_codes_bytes (s : string) : Forall (fun v => 0 <= v < 256) (char_codes s).
Proof.
  induction s as [| c r IH]; [constructor |].
  cbn [char_codes]. constructor; [| exact IH].
  unfold char_code. pose proof (nat_ascii_bounded c). lia.
Qed.

Lemma string_loop_content (content tail : string) (IC : Z) :
  none_chars (fun c => Ascii.eqb c DQUOTE) content = true ->
  forall s,
    string_loop (content +++ String DQUOTE tail) IC s
    = (String DQUOTE tail, push_all (char_codes content) IC s).
Proof.
  unfold none_chars. induction content as [| c r IH]; intros H s.
  - cbn [String.append string_loop]. rewrite Ascii.eqb_refl. reflexivity.
  - cbn [all_chars] in H. apply andb_prop in H. destruct H as [Hc Hr].
    cbn [String.append string_loop char_codes].
    destruct (Ascii.eqb c DQUOTE); [discriminate |].
    rewrite (IH Hr). reflexivity.
Qed.

Lemma prefix_append (p x : string) : prefix p (p +++ x) = true.
Proof.
  induction p as [| a p IH]; cbn [String.append prefix]; [now destruct x |].
  destruct (ascii_dec a a) as [_ | N]; [exact IH | contradiction].
Qed.

Lemma strstr_prefix (p x : string) : strstr (p +++ x) p = Some (p +++ x).
Proof.
  pose proof (prefix_append p x) as H.
  destruct (p +++ x) as [| c r]; cbn [strstr]; now rewrite H.
Qed.

Lemma blank_no_semicolon (ws : string) :
  all_chars isspace ws = true -> none_chars (fun a => Ascii.eqb a COMMENT_CHAR) ws = true.
Proof.
  apply all_chars_weaken. intros c H.
  destruct (Ascii.eqb_spec c COMMENT_CHAR) as [-> | _]; [discriminate | reflexivity].
Qed.

(** [.string]: with only blanks between the keyword and the opening
    quote, and a content free of quotes and semicolons, the directive
    emits the character codes of the content followed by a 0 word and
    reports nothing; whatever follows the closing quote is ignored. *)
Theorem string_directive_words (ws content tail : string) (IC : Z) (s : data_state)
        (ds : diags) :
  all_chars isspace ws = true ->
  none_chars (fun c => Ascii.eqb c DQUOTE || Ascii.eqb c COMMENT_CHAR) content = true ->
  let line := ".string" +++ ws +++ String DQUOTE (content +++ String DQUOTE tail) in
  let s' := push_all (char_codes content ++ [0]) IC s in
  process_string_directive_at line IC s ds = (0, s', ds)
  /\ ds_DC s' = ds_DC s + slen content + 1
  /\ map d_value (ds_image s') = map d_value (ds_image s) ++ char_codes content ++ [0].
Proof.
  intros Hws Hc line s'.
  assert (Hq : none_chars (fun c => Ascii.eqb c DQUOTE) content = true).
  { revert Hc. apply all_chars_weaken. intros c H. now destruct (Ascii.eqb c DQUOTE). }
  assert (Hs : none_chars (fun c => Ascii.eqb c COMMENT_CHAR) content = true).
  { revert Hc. apply all_chars_weaken. intros c H.
    destruct (Ascii.eqb c COMMENT_CHAR); [| reflexivity]. now rewrite orb_true_r in H. }
  split; [| split].
  - unfold process_string_directive_at, strip_inline_comment, line.
    change (".string" +++ ws +++ String DQUOTE (content +++ String DQUOTE tail))
      with (".string" +++ (ws +++ String DQUOTE (content +++ String DQUOTE tail))).
    rewrite (before_char_app ".string") by reflexivity.
    rewrite (before_char_app ws) by (now apply blank_no_semicolon).
    change (before_char (String DQUOTE (content +++ String DQUOTE tail)) COMMENT_CHAR)
      with (String DQUOTE (before_char (content +++ String DQUOTE tail) COMMENT_CHAR)).
    rewrite (before_char_app content) by exact Hs.
    change (before_char (String DQUOTE tail) COMMENT_CHAR)
      with (String DQUOTE (before_char tail COMMENT_CHAR)).
    set (tail' := before_char tail COMMENT_CHAR).
    rewrite strstr_prefix.
    match goal with
    | |- context [advance 7 (".string" +++ ?x)] => change (advance 7 (".string" +++ x)) with x
    end.
    rewrite skip_ws_blank by exact Hws.
    assert (Eq : skip_ws (String DQUOTE (content +++ String DQUOTE tail'))
                 = String DQUOTE (content +++ String DQUOTE tail')) by reflexivity.
    rewrite Eq. cbn [starts_with advance negb]. rewrite Ascii.eqb_refl. cbn [negb].
    rewrite (string_loop_content content tail' IC Hq).
    cbn [starts_with]. rewrite Ascii.eqb_refl. cbn [negb].
    unfold s'. rewrite push_all_app. reflexivity.
  - unfold s'. destruct (push_all_spec (char_codes content ++ [0]) IC s) as [-> _].
    rewrite length_app, char_codes_length. cbn [List.length]. unfold slen. lia.
  - unfold s'. destruct (push_all_spec (char_codes content ++ [0]) IC s) as [_ ->].
    f_equal. rewrite map_app. cbn [map]. f_equal.
    pose proof (char_codes_bytes content) as Hb.
    induction Hb as [| v vs Hv Hr IH]; [reflexivity |].
    cbn [map]. rewrite small_value_kept by lia. now rewrite IH.
Qed.

Lemma string_directive_words_witness :
  let line := ".string" +++ " " +++ String DQUOTE ("ab" +++ String DQUOTE " x") in
  let s' := push_all (char_codes "ab" ++ [0]) 100 (mkDS 0 []) in
  process_string_directive_at line 100 (mkDS 0 []) diags_zero = (0, s', diags_zero)
  /\ ds_DC s' = ds_DC (mkDS 0 []) + slen "ab" + 1
  /\ map d_value (ds_image s') = map d_value (ds_image (mkDS 0 [])) ++ char_codes "ab" ++ [0].
Proof.
  apply (string_directive_words " " "ab" " x" 100 (mkDS 0 []) diags_zero); reflexivity.
Defined.

(** ** Lists of literals *)

Lemma length_append (a b : string) :
  String.length (a +++ b) = (String.length a + String.length b)%nat.
Proof. induction a as [| c a IH]; [reflexivity |]. cbn. now rewrite IH. Qed.

(** The text of a literal followed by [rest], after the leading
    blanks: it starts with the sign or a digit. *)
Lemma literal_head (l : literal) (rest : string) :
  literal_ok l ->
  skip_ws (literal_text l +++ rest) = lit_sign l +++ lit_digits l +++ lit_post l +++ rest
  /\ is_empty (lit_sign l +++ lit_digits l +++ lit_post l +++ rest) = false
  /\ starts_with (lit_sign l +++ lit_digits l +++ lit_post l +++ rest) "," = false.
Proof.
  intros (Hpre & Hsgn & Hne & Hd & Hpost & Hv). unfold literal_text.
  rewrite !app_assoc_s. rewrite skip_ws_blank by exact Hpre.
  destruct (lit_digits l) as [| d ds] eqn:Ed; [contradiction |].
  cbn [all_chars] in Hd. apply andb_prop in Hd. destruct Hd as [Hd0 _].
  pose proof (isdigit_not_space d Hd0) as Hsp.
  assert (Hcomma : Ascii.eqb d "," = false).
  { apply Ascii.eqb_neq. intros ->. discriminate. }
  destruct Hsgn as [-> | [-> | ->]]; cbn [String.append skip_ws is_empty starts_with].
  - rewrite Hsp. auto.
  - auto.
  - auto.
Qed.

Lemma literal_strtol (l : literal) (rest : string) :
  literal_ok l ->
  (match rest with String c _ => isdigit c = false | EmptyString => True end) ->
  strtol (lit_sign l +++ lit_digits l +++ lit_post l +++ rest)
  = Some (literal_value l, lit_post l +++ rest)
  /\ in_data_range (literal_value l) = true.
Proof.
  intros (Hpre & Hsgn & Hne & Hd & Hpost & Hv) Hrest.
  pose proof (strtol_literal EmptyString (lit_sign l) (lit_digits l) (lit_post l +++ rest)
                             eq_refl Hsgn Hne Hd) as H.
  cbn [String.append] in H. rewrite H.
  - unfold literal_value in *. unfold DATA_MIN, DATA_MAX in Hv.
    rewrite clamp_long_small by (unfold LONG_MIN, LONG_MAX; lia).
    split; [reflexivity |]. unfold in_data_range, DATA_MIN, DATA_MAX.
    apply andb_true_intro. split; apply Z.leb_le; lia.
  - destruct (lit_post l) as [| c t] eqn:Ep; cbn [String.append]; [exact Hrest |].
    cbn [all_chars] in Hpost. apply andb_prop in Hpost. destruct Hpost as [Hc _].
    now apply isspace_not_digit.
Qed.

Lemma literal_text_length (l : literal) :
  literal_ok l -> (1 <= String.length (literal_text l))%nat.
Proof.
  intros (_ & _ & Hne & _). unfold literal_text. rewrite !length_append.
  destruct (lit_digits l); [contradiction | cbn; lia].
Qed.

Lemma data_loop_list (IC : Z) (ds : diags) (ls : list literal) :
  Forall literal_ok ls ->
  ls <> [] ->
  forall fuel last_comma s,
    (String.length (list_text ls) < fuel)%nat ->
    data_loop fuel (list_text ls) true last_comma IC s ds
    = (0, push_all (map literal_value ls) IC s, ds).
Proof.
  induction ls as [| l rest IH]; intros Hok Hne fuel lc s Hfuel; [contradiction |].
  inversion Hok as [| ? ? Hl Hrest]; subst.
  pose proof (literal_text_length l Hl) as Hlen.
  destruct rest as [| l2 rest].
  - cbn [list_text map] in *.
    destruct (literal_head l EmptyString Hl) as (Hs & He & Hc).
    destruct (literal_strtol l EmptyString Hl I) as (Ht & Hr).
    rewrite length_append in Hfuel.
    destruct fuel as [| [| k]]; try lia.
    cbn [data_loop]. rewrite Hs, He, Hc, Ht, Hr. cbn [negb].
    rewrite app_empty_r.
    assert (Hb : skip_ws (lit_post l) = EmptyString).
    { apply skip_ws_all_blank. now destruct Hl as (_ & _ & _ & _ & Hp & _). }
    rewrite Hb. cbn [is_empty andb]. reflexivity.
  - set (tail := list_text (l2 :: rest)) in *.
    assert (Et : list_text (l :: l2 :: rest)
                 = literal_text l +++ String OPERAND_DELIMITER tail) by reflexivity.
    rewrite Et in *. clear Et.
    destruct (literal_head l (String OPERAND_DELIMITER tail) Hl) as (Hs & He & Hc).
    destruct (literal_strtol l (String OPERAND_DELIMITER tail) Hl eq_refl) as (Ht & Hr).
    rewrite length_append in Hfuel. cbn [String.length] in Hfuel.
    destruct fuel as [| [| k]]; try lia.
    cbn [data_loop]. rewrite Hs, He, Hc, Ht, Hr. cbn [negb].
    assert (Hb : skip_ws (lit_post l +++ String OPERAND_DELIMITER tail)
                 = String OPERAND_DELIMITER tail).
    { rewrite skip_ws_blank by (now destruct Hl as (_ & _ & _ & _ & Hp & _)). reflexivity. }
    rewrite Hb. cbn [is_empty starts_with negb advance]. rewrite Ascii.eqb_refl. cbn [negb].
    rewrite IH; [reflexivity | exact Hrest | discriminate | lia].
Qed.

Lemma literal_no_semicolon (l : literal) :
  literal_ok l -> none_chars (fun a => Ascii.eqb a COMMENT_CHAR) (literal_text l) = true.
Proof.
  intros (Hpre & Hsgn & Hne & Hd & Hpost & Hv). unfold literal_text.
  rewrite !none_chars_app.
  rewrite (blank_no_semicolon _ Hpre), (blank_no_semicolon _ Hpost).
  assert (Hdig : none_chars (fun a => Ascii.eqb a COMMENT_CHAR) (lit_digits l) = true).
  { revert Hd. apply all_chars_weaken. intros c H.
    destruct (Ascii.eqb_spec c COMMENT_CHAR) as [-> | _]; [discriminate | reflexivity]. }
  rewrite Hdig. destruct Hsgn as [-> | [-> | ->]]; reflexivity.
Qed.

Lemma list_no_semicolon (ls : list literal) :
  Forall literal_ok ls -> none_chars (fun a => Ascii.eqb a COMMENT_CHAR) (list_text ls) = true.
Proof.
  induction 1 as [| l rest Hl Hrest IH]; [reflexivity |].
  cbn [list_text]. rewrite none_chars_app, (literal_no_semicolon l Hl).
  destruct rest; [reflexivity |]. exact IH.
Qed.

(** [.data]: a comma-separated list of well-formed literals in range
    (blanks allowed around each) emits exactly their values, in order,
    and reports nothing; the empty list is accepted and emits
    nothing. *)
Theorem data_directive_words (ls : list literal) (IC : Z) (s : data_state) (ds : diags) :
  Forall literal_ok ls ->
  let s' := push_all (map literal_value ls) IC s in
  process_data_directive_at (".data" +++ list_text ls) IC s ds = (0, s', ds)
  /\ ds_DC s' = ds_DC s + Z.of_nat (List.length ls)
  /\ map d_value (ds_image s')
     = map d_value (ds_image s) ++ map (fun l => literal_value l mod 2 ^ 16) ls.
Proof.
  intros Hok s'. split; [| split].
  - unfold process_data_directive_at, strip_inline_comment.
    rewrite before_char_absent
      by (rewrite none_chars_app, (list_no_semicolon ls Hok); reflexivity).
    rewrite strstr_prefix.
    change (advance 5 (".data" +++ list_text ls)) with (list_text ls).
    destruct ls as [| l rest].
    + reflexivity.
    + apply data_loop_list; [exact Hok | discriminate | lia].
  - unfold s'. destruct (push_all_spec (map literal_value ls) IC s) as [-> _].
    now rewrite length_map.
  - unfold s'. destruct (push_all_spec (map literal_value ls) IC s) as [_ ->].
    f_equal. rewrite map_map.
    induction Hok as [| l rest Hl Hrest IH]; [reflexivity |].
    cbn [map]. rewrite IH. f_equal.
    destruct Hl as (_ & _ & _ & _ & _ & Hv). unfold DATA_MIN, DATA_MAX in Hv.
    unfold to_ushort. f_equal. apply to_int_small. lia.
Qed.

Lemma data_directive_words_witness :
  let ls := [mkLit " " "" "7" ""; mkLit " " "-" "5" " "; mkLit "" "+" "12" ""] in
  let s' := push_all (map literal_value ls) 100 (mkDS 0 []) in
  process_data_directive_at (".data" +++ list_text ls) 100 (mkDS 0 []) diags_zero
  = (0, s', diags_zero)
  /\ ds_DC s' = ds_DC (mkDS 0 []) + Z.of_nat (List.length ls)
  /\ map d_value (ds_image s')
     = map d_value (ds_image (mkDS 0 [])) ++ map (fun l => literal_value l mod 2 ^ 16) ls.
Proof.
  apply (data_directive_words
           [mkLit " " "" "7" ""; mkLit " " "-" "5" " "; mkLit "" "+" "12" ""]
           100 (mkDS 0 []) diags_zero).
  repeat constructor; try (cbn; auto; fail); try discriminate;
    unfold DATA_MIN, DATA_MAX; cbn; lia.
Defined.

(** ** Matrix definitions *)

Lemma mat_loop_list (IC : Z) (ds : diags) (ls : list literal) :
  Forall literal_ok ls ->
  ls <> [] ->
  forall fuel total produced s,
    (String.length (list_text ls) < fuel)%nat ->
    produced + Z.of_nat (List.length ls) <= total ->
    mat_loop fuel (list_text ls) true total produced IC s ds
    = (0, produced + Z.of_nat (List.length ls), push_all (map literal_value ls) IC s, ds).
Proof.
  induction ls as [| l rest IH]; intros Hok Hne fuel total produced s Hfuel Hcap;
    [contradiction |].
  inversion Hok as [| ? ? Hl Hrest]; subst.
  pose proof (literal_text_length l Hl) as Hlen.
  assert (Hroom : (total <=? produced) = false).
  { apply Z.leb_gt. cbn [List.length] in Hcap. lia. }
  destruct rest as [| l2 rest].
  - cbn [list_text map List.length] in *.
    destruct (literal_head l EmptyString Hl) as (Hs & He & Hc).
    destruct (literal_strtol l EmptyString Hl I) as (Ht & Hr).
    rewrite length_append in Hfuel.
    destruct fuel as [| [| k]]; try lia.
    cbn [mat_loop]. rewrite Hs, He, Hc, Ht, Hr. cbn [negb]. rewrite Hroom.
    rewrite app_empty_r.
    assert (Hb : skip_ws (lit_post l) = EmptyString).
    { apply skip_ws_all_blank. now destruct Hl as (_ & _ & _ & _ & Hp & _). }
    rewrite Hb. cbn [is_empty]. reflexivity.
  - set (tail := list_text (l2 :: rest)) in *.
    assert (Et : list_text (l :: l2 :: rest)
                 = literal_text l +++ String OPERAND_DELIMITER tail) by reflexivity.
    rewrite Et in *. clear Et.
    destruct (literal_head l (String OPERAND_DELIMITER tail) Hl) as (Hs & He & Hc).
    destruct (literal_strtol l (String OPERAND_DELIMITER tail) Hl eq_refl) as (Ht & Hr).
    rewrite length_append in Hfuel. cbn [String.length] in Hfuel.
    destruct fuel as [| [| k]]; try lia.
    cbn [mat_loop]. rewrite Hs, He, Hc, Ht, Hr. cbn [negb]. rewrite Hroom.
    assert (Hb : skip_ws (lit_post l +++ String OPERAND_DELIMITER tail)
                 = String OPERAND_DELIMITER tail).
    { rewrite skip_ws_blank by (now destruct Hl as (_ & _ & _ & _ & Hp & _)). reflexivity. }
    rewrite Hb. cbn [is_empty starts_with advance]. rewrite Ascii.eqb_refl.
    assert (Hlook : is_empty (skip_ws tail) = false).
    { inversion Hrest as [| ? ? Hl2 _]; subst. unfold tail.
      set (X := match rest with
                | [] => EmptyString
                | _ :: _ => String OPERAND_DELIMITER (list_text rest)
                end).
      change (list_text (l2 :: rest)) with (literal_text l2 +++ X).
      destruct (literal_head l2 X Hl2) as (E1 & E2 & _). now rewrite E1. }
    rewrite Hlook.
    rewrite IH; [| exact Hrest | discriminate | lia | cbn [List.length] in *; lia].
    cbn [List.length map]. f_equal. f_equal. f_equal. lia.
Qed.

Lemma mat_fill_zeros (n : nat) (IC : Z) :
  forall s, mat_fill n IC s = push_all (repeat 0 n) IC s.
Proof. induction n as [| k IH]; intro s; [reflexivity |]. cbn [mat_fill repeat]. apply IH. Qed.

Lemma bracketed_literal (digits rest : string) :
  digits <> EmptyString ->
  all_chars isdigit digits = true ->
  0 < decimal_value digits < 2 ^ 31 ->
  parse_bracketed_pos_int (String "[" (digits +++ String "]" rest))
  = Some (rest, decimal_value digits).
Proof.
  intros Hne Hd Hv. unfold parse_bracketed_pos_int.
  change (skip_ws (String "[" ?x)) with (String "[" x).
  cbn [starts_with negb advance]. rewrite Ascii.eqb_refl. cbn [negb].
  assert (Hs : skip_ws (digits +++ String "]" rest) = digits +++ String "]" rest).
  { destruct digits as [| d t]; [contradiction |].
    cbn [all_chars] in Hd. apply andb_prop in Hd. destruct Hd as [Hd0 _].
    cbn [String.append]. apply skip_ws_fixed. now apply isdigit_not_space. }
  rewrite Hs.
  pose proof (strtol_literal EmptyString EmptyString digits (String "]" rest)
                             eq_refl (or_introl eq_refl) Hne Hd eq_refl) as H.
  cbn [String.append String.eqb] in H. rewrite H.
  rewrite clamp_long_small by (unfold LONG_MIN, LONG_MAX; lia).
  destruct (Z.leb_spec (decimal_value digits) 0); [lia |].
  change (skip_ws (String "]" rest)) with (String "]" rest).
  cbn [starts_with negb advance]. rewrite Ascii.eqb_refl. cbn [negb].
  rewrite to_int_small by lia. reflexivity.
Qed.

(** [.mat]: with dimensions written as plain positive numbers whose
    product is at most 100, and a list of at most that many
    well-formed literals in range, the directive emits the listed
    values followed by zeros up to [rows * cols] words and reports
    nothing. *)
Theorem matrix_directive_words (ws rd cd : string) (ls : list literal) (IC : Z)
        (s : data_state) (ds : diags) :
  all_chars isspace ws = true ->
  rd <> EmptyString -> all_chars isdigit rd = true ->
  cd <> EmptyString -> all_chars isdigit cd = true ->
  0 < decimal_value rd -> 0 < decimal_value cd ->
  decimal_value rd * decimal_value cd <= 100 ->
  Forall literal_ok ls ->
  Z.of_nat (List.length ls) <= decimal_value rd * decimal_value cd ->
  let cells := Z.to_nat (decimal_value rd * decimal_value cd) in
  let s' := push_all (map literal_value ls ++ repeat 0 (cells - List.length ls)) IC s in
  process_matrix_directive_at
    (".mat" +++ ws +++ String "[" (rd +++ String "]" (String "[" (cd +++ String "]" (list_text ls)))))
    IC s ds
  = (0, s', ds)
  /\ ds_DC s' = ds_DC s + decimal_value rd * decimal_value cd.
Proof.
  intros Hws Hrn Hrd Hcn Hcd Hr Hc Hcap Hok Hlen cells s'.
  set (rows := decimal_value rd) in *. set (cols := decimal_value cd) in *.
  assert (Hrows : rows <= 100) by nia. assert (Hcols : cols <= 100) by nia.
  split.
  - unfold process_matrix_directive_at, strip_inline_comment.
    assert (Hsemi : none_chars (fun a => Ascii.eqb a COMMENT_CHAR)
                      (".mat" +++ ws +++ String "[" (rd +++ String "]"
                         (String "[" (cd +++ String "]" (list_text ls))))) = true).
    { assert (Hdig : forall d, all_chars isdigit d = true ->
                               none_chars (fun a => Ascii.eqb a COMMENT_CHAR) d = true).
      { intro d. apply all_chars_weaken. intros c H.
        destruct (Ascii.eqb_spec c COMMENT_CHAR) as [-> | _]; [discriminate | reflexivity]. }
      change (".mat" +++ ?x) with (".mat" +++ x).
      rewrite (none_chars_app _ ".mat"), (none_chars_app _ ws), (blank_no_semicolon ws Hws).
      change (String "[" (rd +++ ?x)) with ("[" +++ rd +++ x).
      rewrite (none_chars_app _ "["), (none_chars_app _ rd), (Hdig rd Hrd).
      change (String "]" (String "[" (cd +++ ?x))) with ("][" +++ cd +++ x).
      rewrite (none_chars_app _ "]["), (none_chars_app _ cd), (Hdig cd Hcd).
      change (String "]" (list_text ls)) with ("]" +++ list_text ls).
      rewrite (none_chars_app _ "]"), (list_no_semicolon ls Hok). reflexivity. }
    rewrite before_char_absent by exact Hsemi.
    rewrite strstr_prefix.
    match goal with
    | |- context [advance 4 (".mat" +++ ?x)] => change (advance 4 (".mat" +++ x)) with x
    end.
    rewrite skip_ws_blank by exact Hws.
    change (skip_ws (String "[" ?x)) with (String "[" x).
    rewrite bracketed_literal by (try assumption; fold rows; lia).
    rewrite bracketed_literal by (try assumption; fold cols; lia).
    fold rows cols.
    assert (Hq : (Z.quot LONG_MAX_L cols <? rows) = false).
    { apply Z.ltb_ge. unfold LONG_MAX_L. rewrite Z.quot_div_nonneg by lia.
      apply Z.div_le_lower_bound; lia. }
    rewrite Hq, andb_false_r.
    destruct ls as [| l rest].
    + cbn [list_text skip_ws String.length mat_loop is_empty].
      change (negb (0 =? 0)) with false. cbv iota.
      rewrite mat_fill_zeros. unfold s', cells. cbn [map List.length app].
      rewrite Z.sub_0_r, Nat.sub_0_r. reflexivity.
    + inversion Hok as [| ? ? Hl Hrest']; subst.
      assert (Hskip : exists pre, all_chars isspace pre = true
                                  /\ list_text (l :: rest)
                                     = pre +++ skip_ws (list_text (l :: rest))).
      { destruct (skip_ws_split (list_text (l :: rest))) as (pre & E & Hp). eauto. }
      assert (Hloop :
                mat_loop (S (String.length (skip_ws (list_text (l :: rest)))))
                         (skip_ws (list_text (l :: rest))) true (rows * cols) 0 IC s ds
                = (0, 0 + Z.of_nat (List.length (l :: rest)),
                   push_all (map literal_value (l :: rest)) IC s, ds)).
      { set (l0 := mkLit EmptyString (lit_sign l) (lit_digits l) (lit_post l)).
        assert (Hl0 : literal_ok l0).
        { destruct Hl as (A & B & C & D & E & F). repeat split; try assumption; apply F. }
        assert (Etext : skip_ws (list_text (l :: rest)) = list_text (l0 :: rest)).
        { cbn [list_text].
          destruct (literal_head l (match rest with
                                    | [] => EmptyString
                                    | _ :: _ => String OPERAND_DELIMITER (list_text rest)
                                    end) Hl) as (E1 & _).
          rewrite E1. unfold literal_text, l0. cbn [lit_pre lit_sign lit_digits lit_post].
          cbn [String.append]. now rewrite !app_assoc_s. }
        rewrite Etext.
        rewrite (mat_loop_list IC ds (l0 :: rest)); try lia.
        - reflexivity.
        - constructor; assumption.
        - discriminate.
        - cbn [List.length] in *. lia. }
      rewrite Hloop. change (negb (0 =? 0)) with false. cbv iota.
      rewrite mat_fill_zeros, <- push_all_app. unfold s', cells.
      replace (Z.to_nat (rows * cols - (0 + Z.of_nat (List.length (l :: rest)))))
        with (Z.to_nat (rows * cols) - List.length (l :: rest))%nat by lia.
      reflexivity.
  - unfold s'. destruct (push_all_spec (map literal_value ls
                                       ++ repeat 0 (cells - List.length ls)) IC s) as [-> _].
    rewrite length_app, length_map, repeat_length. unfold cells. lia.
Qed.

Lemma matrix_directive_words_witness :
  let ls := [mkLit " " "" "4" ""; mkLit "" "-" "1" ""] in
  let cells := Z.to_nat (decimal_value "2" * decimal_value "2") in
  let s' := push_all (map literal_value ls ++ repeat 0 (cells - List.length ls)) 100
                     (mkDS 0 []) in
  process_matrix_directive_at
    (".mat" +++ " " +++ String "[" ("2" +++ String "]" (String "[" ("2" +++ String "]" (list_text ls)))))
    100 (mkDS 0 []) diags_zero
  = (0, s', diags_zero)
  /\ ds_DC s' = ds_DC (mkDS 0 []) + decimal_value "2" * decimal_value "2".
Proof.
  apply (matrix_directive_words " " "2" "2" [mkLit " " "" "4" ""; mkLit "" "-" "1" ""]
                                100 (mkDS 0 []) diags_zero);
    try reflexivity; try discriminate; try (cbn; lia).
  repeat constructor; try (cbn; auto; fail); try discriminate;
    unfold DATA_MIN, DATA_MAX; cbn; lia.
Defined.

(** ** Symbols and resolution *)

Lemma update_symbol_present (tab : table) (k : string) (v : Z) (t : symbol_type)
      (sym : symbol_table) :
  find_symbol tab k = Some sym ->
  exists tab',
    update_symbol tab k v t = Some tab'
    /\ map key tab' = map key tab
    /\ find_symbol tab' k = Some (mkSym (key sym) v t)
    /\ forall k', k' <> k -> find_symbol tab' k' = find_symbol tab k'.
Proof.
  induction tab as [| c next IH]; cbn [find_symbol update_symbol]; [discriminate |].
  destruct (String.eqb_spec (key c) k) as [E | N].
  - intro H. injection H as <-. eexists. split; [reflexivity |].
    split; [reflexivity |]. split.
    + cbn [find_symbol key]. rewrite E, String.eqb_refl. reflexivity.
    + intros k' Hk. cbn [find_symbol key].
      destruct (String.eqb_spec (key c) k'); [congruence | reflexivity].
  - intro H. destruct (IH H) as (tab' & -> & Hm & Hf & Ho).
    eexists. split; [reflexivity |]. split; [cbn [map]; now rewrite Hm |]. split.
    + cbn [find_symbol]. destruct (String.eqb_spec (key c) k); [contradiction | exact Hf].
    + intros k' Hk. cbn [find_symbol]. destruct (String.eqb (key c) k'); [reflexivity |].
      now apply Ho.
Qed.

(** [add_table_item] then [find_symbol]: the key is found with the new
    value and type, every other key is looked up as before; a known
    key is updated in place (the table keeps its keys), a new one is
    put at the head. *)
Theorem add_table_item_lookup (tab : table) (k : string) (v : Z) (t : symbol_type) :
  (exists sym,
      find_symbol (add_table_item tab k v t) k = Some sym
      /\ key sym = k /\ sym_value sym = v /\ type sym = t)
  /\ (forall k', k' <> k ->
                 find_symbol (add_table_item tab k v t) k' = find_symbol tab k')
  /\ (find_symbol tab k <> None ->
      map key (add_table_item tab k v t) = map key tab)
  /\ (find_symbol tab k = None ->
      add_table_item tab k v t = mkSym k v t :: tab).
Proof.
  unfold add_table_item.
  destruct (find_symbol tab k) as [sym |] eqn:E.
  - destruct (update_symbol_present tab k v t sym E) as (tab' & -> & Hm & Hf & Ho).
    split; [| split; [exact Ho | split; [intros _; exact Hm | discriminate]]].
    eexists. split; [exact Hf |]. cbn. repeat split.
    now destruct (find_symbol_In _ _ _ E).
  - rewrite (update_symbol_absent _ _ v t E).
    split; [| split; [| split; [congruence | reflexivity]]].
    + eexists. cbn [find_symbol key]. rewrite String.eqb_refl. repeat split.
    + intros k' Hk. cbn [find_symbol key].
      destruct (String.eqb_spec k k'); [congruence | reflexivity].
Qed.

Lemma resolve_word_erased (symtab : table) (mw : machine_word) (v : Z)
      (ext_ptr : list extern_list) :
  label mw <> EmptyString ->
  resolve_word (mkWord (address mw) (label mw) v (are mw)) symtab ext_ptr
  = resolve_word mw symtab ext_ptr.
Proof.
  intro H. unfold resolve_word. cbn [label address are].
  destruct (String.eqb_spec (label mw) EmptyString); [contradiction | reflexivity].
Qed.

(** The second pass does not depend on the payload the first pass
    left in a labelled word: resolving the image gives the same words
    and the same usage chains whatever those payloads were.  Words
    without a label are left as they are. *)
Theorem resolution_ignores_first_pass_payload
        (symtab : table) (head : list machine_word) (payload : machine_word -> Z)
        (ext_ptr : list extern_list) :
  let erase := fun mw =>
                 if String.eqb (label mw) EmptyString then mw
                 else mkWord (address mw) (label mw) (payload mw) (are mw) in
  resolve_labels_in_place (map erase head) symtab ext_ptr
  = resolve_labels_in_place head symtab ext_ptr
  /\ forall i mw,
      nth_error head i = Some mw ->
      label mw = EmptyString ->
      nth_error (fst (resolve_labels_in_place head symtab ext_ptr)) i = Some mw.
Proof.
  intro erase. split.
  - revert ext_ptr. induction head as [| mw next IH]; intro ext_ptr; [reflexivity |].
    cbn [map resolve_labels_in_place].
    assert (E : resolve_word (erase mw) symtab ext_ptr = resolve_word mw symtab ext_ptr).
    { unfold erase. destruct (String.eqb_spec (label mw) EmptyString) as [| N];
        [reflexivity | now apply resolve_word_erased]. }
    rewrite E. destruct (resolve_word mw symtab ext_ptr) as [mw' ext1].
    now rewrite IH.
  - revert ext_ptr. induction head as [| w next IH]; intros ext_ptr i mw H Hl.
    + destruct i; discriminate.
    + cbn [resolve_labels_in_place].
      destruct (resolve_word w symtab ext_ptr) as [w' ext1] eqn:Ew.
      specialize (IH ext1).
      destruct (resolve_labels_in_place next symtab ext1) as [next' ext2].
      destruct i as [| i]; cbn [fst nth_error] in *.
      * injection H as ->. unfold resolve_word in Ew. rewrite Hl in Ew.
        cbn in Ew. now injection Ew as <- _.
      * now apply IH.
Qed.

(** ** Diagnostics across lines and files *)

Lemma dispatch_monotone (cmd : CommandsTable) (pos tokend : string) (st : fp_state) :
  diags_le (diagnostics st) (diagnostics (dispatch_command cmd pos tokend st))
  /\ (had_error st = true -> had_error (dispatch_command cmd pos tokend st) = true).
Proof.
  unfold dispatch_command.
  destruct (is_instruction cmd).
  - pose proof (process_commands_words_outcome cmd pos (mkEmit (IC st) (ic_image st))
                                               (symtab st) (diagnostics st)) as Ho.
    destruct (process_commands_words _ _ _ _ _) as [[rc e] ds1].
    destruct Ho as (ws & _ & _ & Hle & _).
    destruct (check_sum_limit_spec (em_IC e) (DC st) ds1) as [[_ ->] | [_ ->]];
      cbn [diagnostics had_error].
    + split; [exact Hle | now change (1 =? 0) with false].
    + split; [eapply diags_le_trans; [exact Hle | apply diags_le_first_pass] |].
      now change (0 =? 0) with true.
  - destruct (is_data_directive cmd).
    + pose proof (process_data_string_mat_outcome (IC st) cmd pos
                    (mkDS (DC st) (data_img st)) (diagnostics st)) as Ho.
      destruct (process_data_string_mat _ _ _ _ _) as [[rc s] ds1].
      destruct Ho as (ws & _ & Hle & _).
      destruct (check_sum_limit_spec (IC st) (ds_DC s) ds1) as [[_ ->] | [_ ->]];
        cbn [diagnostics had_error].
      * split; [exact Hle |]. change (1 =? 0) with false. cbv iota.
        intros ->. now destruct (negb (rc =? 0)).
      * split; [eapply diags_le_trans; [exact Hle | apply diags_le_first_pass] |].
        now change (0 =? 0) with true.
    + destruct cmd; try (split; [apply diags_le_refl | auto]).
      * pose proof (handle_directive_argument_spec true (skip_ws tokend) (ent_list st)
                                                   (ext_list st) (diagnostics st)) as H.
        destruct (handle_directive_argument _ _ _ _ _) as [[[rc ents] exts] ds1].
        destruct H as [Hle _]. cbn [diagnostics had_error]. split; [exact Hle | auto].
      * pose proof (handle_directive_argument_spec false (skip_ws tokend) (ent_list st)
                                                   (ext_list st) (diagnostics st)) as H.
        destruct (handle_directive_argument _ _ _ _ _) as [[[rc ents] exts] ds1].
        destruct H as [Hle _]. cbn [diagnostics had_error]. split; [exact Hle | auto].
Qed.

Lemma line_monotone (st : fp_state) (line : string) :
  diags_le (diagnostics st) (diagnostics (first_pass_line st line))
  /\ (had_error st = true -> had_error (first_pass_line st line) = true).
Proof.
  destruct (first_pass_line_cases st line)
    as [(st' & P & ->) | (st4 & cmd & pos & te & P & _ & ->)].
  - destruct P as (_ & _ & _ & _ & _ & _ & H7 & H8 & _). split; assumption.
  - destruct P as (_ & _ & _ & _ & _ & _ & H7 & H8 & _).
    destruct (dispatch_monotone cmd pos te st4) as [D1 D2].
    split; [eapply diags_le_trans; eauto | auto].
Qed.

Lemma fold_monotone (lines : list string) :
  forall st,
    diags_le (diagnostics st) (diagnostics (fold_left first_pass_line lines st))
    /\ (had_error st = true -> had_error (fold_left first_pass_line lines st) = true).
Proof.
  induction lines as [| l ls IH]; intro st; cbn [fold_left].
  - split; [apply diags_le_refl | auto].
  - destruct (line_monotone st l) as [A B]. destruct (IH (first_pass_line st l)) as [C D].
    split; [eapply diags_le_trans; eauto | auto].
Qed.

(** The reading loop of the first pass never clears a diagnostic:
    whatever the lines, each sink afterwards holds its earlier reports
    followed by new ones, its counter advanced by their number, and an
    error flag that was raised stays raised. *)
Theorem diagnostics_accumulate (lines : list string) (st : fp_state) :
  let st' := fold_left first_pass_line lines st in
  diags_le (diagnostics st) (diagnostics st')
  /\ error_count (g_first_pass (diagnostics st))
     <= error_count (g_first_pass (diagnostics st'))
  /\ (forall c, In c (reported (g_first_pass (diagnostics st))) ->
                In c (reported (g_first_pass (diagnostics st'))))
  /\ (had_error st = true -> had_error st' = true).
Proof.
  cbn zeta. destruct (fold_monotone lines st) as [A B].
  split; [exact A |]. destruct A as (A1 & _).
  split; [now apply sink_le_count |]. split; [| exact B].
  intros c. now apply sink_le_In.
Qed.

(** An error left in the sink of [first_pass.c] by an earlier file
    makes [first_pass] fail for every later file: it returns 1 and
    runs no second pass, whatever the file holds. *)
Lemma first_pass_sticky (fopen_w : string -> bool) (stem : string)
        (source_file : option (list string)) (init : fp_state) :
  0 < error_count (g_first_pass (diagnostics init)) ->
  let r := first_pass fopen_w stem source_file init in
  p1_rc r = 1
  /\ p1_second r = None
  /\ ob_output r = None
  /\ 0 < error_count (g_first_pass (diagnostics (p1_state r))).
Proof.
  intros H r. unfold r, ob_output, first_pass.
  destruct source_file as [lines |].
  - set (st0 := mkFP [] _ _ _ _ _ _ _ _).
    destruct (fold_monotone lines st0) as [(A & _) _].
    apply sink_le_count in A. change (diagnostics st0) with (diagnostics init) in A.
    assert (Hc : clean (fold_left first_pass_line lines st0) = false).
    { unfold clean. destruct (Z.eqb_spec (error_count (g_first_pass
         (diagnostics (fold_left first_pass_line lines st0)))) 0); [lia | reflexivity]. }
    rewrite Hc. cbn. repeat split. lia.
  - cbn. repeat split. lia.
Qed.

(** ** The macro preprocessor *)

Section Preprocessor.

Lemma sink_le_lt (d : diag) (c : string) : error_count d < error_count (diag_error d c).
Proof. cbn. lia. Qed.

Lemma sink_le_step (a b : diag) (c : string) : sink_le a b -> sink_le a (diag_error b c).
Proof. intro H. eapply sink_le_trans; [exact H | apply sink_le_error]. Qed.

Lemma sink_lt_step (a b : diag) (c : string) :
  sink_le a b -> error_count a < error_count (diag_error b c).
Proof. intro H. apply sink_le_count in H. cbn. lia. Qed.

(** Every iteration is one of the steps, on the trimmed line. *)
Lemma process_macros_line_step (st : mc_state) (line : string) (at_eof : bool) :
  macro_step st (trim_inplace line) (process_macros_line st (line, at_eof)).
Proof.
  unfold process_macros_line.
  change (rtrim (ltrim line)) with (trim_inplace line).
  set (p := trim_inplace line).
  set (d1 := if MAX_SOURCE_LINES <? line_no st + 1 then _ else _).
  assert (H1 : sink_le (g_macros st) d1).
  { subst d1. destruct (_ <? _); [apply sink_le_error | apply sink_le_refl]. }
  set (d2 := if match strchr line NL with None => negb at_eof | Some _ => false end
             then _ else _).
  assert (H2 : sink_le (g_macros st) d2).
  { subst d2. destruct (match strchr line NL with None => _ | Some _ => _ end);
      [now apply sink_le_step | exact H1]. }
  clearbody d2. clear H1 d1.
  destruct (cur st) as [c |] eqn:Ec.
  - destruct (String.eqb (first_token p) "mcroend").
    + apply step_end; [congruence |].
      destruct (negb _); [now apply sink_le_step | exact H2].
    + now apply step_body.
  - destruct (prefix "mcro" p && _ && _).
    { apply step_report; [now apply sink_le_step | now apply sink_lt_step]. }
    destruct (String.eqb (first_token p) "mcro").
    + destruct (get_macro_name p) as [nm |] eqn:En;
        [| apply step_report; [now apply sink_le_step | now apply sink_lt_step]].
      destruct (is_empty nm) eqn:Ee;
        [apply step_report; [now apply sink_le_step | now apply sink_lt_step] |].
      destruct (Z.ltb_spec MACRO_NAME_MAX (slen nm));
        [apply step_report; [now apply sink_le_step | now apply sink_lt_step] |].
      destruct (is_valid_macro_name nm) eqn:Ev; cbn [negb];
        [| apply step_report; [now apply sink_le_step | now apply sink_lt_step]].
      destruct (is_reserved_mnemonic nm) eqn:Er; cbn [orb];
        [apply step_report; [now apply sink_le_step | now apply sink_lt_step] |].
      destruct (is_register_name nm) eqn:Eg; cbn [orb];
        [apply step_report; [now apply sink_le_step | now apply sink_lt_step] |].
      destruct (String.eqb_spec nm "mcro"); cbn [orb];
        [apply step_report; [now apply sink_le_step | now apply sink_lt_step] |].
      destruct (String.eqb_spec nm "mcroend"); cbn [orb];
        [apply step_report; [now apply sink_le_step | now apply sink_lt_step] |].
      destruct (find_macro (tbl st) nm) eqn:Ef;
        [apply step_report; [now apply sink_le_step | now apply sink_lt_step] |].
      apply (step_define st p nm); try assumption; try reflexivity.
      now apply is_empty_false.
    + destruct (is_empty (first_token p)).
      * now apply step_copy.
      * destruct (find_macro (tbl st) (first_token p)) as [m |] eqn:Ef.
        -- now apply (step_expand st p m).
        -- now apply step_copy.
Qed.

Lemma find_macro_absent (t : MacroTable) (nm : string) :
  find_macro t nm = None -> ~ In nm (map macro_name t).
Proof.
  induction t as [| m r IH]; cbn [find_macro map]; [tauto |].
  destruct (String.eqb_spec (macro_name m) nm); [discriminate |].
  intros H [E | Hin]; [contradiction | now apply IH].
Qed.

Lemma find_macro_In (t : MacroTable) (nm : string) (m : Macro) :
  find_macro t nm = Some m -> In m t /\ macro_name m = nm.
Proof.
  induction t as [| x r IH]; cbn [find_macro]; [discriminate |].
  destruct (String.eqb_spec (macro_name x) nm) as [E | N].
  - intro H. injection H as <-. split; [now left | exact E].
  - intro H. destruct (IH H). split; [now right | assumption].
Qed.

Lemma append_macro_line_names (t : MacroTable) (c : nat) (p : string) :
  map macro_name (append_macro_line t c p) = map macro_name t.
Proof.
  revert c. induction t as [| m r IH]; intros [| c]; cbn [append_macro_line map]; try reflexivity.
  now rewrite IH.
Qed.

Lemma append_macro_line_length (t : MacroTable) (c : nat) (p : string) :
  List.length (append_macro_line t c p) = List.length t.
Proof.
  rewrite <- (length_map macro_name), append_macro_line_names. apply length_map.
Qed.

Lemma append_macro_line_Forall (P : string -> Prop) (Q : string -> Prop)
      (t : MacroTable) (c : nat) (p : string) :
  Forall (fun m => P (macro_name m) /\ Forall Q (body m)) t ->
  Q p ->
  Forall (fun m => P (macro_name m) /\ Forall Q (body m)) (append_macro_line t c p).
Proof.
  intros H Hp. revert c. induction H as [| m r [Hn Hb] Hr IH]; intros [| c];
    cbn [append_macro_line]; constructor; try assumption; try apply IH.
  - cbn. split; [exact Hn |]. apply Forall_app. split; [exact Hb | now constructor].
  - split; assumption.
Qed.

Lemma macro_step_ok (st st' : mc_state) (line : string) :
  macro_step st (trim_inplace line) st' -> macros_ok st -> macros_ok st'.
Proof.
  intros Hs (Hnd & Hall & Hout & Hcur).
  inversion Hs; subst; unfold macros_ok; cbn [tbl fout cur].
  - repeat split; try assumption. intros c Hc. discriminate.
  - repeat split; try assumption. intros c Hc. discriminate.
  - split; [now rewrite append_macro_line_names |].
    split.
    { eapply Forall_impl;
        [| apply (append_macro_line_Forall
                    (fun n => is_valid_macro_name n = true /\ slen n <= MACRO_NAME_MAX
                              /\ is_reserved_mnemonic n = false
                              /\ n <> "mcro" /\ n <> "mcroend")
                    (fun b => trim_inplace b = b))].
      - cbn. intros m ((A & B & C & D & E) & F). repeat split; assumption.
      - eapply Forall_impl; [| exact Hall]. cbn. intros m (A & B & C & D & E & F).
        repeat split; assumption.
      - apply trim_inplace_fixed. }
    split; [exact Hout |].
    intros c' Hc. injection Hc as <-. rewrite append_macro_line_length. now apply Hcur.
  - unfold add_macro. split.
    { rewrite map_app. cbn [map macro_name]. apply NoDup_app.
      - exact Hnd.
      - constructor; [intros [] | constructor].
      - intros a Ha [<- | []]. revert Ha. now apply find_macro_absent. }
    split.
    { apply Forall_app. split; [exact Hall |]. constructor; [| constructor].
      cbn [macro_name body]. repeat split; try assumption. constructor. }
    split; [exact Hout |].
    intros c' Hc. injection Hc as <-. rewrite length_app. cbn. lia.
  - repeat split; try assumption; [| intros c Hc; discriminate].
    apply Forall_app. split; [exact Hout |].
    match goal with H : find_macro _ _ = Some _ |- _ => apply find_macro_In in H; destruct H as [Hin _] end.
    rewrite Forall_forall in Hall. destruct (Hall _ Hin) as (_ & _ & _ & _ & _ & Hb).
    apply Forall_map. eapply Forall_impl; [| exact Hb]. cbn. intros b Hbt. eauto.
  - repeat split; try assumption; [| intros c Hc; discriminate].
    apply Forall_app. split; [exact Hout |]. constructor; [| constructor].
    exists (trim_inplace line). split; [reflexivity | apply trim_inplace_fixed].
Qed.

Lemma macro_step_sink (st st' : mc_state) (p : string) :
  macro_step st p st' -> sink_le (g_macros st) (g_macros st').
Proof. intro H. inversion H; subst; cbn [g_macros]; assumption. Qed.

Lemma fold_macros_ok (reads : list (string * bool)) :
  forall st,
    macros_ok st ->
    macros_ok (fold_left process_macros_line reads st)
    /\ sink_le (g_macros st) (g_macros (fold_left process_macros_line reads st)).
Proof.
  induction reads as [| [line e] rs IH]; intros st H; cbn [fold_left].
  - split; [exact H | apply sink_le_refl].
  - pose proof (process_macros_line_step st line e) as Hs.
    destruct (IH _ (macro_step_ok _ _ _ Hs H)) as [A B].
    split; [exact A |]. eapply sink_le_trans; [eapply macro_step_sink; exact Hs | exact B].
Qed.

Lemma initial_macros_ok (d0 : diag) : macros_ok (mkMC [] None [] d0 0).
Proof.
  unfold macros_ok. cbn. repeat split; try constructor. intros c H. discriminate.
Qed.

Lemma sink_le_same (d d' : diag) :
  sink_le d d' -> error_count d' <= error_count d -> d' = d.
Proof.
  intros (l & R & C) H. destruct l as [| x l]; [| cbn in C; lia].
  rewrite app_nil_r in R. cbn in C. destruct d, d'. cbn in *. f_equal; [lia | exact R].
Qed.

(** The macro table [process_macros] leaves for a file: names are
    pairwise distinct, syntactically valid, at most 31 characters
    long, not reserved words and not [mcro] or [mcroend]; and every
    body line is a trimmed text. *)
Theorem macro_table_well_formed (fopen_w : string -> bool) (rename_ok : bool)
        (in_path : string) (source : option (list (string * bool))) (d0 : diag) :
  let r := process_macros fopen_w rename_ok in_path source [] d0 in
  NoDup (map macro_name (mc_table r))
  /\ forall m,
      In m (mc_table r) ->
      is_valid_macro_name (macro_name m) = true
      /\ slen (macro_name m) <= 31
      /\ is_reserved_mnemonic (macro_name m) = false
      /\ macro_name m <> "mcro" /\ macro_name m <> "mcroend"
      /\ forall b, In b (body m) -> trim_inplace b = b.
Proof.
  cbn zeta. unfold process_macros.
  assert (Hnil : NoDup (map macro_name []) /\
                 forall m : Macro, In m [] ->
                   is_valid_macro_name (macro_name m) = true
                   /\ slen (macro_name m) <= 31
                   /\ is_reserved_mnemonic (macro_name m) = false
                   /\ macro_name m <> "mcro" /\ macro_name m <> "mcroend"
                   /\ forall b, In b (body m) -> trim_inplace b = b).
  { split; [constructor | intros m []]. }
  destruct source as [reads |]; [| exact Hnil].
  destruct (fopen_w _); cbn [negb]; [| exact Hnil].
  destruct (fold_macros_ok reads _ (initial_macros_ok d0)) as [(Hnd & Hall & _) _].
  set (st := fold_left process_macros_line reads _) in *.
  assert (H : NoDup (map macro_name (tbl st)) /\
              forall m, In m (tbl st) ->
                is_valid_macro_name (macro_name m) = true
                /\ slen (macro_name m) <= 31
                /\ is_reserved_mnemonic (macro_name m) = false
                /\ macro_name m <> "mcro" /\ macro_name m <> "mcroend"
                /\ forall b, In b (body m) -> trim_inplace b = b).
  { split; [exact Hnd |]. intros m Hin. rewrite Forall_forall in Hall.
    destruct (Hall m Hin) as (A & B & C & D & E & F).
    repeat split; try assumption. now apply Forall_forall. }
  destruct (_ <? _); [exact H |]. destruct rename_ok; exact H.
Qed.

(** [process_macros] is all or nothing: it returns 0 with an output
    file, having reported nothing, or -1 with no output file and at
    least one new diagnostic.  Every line of the output is a trimmed
    text followed by a newline. *)
Theorem preprocessor_all_or_nothing (fopen_w : string -> bool) (rename_ok : bool)
        (in_path : string) (source : option (list (string * bool))) (d0 : diag) :
  let r := process_macros fopen_w rename_ok in_path source [] d0 in
  (mc_rc r = 0 /\ mc_diag r = d0
   /\ exists ls,
       am_file r = Some ls
       /\ forall l, In l ls -> exists p, l = p +++ NLs /\ trim_inplace p = p)
  \/ (mc_rc r = -1 /\ am_file r = None /\ error_count d0 < error_count (mc_diag r)).
Proof.
  cbn zeta. unfold process_macros.
  destruct source as [reads |]; [| right; cbn; repeat split; lia].
  destruct (fopen_w _); cbn [negb]; [| right; cbn; repeat split; lia].
  destruct (fold_macros_ok reads _ (initial_macros_ok d0)) as [(_ & _ & Hout & _) Hle].
  set (st := fold_left process_macros_line reads _) in *.
  cbn [g_macros] in Hle.
  set (d1 := match cur st with Some _ => _ | None => _ end).
  assert (H1 : sink_le d0 d1).
  { subst d1. destruct (cur st); [now apply sink_le_step | exact Hle]. }
  clearbody d1.
  destruct (Z.ltb_spec (error_count d0) (error_count d1)) as [Hlt | Hge].
  { right. cbn. repeat split. exact Hlt. }
  destruct rename_ok.
  - left. cbn. split; [reflexivity |]. split; [now apply sink_le_same |].
    exists (fout st). split; [reflexivity |]. now apply Forall_forall.
  - right. cbn. repeat split. apply sink_le_count in H1. lia.
Qed.

End Preprocessor.

(** ** Macro expansion *)

Lemma span_drop (f : ascii -> bool) (s : string) :
  s = span_until f s +++ drop_until f s.
Proof.
  induction s as [| c r IH]; [reflexivity |].
  cbn [span_until drop_until]. destruct (f c); [reflexivity |].
  cbn [String.append]. now rewrite <- IH.
Qed.

Lemma first_token_prefix (p : string) :
  skip_ws p = p -> prefix (first_token p) p = true.
Proof.
  intro H. unfold first_token. rewrite H.
  rewrite (span_drop isspace p) at 2. apply prefix_append.
Qed.

Lemma span_until_app (f : ascii -> bool) (a b : string) :
  none_chars f a = true -> span_until f (a +++ b) = a +++ span_until f b.
Proof.
  unfold none_chars. induction a as [| c r IH]; [reflexivity |].
  cbn [all_chars String.append span_until]. intro H. apply andb_prop in H.
  destruct H as [Hc Hr]. destruct (f c); [discriminate |]. now rewrite IH.
Qed.

Lemma drop_until_app (f : ascii -> bool) (a b : string) :
  none_chars f a = true -> drop_until f (a +++ b) = drop_until f b.
Proof.
  unfold none_chars. induction a as [| c r IH]; [reflexivity |].
  cbn [all_chars String.append drop_until]. intro H. apply andb_prop in H.
  destruct H as [Hc Hr]. destruct (f c); [discriminate |]. now apply IH.
Qed.

Lemma prefix_shape (a p : string) : prefix a p = true -> exists rest, p = a +++ rest.
Proof.
  revert p. induction a as [| x a IH]; intros p H; [now exists p |].
  destruct p as [| y p]; [discriminate |]. cbn [prefix] in H.
  destruct (ascii_dec x y) as [-> |]; [| discriminate].
  destruct (IH p H) as [rest ->]. now exists rest.
Qed.

(** The first token of a text that starts with [mcro] starts with
    [mcro]. *)
Lemma token_of_mcro (p : string) :
  prefix "mcro" p = true -> skip_ws p = p -> prefix "mcro" (first_token p) = true.
Proof.
  intros H Hs. unfold first_token. rewrite Hs.
  destruct (prefix_shape _ _ H) as [rest ->].
  rewrite (span_until_app isspace "mcro") by reflexivity. apply prefix_append.
Qed.

Lemma prefix_eq (a p : string) : prefix a p = false -> forall t, prefix t p = true -> t <> a.
Proof. intros H t Ht ->. congruence. Qed.

(** A read that is a whole line: it holds its newline, or the end of
    the file was reached. *)
Lemma whole_line_no_overflow (line : string) (at_eof : bool) :
  strchr line NL <> None \/ at_eof = true ->
  match strchr line NL with None => negb at_eof | Some _ => false end = false.
Proof. intros [H | ->]; destruct (strchr line NL); try reflexivity. contradiction. Qed.

(** A line that is neither in a definition nor starts with [mcro],
    with a table [t] that does not know its first token, is copied. *)
Lemma plain_line_copied (st : mc_state) (line : string) (at_eof : bool) :
  cur st = None ->
  line_no st + 1 <= MAX_SOURCE_LINES ->
  strchr line NL <> None \/ at_eof = true ->
  prefix "mcro" (trim_inplace line) = false ->
  find_macro (tbl st) (first_token (trim_inplace line)) = None ->
  process_macros_line st (line, at_eof)
  = mkMC (tbl st) None (fout st ++ [trim_inplace line +++ NLs]) (g_macros st)
         (line_no st + 1).
Proof.
  intros Hc Hn Hw Hp Hf. unfold process_macros_line.
  change (rtrim (ltrim line)) with (trim_inplace line).
  rewrite Hc, (whole_line_no_overflow line at_eof Hw), Hp. cbn [andb].
  destruct (Z.ltb_spec MAX_SOURCE_LINES (line_no st + 1)); [lia |].
  assert (Ht : String.eqb (first_token (trim_inplace line)) "mcro" = false).
  { apply String.eqb_neq. apply (prefix_eq _ _ Hp).
    apply first_token_prefix, trim_inplace_no_leading. }
  rewrite Ht, Hf. now destruct (is_empty _).
Qed.

(** A source without macros is copied line by line, each line trimmed
    and followed by a newline (blank lines and comments included), the
    table stays empty and nothing is reported. *)
Theorem macro_free_copy (fopen_w : string -> bool) (in_path : string)
        (reads : list (string * bool)) (d0 : diag) :
  fopen_w (in_path +++ ".am.tmp") = true ->
  Z.of_nat (List.length reads) <= MAX_SOURCE_LINES ->
  Forall (fun rd => (strchr (fst rd) NL <> None \/ snd rd = true)
                    /\ prefix "mcro" (trim_inplace (fst rd)) = false) reads ->
  process_macros fopen_w true in_path (Some reads) [] d0
  = mkMacros 0 [] d0 (Some (map (fun rd => trim_inplace (fst rd) +++ NLs) reads)).
Proof.
  intros Ho Hn Hall. unfold process_macros. rewrite Ho. cbn [negb].
  assert (Hfold : forall st,
             tbl st = [] -> cur st = None ->
             line_no st + Z.of_nat (List.length reads) <= MAX_SOURCE_LINES ->
             fold_left process_macros_line reads st
             = mkMC [] None (fout st ++ map (fun rd => trim_inplace (fst rd) +++ NLs) reads)
                    (g_macros st) (line_no st + Z.of_nat (List.length reads))).
  { clear Hn. induction Hall as [| [line e] rs [Hw Hp] Hrs IH]; intros st Ht Hc Hl.
    - cbn. rewrite app_nil_r, Z.add_0_r. destruct st; cbn in *; congruence.
    - cbn [fold_left fst snd] in *. cbn [List.length] in Hl.
      rewrite plain_line_copied; try assumption; try lia;
        [| rewrite Ht; reflexivity].
      rewrite IH; cbn [tbl cur fout g_macros line_no]; try assumption; try reflexivity; try lia.
      rewrite <- app_assoc. cbn [map app List.length fst]. f_equal. lia. }
  rewrite Hfold by (cbn; try reflexivity; lia).
  cbn [cur g_macros tbl fout app]. rewrite Z.ltb_irrefl. reflexivity.
Qed.

Lemma macro_free_copy_witness :
  process_macros (fun _ => true) true "prog"
                 (Some [("  mov r1, r2 " +++ NLs, false); ("stop", true)]) [] diag_zero
  = mkMacros 0 [] diag_zero
             (Some (map (fun rd => trim_inplace (fst rd) +++ NLs)
                        [("  mov r1, r2 " +++ NLs, false); ("stop", true)])).
Proof.
  apply (macro_free_copy (fun _ => true) "prog"
           [("  mov r1, r2 " +++ NLs, false); ("stop", true)] diag_zero).
  - reflexivity.
  - unfold MAX_SOURCE_LINES. cbn. lia.
  - constructor; [split; [left; discriminate | reflexivity] |].
    constructor; [split; [right; reflexivity | reflexivity] | constructor].
Defined.

Lemma nospace_rtrim (s : string) : none_chars isspace s = true -> rtrim s = s.
Proof.
  unfold none_chars. induction s as [| c r IH]; [reflexivity |].
  cbn [all_chars rtrim]. intro H. apply andb_prop in H. destruct H as [Hc Hr].
  rewrite (IH Hr). destruct (isspace c); [discriminate |]. now rewrite andb_false_r.
Qed.

Lemma isalnum_not_space (c : ascii) : isalnum c = true -> isspace c = false.
Proof.
  unfold isalnum, isalpha, isupper, islower, isdigit, isspace.
  intro H. repeat (apply orb_prop in H; destruct H as [H | H]);
    apply andb_prop in H; destruct H as [H1 H2];
    apply Z.leb_le in H1; apply Z.leb_le in H2;
    apply orb_false_intro;
    try (apply Z.eqb_neq; lia);
    apply andb_false_intro2; apply Z.leb_gt; lia.
Qed.

Lemma valid_name_nospace (nm : string) :
  is_valid_macro_name nm = true ->
  none_chars isspace nm = true /\ skip_ws nm = nm /\ nm <> EmptyString.
Proof.
  unfold is_valid_macro_name. destruct nm as [| c r]; [discriminate |].
  intro H. apply andb_prop in H. destruct H as [Hc Hr].
  assert (Hcs : isspace c = false).
  { apply isalnum_not_space. unfold isalnum. now rewrite Hc. }
  split; [| split; [now apply skip_ws_fixed | discriminate]].
  unfold none_chars. cbn [all_chars]. rewrite Hcs. cbn [negb andb].
  revert Hr. apply all_chars_weaken. intros a Ha.
  apply orb_prop in Ha. destruct Ha as [Ha | Ha].
  - now rewrite isalnum_not_space.
  - apply Ascii.eqb_eq in Ha. now subst a.
Qed.

(** The header line of a definition. *)
Lemma header_line (ws nm : string) :
  ws <> EmptyString ->
  all_chars isspace ws = true ->
  is_valid_macro_name nm = true ->
  first_token ("mcro" +++ ws +++ nm) = "mcro"
  /\ get_macro_name ("mcro" +++ ws +++ nm) = Some nm.
Proof.
  intros Hne Hws Hv. destruct (valid_name_nospace nm Hv) as (Hns & Hsk & Hnn).
  destruct ws as [| c ws']; [contradiction |].
  pose proof Hws as Hws0. cbn [all_chars] in Hws0. apply andb_prop in Hws0.
  destruct Hws0 as [Hc Hw'].
  assert (Hsk4 : forall x, skip_ws ("mcro" +++ x) = "mcro" +++ x) by reflexivity.
  split.
  - unfold first_token. rewrite Hsk4.
    rewrite (span_until_app isspace "mcro") by reflexivity.
    cbn [String.append span_until]. now rewrite Hc.
  - unfold get_macro_name.
    rewrite (drop_until_app isspace "mcro") by reflexivity.
    assert (E : drop_until isspace (String c ws' +++ nm) = String c ws' +++ nm).
    { cbn [String.append drop_until]. now rewrite Hc. }
    rewrite E, skip_ws_blank by exact Hws. rewrite Hsk.
    rewrite (nospace_rtrim nm Hns). destruct nm; [contradiction | reflexivity].
Qed.

Lemma append_last (t : MacroTable) (nm : string) (b : list string) (p : string) :
  append_macro_line (t ++ [mkMacro nm b]) (List.length t) p = t ++ [mkMacro nm (b ++ [p])].
Proof. induction t as [| m r IH]; cbn; [reflexivity | now rewrite IH]. Qed.

Lemma whole_lines_sink (st : mc_state) (line : string) (at_eof : bool) :
  line_no st + 1 <= MAX_SOURCE_LINES ->
  strchr line NL <> None \/ at_eof = true ->
  (if match strchr line NL with None => negb at_eof | Some _ => false end
   then diag_error (if MAX_SOURCE_LINES <? line_no st + 1
                    then diag_error (g_macros st) MC_FILE_TOO_LONG else g_macros st)
                   MC_LINE_TOO_LONG
   else if MAX_SOURCE_LINES <? line_no st + 1
        then diag_error (g_macros st) MC_FILE_TOO_LONG else g_macros st)
  = g_macros st.
Proof.
  intros Hn Hw. rewrite (whole_line_no_overflow line at_eof Hw).
  destruct (Z.ltb_spec MAX_SOURCE_LINES (line_no st + 1)); [lia | reflexivity].
Qed.

Lemma body_lines_recorded (nm : string) (lines : list (string * bool)) :
  Forall (fun rd => (strchr (fst rd) NL <> None \/ snd rd = true)
                    /\ first_token (trim_inplace (fst rd)) <> "mcroend") lines ->
  forall t b out d n,
    n + Z.of_nat (List.length lines) <= MAX_SOURCE_LINES ->
    fold_left process_macros_line lines
              (mkMC (t ++ [mkMacro nm b]) (Some (List.length t)) out d n)
    = mkMC (t ++ [mkMacro nm (b ++ map (fun rd => trim_inplace (fst rd)) lines)])
           (Some (List.length t)) out d (n + Z.of_nat (List.length lines)).
Proof.
  induction 1 as [| [line e] rs [Hw Hk] Hrs IH]; intros t b out d n Hn.
  - cbn. now rewrite app_nil_r, Z.add_0_r.
  - cbn [fold_left fst snd List.length] in *.
    assert (E : process_macros_line
                  (mkMC (t ++ [mkMacro nm b]) (Some (List.length t)) out d n) (line, e)
                = mkMC (t ++ [mkMacro nm (b ++ [trim_inplace line])])
                       (Some (List.length t)) out d (n + 1)).
    { unfold process_macros_line. cbn [cur tbl fout g_macros line_no].
      change (rtrim (ltrim line)) with (trim_inplace line).
      rewrite (whole_line_no_overflow line e Hw).
      destruct (Z.ltb_spec MAX_SOURCE_LINES (n + 1)); [lia |].
      destruct (String.eqb_spec (first_token (trim_inplace line)) "mcroend");
        [contradiction |].
      now rewrite append_last. }
    rewrite E, IH by lia. cbn [map fst]. rewrite <- app_assoc. f_equal. lia.
Qed.

(** One macro, defined once and then used: the definition writes
    nothing; its body is recorded as the trimmed lines between the
    header and [mcroend], without being scanned for calls or further
    definitions; afterwards a line whose first token is the macro name
    is replaced by the body lines (anything else on that line is
    dropped) and any other line is copied trimmed. *)
Theorem single_macro_expansion (fopen_w : string -> bool) (in_path : string)
        (ws nm : string) (header closing : string * bool)
        (body_lines rest : list (string * bool)) (d0 : diag) :
  fopen_w (in_path +++ ".am.tmp") = true ->
  ws <> EmptyString -> all_chars isspace ws = true ->
  is_valid_macro_name nm = true ->
  slen nm <= MACRO_NAME_MAX ->
  is_reserved_mnemonic nm = false ->
  prefix "mcro" nm = false ->
  trim_inplace (fst header) = "mcro" +++ ws +++ nm ->
  trim_inplace (fst closing) = "mcroend" ->
  Forall (fun rd => first_token (trim_inplace (fst rd)) <> "mcroend") body_lines ->
  Forall (fun rd => first_token (trim_inplace (fst rd)) = nm
                    \/ prefix "mcro" (trim_inplace (fst rd)) = false) rest ->
  let reads := header :: body_lines ++ closing :: rest in
  Forall (fun rd => strchr (fst rd) NL <> None \/ snd rd = true) reads ->
  Z.of_nat (List.length reads) <= MAX_SOURCE_LINES ->
  let recorded := map (fun rd => trim_inplace (fst rd)) body_lines in
  process_macros fopen_w true in_path (Some reads) [] d0
  = mkMacros 0 [mkMacro nm recorded] d0
             (Some (flat_map
                      (fun rd =>
                         if String.eqb (first_token (trim_inplace (fst rd))) nm
                         then map (fun l => l +++ NLs) recorded
                         else [trim_inplace (fst rd) +++ NLs])
                      rest)).
Proof.
  intros Ho Hwne Hws Hv Hlen Hres Hpre Hh Hc Hbody Hrest reads Hwhole Hn recorded.
  destruct (header_line ws nm Hwne Hws Hv) as [Htok Hname].
  destruct (valid_name_nospace nm Hv) as (_ & _ & Hnn).
  unfold process_macros. rewrite Ho. cbn [negb].
  subst reads. destruct header as [hl he]. destruct closing as [cl ce].
  cbn [fst snd] in *.
  inversion Hwhole as [| ? ? Hwh Hw1]; subst.
  apply Forall_app in Hw1. destruct Hw1 as [Hwb Hw2].
  inversion Hw2 as [| ? ? Hwc Hwr]; subst. cbn [fst snd] in *.
  cbn [List.length] in Hn. rewrite length_app in Hn. cbn [List.length] in Hn.
  cbn [fold_left]. rewrite fold_left_app. cbn [fold_left].
  (* the header *)
  assert (E1 : process_macros_line (mkMC [] None [] d0 0) (hl, he)
               = mkMC ([] ++ [mkMacro nm []]) (Some (List.length (@nil Macro))) [] d0 1).
  { unfold process_macros_line. cbn [cur tbl fout g_macros line_no].
    change (rtrim (ltrim hl)) with (trim_inplace hl).
    rewrite (whole_line_no_overflow hl he Hwh), Hh, Htok, Hname.
    change (String.eqb "mcro" "mcro") with true. cbn [negb andb].
    rewrite andb_false_r. cbn [andb].
    destruct (Z.ltb_spec MAX_SOURCE_LINES (0 + 1)); [unfold MAX_SOURCE_LINES in *; lia |].
    destruct nm as [| c0 r0]; [contradiction |]. cbn [is_empty].
    destruct (Z.ltb_spec MACRO_NAME_MAX (slen (String c0 r0))); [lia |].
    rewrite Hv, Hres, (reserved_covers_registers _ Hres). cbn [negb orb].
    assert (N1 : String.eqb (String c0 r0) "mcro" = false).
    { apply String.eqb_neq. intro E. rewrite E in Hpre. discriminate. }
    assert (N2 : String.eqb (String c0 r0) "mcroend" = false).
    { apply String.eqb_neq. intro E. rewrite E in Hpre. discriminate. }
    rewrite N1, N2. reflexivity. }
  rewrite E1.
  (* the body *)
  assert (Hbw : Forall (fun rd => (strchr (fst rd) NL <> None \/ snd rd = true)
                                  /\ first_token (trim_inplace (fst rd)) <> "mcroend")
                       body_lines).
  { apply Forall_forall. intros rd Hin. rewrite Forall_forall in Hwb, Hbody. auto. }
  rewrite (body_lines_recorded nm body_lines Hbw) by lia.
  cbn [app List.length]. fold recorded.
  (* the closing line *)
  set (k := 1 + Z.of_nat (List.length body_lines)).
  assert (E2 : process_macros_line
                 (mkMC [mkMacro nm recorded] (Some O) [] d0 k) (cl, ce)
               = mkMC [mkMacro nm recorded] None [] d0 (k + 1)).
  { unfold process_macros_line. cbn [cur tbl fout g_macros line_no].
    change (rtrim (ltrim cl)) with (trim_inplace cl).
    rewrite (whole_line_no_overflow cl ce Hwc), Hc.
    destruct (Z.ltb_spec MAX_SOURCE_LINES (k + 1)); [subst k; lia |]. reflexivity. }
  rewrite E2.
  (* the rest *)
  assert (Hfold : forall out n,
             n + Z.of_nat (List.length rest) <= MAX_SOURCE_LINES ->
             fold_left process_macros_line rest (mkMC [mkMacro nm recorded] None out d0 n)
             = mkMC [mkMacro nm recorded] None
                    (out ++ flat_map
                              (fun rd =>
                                 if String.eqb (first_token (trim_inplace (fst rd))) nm
                                 then map (fun l => l +++ NLs) recorded
                                 else [trim_inplace (fst rd) +++ NLs])
                              rest)
                    d0 (n + Z.of_nat (List.length rest))).
  { clear E1 E2 Hn Hwhole Hw2. revert Hrest Hwr.
    induction rest as [| [line e] rs IH]; intros Hrest Hwr out n Hn.
    - cbn. now rewrite app_nil_r, Z.add_0_r.
    - inversion Hrest as [| ? ? Hr1 Hr2]; subst. inversion Hwr as [| ? ? Hl1 Hl2]; subst.
      cbn [fst snd List.length fold_left flat_map] in *.
      destruct (String.eqb_spec (first_token (trim_inplace line)) nm) as [Ecall | Nplain].
      + assert (Hp : prefix "mcro" (trim_inplace line) = false).
        { destruct (prefix "mcro" (trim_inplace line)) eqn:Ep; [| reflexivity].
          pose proof (token_of_mcro _ Ep (trim_inplace_no_leading line)) as Hft.
          rewrite Ecall in Hft. congruence. }
        assert (E : process_macros_line (mkMC [mkMacro nm recorded] None out d0 n) (line, e)
                    = mkMC [mkMacro nm recorded] None
                           (out ++ map (fun l => l +++ NLs) recorded) d0 (n + 1)).
        { unfold process_macros_line. cbn [cur tbl fout g_macros line_no].
          change (rtrim (ltrim line)) with (trim_inplace line).
          rewrite (whole_line_no_overflow line e Hl1), Hp. cbn [andb].
          destruct (Z.ltb_spec MAX_SOURCE_LINES (n + 1)); [lia |].
          rewrite Ecall.
          assert (N1 : String.eqb nm "mcro" = false).
          { apply String.eqb_neq. intro E. rewrite E in Hpre. discriminate. }
          rewrite N1. destruct nm as [| c0 r0]; [contradiction |]. cbn [is_empty].
          cbn [find_macro macro_name body]. rewrite String.eqb_refl. reflexivity. }
        rewrite E, IH by (try assumption; lia).
        rewrite <- app_assoc. f_equal. lia.
      + destruct Hr1 as [Hr1 | Hp]; [contradiction |].
        assert (E : process_macros_line (mkMC [mkMacro nm recorded] None out d0 n) (line, e)
                    = mkMC [mkMacro nm recorded] None
                           (out ++ [trim_inplace line +++ NLs]) d0 (n + 1)).
        { apply (plain_line_copied (mkMC [mkMacro nm recorded] None out d0 n) line e);
            cbn [cur tbl line_no]; try assumption; try reflexivity; try lia.
          cbn [find_macro macro_name].
          destruct (String.eqb_spec nm (first_token (trim_inplace line)));
            [congruence | reflexivity]. }
        rewrite E, IH by (try assumption; lia).
        rewrite <- app_assoc. f_equal. lia. }
  rewrite Hfold by (subst k; lia).
  cbn [cur g_macros tbl fout app]. rewrite Z.ltb_irrefl. reflexivity.
Qed.

Lemma single_macro_expansion_witness :
  let header := ("mcro m1" +++ NLs, false) in
  let closing := ("mcroend" +++ NLs, false) in
  let body_lines := [("  inc r1" +++ NLs, false); ("m1" +++ NLs, false)] in
  let rest := [("m1 extra" +++ NLs, false); ("stop", true)] in
  let reads := header :: body_lines ++ closing :: rest in
  let recorded := map (fun rd => trim_inplace (fst rd)) body_lines in
  process_macros (fun _ => true) true "prog" (Some reads) [] diag_zero
  = mkMacros 0 [mkMacro "m1" recorded] diag_zero
             (Some (flat_map
                      (fun rd =>
                         if String.eqb (first_token (trim_inplace (fst rd))) "m1"
                         then map (fun l => l +++ NLs) recorded
                         else [trim_inplace (fst rd) +++ NLs])
                      rest)).
Proof.
  apply (single_macro_expansion (fun _ => true) "prog" " " "m1"
           ("mcro m1" +++ NLs, false) ("mcroend" +++ NLs, false)
           [("  inc r1" +++ NLs, false); ("m1" +++ NLs, false)]
           [("m1 extra" +++ NLs, false); ("stop", true)] diag_zero);
    try reflexivity; try discriminate.
  - constructor; [intro H; vm_compute in H; discriminate |].
    constructor; [intro H; vm_compute in H; discriminate | constructor].
  - constructor; [left; reflexivity |].
    constructor; [right; reflexivity | constructor].
  - constructor; [left; discriminate |].
    constructor; [left; discriminate |].
    constructor; [left; discriminate |].
    constructor; [left; discriminate |].
    constructor; [left; discriminate |].
    constructor; [right; reflexivity | constructor].
Defined.

(** ** From the preprocessor to the first pass *)

Lemma rev_string_cons (c : ascii) (s : string) :
  rev_string (String c s) = rev_string s +++ String c EmptyString.
Proof. unfold rev_string. cbn [rev_string_acc]. apply rev_string_acc_app. Qed.

(** [fgets] on a short line: the buffer is the line with its
    newline. *)
Lemma fgets_all_line (room : nat) (p : string) :
  none_chars (fun c => Ascii.eqb c NL) p = true ->
  forall cur n rest,
    (n + String.length p < room)%nat ->
    fgets_all room cur n (p +++ String NL rest)
    = (rev_string cur +++ p +++ NLs) :: fgets_all room EmptyString O rest.
Proof.
  unfold none_chars. induction p as [| c p IH]; intros H cur n rest Hn.
  - cbn [String.append fgets_all]. rewrite Ascii.eqb_refl. now rewrite rev_string_cons.
  - cbn [all_chars] in H. apply andb_prop in H. destruct H as [Hc Hp].
    cbn [String.append fgets_all String.length] in *.
    destruct (Ascii.eqb c NL); [discriminate |].
    destruct (Nat.eqb_spec (S n) room); [lia |].
    rewrite (IH Hp) by lia. rewrite rev_string_cons, app_assoc_s. reflexivity.
Qed.

Lemma read_lines_short (ls : list string) :
  Forall (fun l => exists p, l = p +++ NLs
                             /\ slen p <= MAX_LINE_LEN - 2
                             /\ none_chars (fun c => Ascii.eqb c NL) p = true) ls ->
  read_lines (file_text ls) = ls.
Proof.
  unfold read_lines. induction 1 as [| l ls (p & -> & Hlen & Hnl) Hls IH]; [reflexivity |].
  cbn [file_text fold_right]. fold (file_text ls).
  unfold NLs. rewrite app_assoc_s. cbn [String.append].
  rewrite (fgets_all_line _ p Hnl).
  - cbn [rev_string rev_string_acc String.append]. now rewrite IH.
  - unfold slen, MAX_LINE_LEN in *. lia.
Qed.

Lemma rtrim_app_nl (x : string) : rtrim (x +++ NLs) = rtrim x.
Proof.
  induction x as [| c x IH]; [reflexivity |].
  cbn [String.append rtrim]. now rewrite IH.
Qed.

Lemma skip_ws_app_nl (t : string) :
  skip_ws (t +++ NLs) = skip_ws t +++ NLs \/ (skip_ws (t +++ NLs) = EmptyString /\ skip_ws t = EmptyString).
Proof.
  induction t as [| c t IH]; [right; split; reflexivity |].
  cbn [String.append skip_ws]. destruct (isspace c); [exact IH | now left].
Qed.

Lemma trim_app_nl (t : string) : trim_inplace (t +++ NLs) = trim_inplace t.
Proof.
  unfold trim_inplace. destruct (skip_ws_app_nl t) as [-> | [-> ->]];
    [apply rtrim_app_nl | reflexivity].
Qed.

Lemma skip_ws_length (s : string) : (String.length (skip_ws s) <= String.length s)%nat.
Proof.
  induction s as [| c s IH]; [cbn; lia |]. cbn [skip_ws].
  destruct (isspace c); cbn [String.length]; lia.
Qed.

Lemma rtrim_length (s : string) : (String.length (rtrim s) <= String.length s)%nat.
Proof.
  induction s as [| c s IH]; [cbn; lia |]. cbn [rtrim].
  destruct (_ && _); cbn [String.length]; lia.
Qed.

Lemma all_chars_rtrim (f : ascii -> bool) (s : string) :
  all_chars f s = true -> all_chars f (rtrim s) = true.
Proof.
  induction s as [| c s IH]; [reflexivity |].
  cbn [all_chars rtrim]. intro H. apply andb_prop in H. destruct H as [Hc Hs].
  destruct (_ && _); [reflexivity |]. cbn [all_chars]. now rewrite Hc, IH.
Qed.

Lemma trim_keeps (f : ascii -> bool) (s : string) :
  all_chars f s = true -> all_chars f (trim_inplace s) = true.
Proof. intro H. unfold trim_inplace. now apply all_chars_rtrim, all_chars_skip_ws. Qed.

Lemma trim_length (s : string) : (String.length (trim_inplace s) <= String.length s)%nat.
Proof.
  unfold trim_inplace. pose proof (rtrim_length (skip_ws s)). pose proof (skip_ws_length s). lia.
Qed.

Lemma strchr_absent (s : string) (c : ascii) :
  none_chars (fun a => Ascii.eqb a c) s = true -> strchr s c = None.
Proof.
  unfold none_chars. induction s as [| a s IH]; [reflexivity |].
  cbn [all_chars strchr]. intro H. apply andb_prop in H. destruct H as [Ha Hs].
  destruct (Ascii.eqb a c); [discriminate | now apply IH].
Qed.

(** The trimmed text of a whole line read by [fgets] has at most
    [MAX_LINE_LEN - 2] characters and no newline. *)
Lemma whole_line_short (line : string) (at_eof : bool) :
  fgets_read line ->
  (at_eof = true -> strchr line NL = None -> slen line < MAX_LINE_LEN - 1) ->
  match strchr line NL with None => negb at_eof | Some _ => false end = false ->
  slen (trim_inplace line) <= MAX_LINE_LEN - 2
  /\ none_chars (fun c => Ascii.eqb c NL) (trim_inplace line) = true.
Proof.
  intros (Hlen & t & Ht & Hshape) Heof Hno. unfold slen in *.
  destruct Hshape as [-> | ->].
  - rewrite (strchr_absent t NL Ht) in Hno, Heof. destruct at_eof; [| discriminate].
    specialize (Heof eq_refl eq_refl). pose proof (trim_length t).
    split; [lia | now apply trim_keeps].
  - rewrite trim_app_nl. rewrite length_append in Hlen. cbn [String.length NLs] in Hlen.
    pose proof (trim_length t). split; [lia | now apply trim_keeps].
Qed.

Lemma overflow_reported (st : mc_state) (line : string) (at_eof : bool) :
  match strchr line NL with None => negb at_eof | Some _ => false end = true ->
  error_count (g_macros st) < error_count (g_macros (process_macros_line st (line, at_eof))).
Proof.
  intro H. unfold process_macros_line. rewrite H.
  set (d1 := if MAX_SOURCE_LINES <? line_no st + 1 then _ else _).
  assert (H1 : error_count (g_macros st) <= error_count d1).
  { subst d1. destruct (_ <? _); cbn; lia. }
  clearbody d1.
  repeat match goal with
         | |- context [match ?x with _ => _ end] => destruct x
         end; cbn; lia.
Qed.

Lemma no_report_no_overflow (reads : list (string * bool)) :
  forall st,
    error_count (g_macros (fold_left process_macros_line reads st))
    <= error_count (g_macros st) ->
    Forall (fun rd => match strchr (fst rd) NL with
                      | None => negb (snd rd)
                      | Some _ => false
                      end = false) reads.
Proof.
  induction reads as [| [line e] rs IH]; intros st H; [constructor |].
  cbn [fold_left] in H.
  pose proof (process_macros_line_step st line e) as Hs.
  pose proof (sink_le_count _ _ (macro_step_sink _ _ _ Hs)) as H1.
  assert (H2 : error_count (g_macros (process_macros_line st (line, e)))
               <= error_count (g_macros (fold_left process_macros_line rs
                                                   (process_macros_line st (line, e))))).
  { clear. generalize (process_macros_line st (line, e)) as s0.
    induction rs as [| [l b] rs IH]; intro s0; cbn [fold_left]; [lia |].
    pose proof (sink_le_count _ _ (macro_step_sink _ _ _ (process_macros_line_step s0 l b))).
    specialize (IH (process_macros_line s0 (l, b))). lia. }
  constructor.
  - cbn [fst snd].
    destruct (match strchr line NL with None => negb e | Some _ => false end) eqn:E;
      [| reflexivity].
    pose proof (overflow_reported st line e E). lia.
  - apply (IH (process_macros_line st (line, e))). lia.
Qed.

Lemma macro_step_lines (Q : string -> Prop) (st st' : mc_state) (p : string) :
  macro_step st p st' ->
  Q p ->
  Forall (fun m => Forall Q (body m)) (tbl st)
  /\ Forall (fun l => exists q, l = q +++ NLs /\ Q q) (fout st) ->
  Forall (fun m => Forall Q (body m)) (tbl st')
  /\ Forall (fun l => exists q, l = q +++ NLs /\ Q q) (fout st').
Proof.
  intros Hs Hp [Ht Ho]. inversion Hs; subst; cbn [tbl fout].
  - split; assumption.
  - split; assumption.
  - split; [| exact Ho]. clear - Ht Hp. revert c.
    induction Ht as [| m r Hm Hr IH]; intros [| c]; cbn [append_macro_line];
      constructor; try assumption; try apply IH.
    cbn [body]. apply Forall_app. split; [exact Hm | now constructor].
  - split; [| exact Ho]. unfold add_macro. apply Forall_app. split; [exact Ht |].
    constructor; [constructor | constructor].
  - split; [exact Ht |]. apply Forall_app. split; [exact Ho |].
    match goal with H : find_macro _ _ = Some _ |- _ => apply find_macro_In in H; destruct H as [Hin _] end.
    rewrite Forall_forall in Ht. specialize (Ht _ Hin).
    apply Forall_map. eapply Forall_impl; [| exact Ht]. cbn. eauto.
  - split; [exact Ht |]. apply Forall_app. split; [exact Ho |].
    constructor; [eauto | constructor].
Qed.

Lemma fold_lines (Q : string -> Prop) (reads : list (string * bool)) :
  Forall (fun rd => Q (trim_inplace (fst rd))) reads ->
  forall st,
    Forall (fun m => Forall Q (body m)) (tbl st)
    /\ Forall (fun l => exists q, l = q +++ NLs /\ Q q) (fout st) ->
    Forall (fun l => exists q, l = q +++ NLs /\ Q q)
           (fout (fold_left process_macros_line reads st)).
Proof.
  induction 1 as [| [line e] rs Hq Hrs IH]; intros st H; cbn [fold_left]; [apply H |].
  apply IH. eapply macro_step_lines; [apply process_macros_line_step | exact Hq | exact H].
Qed.

Lemma read_back (fopen_w : string -> bool) (rename_ok : bool) (in_path : string)
        (reads : list (string * bool)) (d0 : diag) (ls : list string) :
  Forall (fun rd => fgets_read (fst rd)
                    /\ (snd rd = true -> strchr (fst rd) NL = None ->
                        slen (fst rd) < MAX_LINE_LEN - 1)) reads ->
  am_file (process_macros fopen_w rename_ok in_path (Some reads) [] d0) = Some ls ->
  read_lines (file_text ls) = ls.
Proof.
  intros Hc Ham. unfold process_macros in Ham.
  destruct (fopen_w _); cbn [negb] in Ham; [| discriminate].
  set (st := fold_left process_macros_line reads (mkMC [] None [] d0 0)) in *.
  set (d1 := match cur st with Some _ => _ | None => _ end) in *.
  destruct (Z.ltb_spec (error_count d0) (error_count d1)) as [| Hge]; [discriminate |].
  destruct rename_ok; [| discriminate]. cbn [am_file] in Ham. injection Ham as <-.
  assert (Hd : error_count (g_macros st) <= error_count d0).
  { subst d1. destruct (cur st); cbn in Hge; lia. }
  pose proof (no_report_no_overflow reads (mkMC [] None [] d0 0) Hd) as Hno.
  apply read_lines_short.
  apply (fold_lines (fun p => slen p <= MAX_LINE_LEN - 2
                              /\ none_chars (fun c => Ascii.eqb c NL) p = true)).
  - rewrite Forall_forall in *. intros [line e] Hin.
    destruct (Hc _ Hin) as [Hr He]. specialize (Hno _ Hin). cbn [fst snd] in *.
    now apply (whole_line_short line e).
  - cbn. split; constructor.
Qed.

(** The file the preprocessor writes is read back by the first pass
    line by line: when every read of the source obeys the contract of
    [fgets] with a buffer of [MAX_LINE_LEN] characters, splitting the
    text of the output file into [fgets] buffers of the same size
    gives back exactly the lines written. *)
Theorem am_file_read_back (fopen_w : string -> bool) (rename_ok : bool) (in_path : string)
        (reads : list (string * bool)) (d0 : diag) (ls : list string) :
  Forall (fun rd => fgets_read (fst rd)
                    /\ (snd rd = true -> strchr (fst rd) NL = None ->
                        slen (fst rd) < MAX_LINE_LEN - 1)) reads ->
  am_file (process_macros fopen_w rename_ok in_path (Some reads) [] d0) = Some ls ->
  read_lines (file_text ls) = ls.
Proof. exact (read_back fopen_w rename_ok in_path reads d0 ls). Qed.

Lemma am_file_read_back_witness :
  read_lines (file_text ["mov r1, r2" +++ NLs; "stop" +++ NLs])
  = ["mov r1, r2" +++ NLs; "stop" +++ NLs].
Proof.
  apply (am_file_read_back (fun _ => true) true "prog"
           [("  mov r1, r2 " +++ NLs, false); ("stop", true)] diag_zero).
  - constructor; [| constructor; [| constructor]]; cbn [fst snd]; split.
    + split; [discriminate |]. exists "  mov r1, r2 ". split; [reflexivity | now right].
    + discriminate.
    + split; [discriminate |]. exists "stop". split; [reflexivity | now left].
    + intros _ _. reflexivity.
  - reflexivity.
Defined.

(** ** The driver *)

Lemma main_file_cases (fopen_w : string -> bool) (s : main_state_t) (f : input_file) :
  let m := process_macros fopen_w (rename_ok f) (in_stem f) (as_reads f) [] (g_preproc s) in
  (mc_rc m <> 0
   /\ main_file fopen_w s f
      = mkMain (diag_error (g_main s) "AS101") (mc_diag m) (g_passes s)
               (runs s ++ [(m, None)]))
  \/ (mc_rc m = 0
      /\ exists r,
          r = first_pass fopen_w (in_stem f)
                         (if am_opens f
                          then option_map (fun ls => read_lines (file_text ls)) (am_file m)
                          else None)
                         (main_state (g_passes s))
          /\ main_file fopen_w s f
             = mkMain (if negb (p1_rc r =? 0) then diag_error (g_main s) "AS102"
                       else g_main s)
                      (mc_diag m) (diags_after r) (runs s ++ [(m, Some r)])).
Proof.
  cbn zeta. unfold main_file.
  destruct (Z.eqb_spec (mc_rc (process_macros fopen_w (rename_ok f) (in_stem f)
                                              (as_reads f) [] (g_preproc s))) 0) as [E | N].
  - right. split; [exact E |]. eexists. split; reflexivity.
  - left. split; [exact N | reflexivity].
Qed.

(** The exit status of [main] is 0 exactly when at least one file was
    given and, for every file, the preprocessor and the first pass
    both returned 0; the outcome of the second pass (a refused run, an
    output file that cannot be opened) does not enter it.  Every
    argument is processed, whatever happened to those before it. *)
Theorem main_exit_status (fopen_w : string -> bool) (argv : list input_file) :
  let rc := fst (main fopen_w argv) in
  let s := snd (main fopen_w argv) in
  (rc = 0 \/ rc = 1)
  /\ (rc = 0 <->
      argv <> []
      /\ Forall (fun run => mc_rc (fst run) = 0
                            /\ exists r, snd run = Some r /\ p1_rc r = 0) (runs s))
  /\ List.length (runs s) = List.length argv.
Proof.
  cbn zeta.
  assert (Hfold : forall fs s0,
             0 <= error_count (g_main s0) ->
             (error_count (g_main s0) = 0 <->
              Forall (fun run => mc_rc (fst run) = 0
                                 /\ exists r, snd run = Some r /\ p1_rc r = 0) (runs s0)) ->
             let s := fold_left (main_file fopen_w) fs s0 in
             0 <= error_count (g_main s)
             /\ (error_count (g_main s) = 0 <->
                 Forall (fun run => mc_rc (fst run) = 0
                                    /\ exists r, snd run = Some r /\ p1_rc r = 0) (runs s))
             /\ List.length (runs s) = (List.length (runs s0) + List.length fs)%nat).
  { induction fs as [| f fs IH]; intros s0 H0 Hiff; cbn [fold_left].
    - split; [exact H0 |]. split; [exact Hiff | cbn; lia].
    - destruct (main_file_cases fopen_w s0 f) as [[N E] | [Z0 (r & Er & E)]].
      + destruct (IH (main_file fopen_w s0 f)) as (A & B & C).
        * rewrite E. cbn. lia.
        * rewrite E. cbn [g_main runs error_count diag_error]. split; [lia |].
          intro HF. apply Forall_app in HF. destruct HF as [_ HF].
          inversion HF as [| ? ? [Hm _] _]; subst. cbn in Hm. contradiction.
        * split; [exact A |]. split; [exact B |].
          rewrite C, E. cbn [runs List.length]. rewrite length_app. cbn. lia.
      + destruct (IH (main_file fopen_w s0 f)) as (A & B & C).
        * rewrite E. cbn [g_main]. destruct (negb (p1_rc r =? 0)); cbn; lia.
        * rewrite E. cbn [g_main runs].
          destruct (Z.eqb_spec (p1_rc r) 0) as [Hr | Hr]; cbn [negb].
          -- rewrite Hiff. split; intro HF.
             ++ apply Forall_app. split; [exact HF |]. constructor; [| constructor].
                cbn [fst snd]. split; [exact Z0 | eauto].
             ++ apply Forall_app in HF. tauto.
          -- cbn [error_count diag_error]. split; [lia |].
             intro HF. apply Forall_app in HF. destruct HF as [_ HF].
             inversion HF as [| ? ? [_ (r' & Hs & Hz)] _]; subst. cbn in Hs.
             injection Hs as <-. contradiction.
        * split; [exact A |]. split; [exact B |].
          rewrite C, E. cbn [runs List.length]. rewrite length_app. cbn. lia. }
  unfold main. destruct argv as [| f fs].
  - cbn. split; [now right |]. split; [| reflexivity].
    split; [discriminate | intros [H _]; contradiction].
  - set (s0 := mkMain diag_zero diag_zero diags_zero []).
    destruct (Hfold (f :: fs) s0) as (A & B & C).
    + cbn. lia.
    + cbn. split; [constructor | reflexivity].
    + cbn zeta in *. cbn [fst snd].
      set (s := fold_left (main_file fopen_w) (f :: fs) s0) in *.
      destruct (Z.ltb_spec 0 (error_count (g_main s))) as [Hpos | Hz].
      * split; [now right |]. split; [| exact C].
        split; [discriminate |]. intros [_ HF]. apply B in HF. lia.
      * split; [now left |]. split; [| exact C].
        split; [| reflexivity]. intros _. split; [discriminate |]. apply B. lia.
Qed.

(** Files are not isolated from each other: once the sink of
    [first_pass.c] holds an error, the next file gets no second pass
    and counts as failed, whatever it contains, and the sink still
    holds an error afterwards. *)
Theorem later_file_fails (fopen_w : string -> bool) (s : main_state_t) (f : input_file) :
  0 < error_count (g_first_pass (g_passes s)) ->
  let s' := main_file fopen_w s f in
  0 < error_count (g_first_pass (g_passes s'))
  /\ error_count (g_main s') = error_count (g_main s) + 1
  /\ exists m o,
      runs s' = runs s ++ [(m, o)]
      /\ forall r, o = Some r -> p1_rc r = 1 /\ p1_second r = None /\ ob_output r = None.
Proof.
  intros H s'. subst s'.
  destruct (main_file_cases fopen_w s f) as [[N E] | [Z0 (r & Er & E)]]; rewrite E;
    cbn [g_passes g_main runs].
  - split; [exact H |]. split; [reflexivity |].
    eexists. exists None. split; [reflexivity | discriminate].
  - destruct (first_pass_sticky fopen_w (in_stem f)
                (if am_opens f
                 then option_map (fun ls => read_lines (file_text ls))
                        (am_file (process_macros fopen_w (rename_ok f) (in_stem f)
                                                 (as_reads f) [] (g_preproc s)))
                 else None)
                (main_state (g_passes s)) H) as (A & B & C & D).
    rewrite <- Er in A, B, C, D.
    split; [unfold diags_after; now rewrite B |].
    split; [rewrite A; reflexivity |].
    eexists. exists (Some r). split; [reflexivity |].
    intros r' Hr. injection Hr as <-. auto.
Qed.

Lemma later_file_fails_witness :
  let s := mkMain diag_zero diag_zero (err_first_pass diags_zero "AS002") [] in
  let f := mkInput "prog" (Some [("stop", true)]) true true in
  let s' := main_file (fun _ => true) s f in
  0 < error_count (g_first_pass (g_passes s'))
  /\ error_count (g_main s') = error_count (g_main s) + 1
  /\ exists m o,
      runs s' = runs s ++ [(m, o)]
      /\ forall r, o = Some r -> p1_rc r = 1 /\ p1_second r = None /\ ob_output r = None.
Proof.
  apply (later_file_fails (fun _ => true)
           (mkMain diag_zero diag_zero (err_first_pass diags_zero "AS002") [])
           (mkInput "prog" (Some [("stop", true)]) true true)).
  cbn. lia.
Defined.

(** The driver runs the first pass on the lines the preprocessor
    wrote: when the preprocessor succeeds on reads that obey the
    contract of [fgets] and the output file can be opened, the run
    recorded for the file is that of [first_pass] on exactly those
    lines, from empty images and the sinks as they stand. *)
Theorem driver_feeds_first_pass (fopen_w : string -> bool) (s : main_state_t)
        (f : input_file) (reads : list (string * bool)) (ls : list string) :
  as_reads f = Some reads ->
  am_opens f = true ->
  Forall (fun rd => fgets_read (fst rd)
                    /\ (snd rd = true -> strchr (fst rd) NL = None ->
                        slen (fst rd) < MAX_LINE_LEN - 1)) reads ->
  let m := process_macros fopen_w (rename_ok f) (in_stem f) (Some reads) [] (g_preproc s) in
  am_file m = Some ls ->
  runs (main_file fopen_w s f)
  = runs s ++ [(m, Some (first_pass fopen_w (in_stem f) (Some ls) (main_state (g_passes s))))]
  /\ g_preproc (main_file fopen_w s f) = g_preproc s.
Proof.
  intros Hr Ho Hc m Ham.
  pose proof (read_back fopen_w (rename_ok f) (in_stem f) reads (g_preproc s) ls Hc Ham) as Hb.
  assert (Hrc : mc_rc m = 0 /\ mc_diag m = g_preproc s).
  { subst m. unfold process_macros in *.
    destruct (fopen_w _); cbn [negb] in *; [| discriminate].
    set (st := fold_left process_macros_line reads _) in *.
    set (d1 := match cur st with Some _ => _ | None => _ end) in *.
    destruct (fold_macros_ok reads _ (initial_macros_ok (g_preproc s))) as [_ Hle].
    fold st in Hle. cbn [g_macros] in Hle.
    assert (H1 : sink_le (g_preproc s) d1).
    { subst d1. destruct (cur st); [now apply sink_le_step | exact Hle]. }
    destruct (Z.ltb_spec (error_count (g_preproc s)) (error_count d1)); [discriminate |].
    destruct (rename_ok f); [| discriminate]. cbn. split; [reflexivity |].
    now apply sink_le_same. }
  destruct Hrc as [Hrc Hd].
  destruct (main_file_cases fopen_w s f) as [[N E] | [Z0 (r & Er & E)]].
  - rewrite Hr in N. fold m in N. contradiction.
  - rewrite E. cbn [runs g_preproc]. rewrite Hr in *. fold m in Er |- *.
    rewrite Ho, Ham in Er. cbn [option_map] in Er. rewrite Hb in Er.
    rewrite Er, Hd. split; reflexivity.
Qed.

Lemma driver_feeds_first_pass_witness :
  let s := mkMain diag_zero diag_zero diags_zero [] in
  let f := mkInput "prog" (Some [("  stop " +++ NLs, false)]) true true in
  let m := process_macros (fun _ => true) (rename_ok f) (in_stem f)
                          (Some [("  stop " +++ NLs, false)]) [] (g_preproc s) in
  runs (main_file (fun _ => true) s f)
  = runs s ++ [(m, Some (first_pass (fun _ => true) (in_stem f) (Some ["stop" +++ NLs])
                                    (main_state (g_passes s))))]
  /\ g_preproc (main_file (fun _ => true) s f) = g_preproc s.
Proof.
  apply (driver_feeds_first_pass (fun _ => true)
           (mkMain diag_zero diag_zero diags_zero [])
           (mkInput "prog" (Some [("  stop " +++ NLs, false)]) true true)
           [("  stop " +++ NLs, false)] ["stop" +++ NLs]); try reflexivity.
  constructor; [| constructor]. cbn [fst snd]. split; [| discriminate].
  split; [discriminate |]. exists "  stop ". split; [reflexivity | now right].
Defined.

(** ** The object file *)

Lemma write_code_lines (mw : list machine_word) :
  Forall (fun w => 0 <= address w < 2 ^ 32 /\ 0 <= value w < 256 /\ 0 <= are w < 4) mw ->
  forall addr_buf word_str,
    fst (write_code_section mw OB_ADDR_WIDTH_DEFAULT addr_buf word_str)
    = file_text (map ob_code_line mw).
Proof.
  induction 1 as [| w next (Ha & Hv & Hr) Hn IH]; intros ab ws; [reflexivity |].
  cbn [write_code_section map file_text fold_right].
  specialize (IH (to_base4_letters (to_unsigned (address w)) OB_ADDR_WIDTH_DEFAULT ab)
                 (word10_to_letters_code (Z.land (value w) PAYLOAD8_MASK)
                                         (Z.land (are w) ARE2_MASK) ws)).
  destruct (write_code_section next _ _ _) as [rest bufs]. cbn [fst] in *.
  rewrite IH. fold (file_text (map ob_code_line next)).
  unfold ob_code_line, word10_to_letters_code.
  rewrite to_unsigned_small by exact Ha.
  rewrite !land_255, !land_3, !Z.mod_mod by lia.
  rewrite (Z.mod_small (value w)) by lia. rewrite (Z.mod_small (are w)) by lia.
  rewrite lor_shift2 by lia.
  unfold to_base4_letters, OB_ADDR_WIDTH_DEFAULT, WORD10_DIGITS.
  change (4 <=? 0) with false. change (5 <=? 0) with false. cbv iota.
  now rewrite !app_assoc_s.
Qed.

Lemma write_data_lines (dw : list data_word) :
  Forall (fun w => 0 <= d_address w < 2 ^ 32 /\ 0 <= d_value w < 2 ^ 16) dw ->
  forall addr_buf word_str,
    write_data_section dw OB_ADDR_WIDTH_DEFAULT addr_buf word_str
    = file_text (map ob_data_line dw).
Proof.
  induction 1 as [| w next (Ha & Hv) Hn IH]; intros ab ws; [reflexivity |].
  cbn [write_data_section map file_text fold_right].
  rewrite IH. fold (file_text (map ob_data_line next)).
  unfold ob_data_line, word10_to_letters_data.
  rewrite !to_unsigned_small by lia. rewrite land_1023.
  unfold to_base4_letters, OB_ADDR_WIDTH_DEFAULT, WORD10_DIGITS.
  change (4 <=? 0) with false. change (5 <=? 0) with false. cbv iota.
  now rewrite !app_assoc_s.
Qed.

Lemma resolve_ranges (symtab : table) (head : list machine_word) :
  forall ext_ptr,
    Forall (fun w => 0 <= value w < 256 /\ 0 <= are w < 4) head ->
    Forall (fun w => 0 <= value w < 256 /\ 0 <= are w < 4)
           (fst (resolve_labels_in_place head symtab ext_ptr)).
Proof.
  induction head as [| mw next IH]; intros ext_ptr H; [constructor |].
  inversion H as [| ? ? [Hv Hr] Hn]; subst. cbn [resolve_labels_in_place].
  destruct (resolve_word mw symtab ext_ptr) as [mw' ext1] eqn:Ew.
  specialize (IH ext1 Hn).
  destruct (resolve_labels_in_place next symtab ext1) as [next' ext2]. cbn [fst] in *.
  constructor; [| exact IH].
  unfold resolve_word in Ew.
  destruct (String.eqb (label mw) EmptyString); [injection Ew as <- _; auto |].
  destruct (find_symbol symtab (label mw)) as [hit |].
  { injection Ew as <- _. cbn. split; [apply Z.mod_pos_bound; lia | unfold ARE_REL; lia]. }
  destruct (extern_use ext_ptr (label mw) (address mw)); injection Ew as <- _; cbn;
    (split; [lia | unfold ARE_EXT; lia]).
Qed.

(** The object file of a run: after the header line come one line
    per code word and then one line per data word, in image order.
    A code line is the address in four base-4 letters, a space, and
    [payload * 4 + ARE] in five letters; code addresses are 100, 101,
    ...  A data line is the address, a space, and the low ten bits of
    the value in five letters. *)
Theorem object_file_layout (fopen_w : string -> bool) (stem : string)
        (lines : list string) (ds : diags) (content : string) :
  let r := first_pass fopen_w stem (Some lines) (main_state ds) in
  let st := p1_state r in
  ob_output r = Some content ->
  exists p2,
    p1_second r = Some p2
    /\ content
       = ob_header (IC st - 100) (DC st)
         +++ file_text (map ob_code_line (p2_code p2))
         +++ file_text (map ob_data_line (data_img st))
    /\ Z.of_nat (List.length (p2_code p2)) = IC st - 100
    /\ Z.of_nat (List.length (data_img st)) = DC st
    /\ forall i w,
        nth_error (p2_code p2) i = Some w ->
        address w = 100 + Z.of_nat i /\ 0 <= value w < 256 /\ 0 <= are w < 4.
Proof.
  cbn zeta. intro Hob.
  destruct (first_pass_invariants fopen_w stem lines ds) as [Hc Hi].
  set (r := first_pass fopen_w stem (Some lines) (main_state ds)) in *.
  set (st := p1_state r) in *.
  unfold ob_output in Hob.
  destruct (p1_second r) as [p2 |] eqn:E2; [| discriminate].
  destruct (first_pass_second fopen_w stem lines (main_state ds) p2 E2) as [Hcl Hp2].
  fold r in Hcl, Hp2. fold st in Hcl, Hp2.
  exists p2. split; [reflexivity |].
  destruct Hc as (C1 & C2 & C3 & _). specialize (C3 (clean_no_error _ _ _ _ Hcl)).
  destruct Hi as ((_ & Hn & Hw) & Hdn & Hdw & _).
  cbn [em_IC em_image] in Hn, Hw. unfold IC_INIT_VALUE, OB_SUM_LIMIT in *.
  (* the resolved image *)
  pose proof (resolve_usage (symtab st) (ic_image st) (ext_list st)) as (_ & Haddr & _ & _).
  assert (Hrange : Forall (fun w => 0 <= value w < 256 /\ 0 <= are w < 4) (ic_image st)).
  { apply Forall_forall. intros w Hin. apply In_nth_error in Hin. destruct Hin as [i Hin].
    destruct (Hw i w Hin) as (_ & A & B). auto. }
  pose proof (resolve_ranges (symtab st) (ic_image st) (ext_list st) Hrange) as Hres.
  assert (Hcode : forall i w,
             nth_error (fst (resolve_labels_in_place (ic_image st) (symtab st) (ext_list st))) i
             = Some w ->
             address w = 100 + Z.of_nat i /\ 0 <= value w < 256 /\ 0 <= are w < 4).
  { intros i w Hin.
    assert (Ha : nth_error (map address (fst (resolve_labels_in_place (ic_image st)
                                                (symtab st) (ext_list st)))) i
                 = Some (address w)) by (rewrite nth_error_map, Hin; reflexivity).
    rewrite Haddr, nth_error_map in Ha.
    destruct (nth_error (ic_image st) i) as [w0 |] eqn:E0; [| discriminate].
    injection Ha as Ha. destruct (Hw i w0 E0) as (A & _).
    assert (Hlt : (i < List.length (ic_image st))%nat) by (apply nth_error_Some; congruence).
    rewrite Forall_forall in Hres. specialize (Hres w (nth_error_In _ _ Hin)).
    split; [| exact Hres]. rewrite <- Ha, A. apply to_int_small. lia. }
  assert (Hlen : List.length (fst (resolve_labels_in_place (ic_image st) (symtab st)
                                                           (ext_list st)))
                 = List.length (ic_image st)).
  { rewrite <- (length_map address), Haddr. apply length_map. }
  (* the writer *)
  rewrite Hp2 in Hob |- *. unfold second_pass in *.
  destruct (0 <? error_count _); [discriminate |].
  destruct (resolve_labels_in_place (ic_image st) (symtab st) (ext_list st))
    as [code1 ext1] eqn:Er.
  cbn [fst] in *.
  destruct (write_ob_base4_only fopen_w stem code1 (data_img st) (IC st - 100)
                                OB_ADDR_WIDTH_DEFAULT (DC st) (diagnostics st))
    as [ds1 ob] eqn:Eo.
  destruct (write_ent_base4_only _ _ _ _) as [ds2 ent].
  destruct (write_ext_base4_only _ _ _ _) as [ds3 ext]. cbn [ob_file p2_code] in *.
  subst ob. split; [| split; [lia | split; [exact Hdn | exact Hcode]]].
  unfold write_ob_base4_only in Eo.
  destruct (_ <? _); [discriminate |].
  destruct (negb _); [discriminate |].
  pose proof (write_code_lines code1) as Hcl1.
  pose proof (write_data_lines (data_img st)) as Hdl.
  destruct (write_code_section code1 _ _ _) as [code_text [b1 b2]] eqn:Ec.
  injection Eo as _ <-.
  assert (Hc1 : Forall (fun w => 0 <= address w < 2 ^ 32 /\ 0 <= value w < 256
                                 /\ 0 <= are w < 4) code1).
  { apply Forall_forall. intros w Hin. apply In_nth_error in Hin. destruct Hin as [i Hin].
    destruct (Hcode i w Hin) as (A & B & C).
    assert (Hlt : (i < List.length code1)%nat) by (apply nth_error_Some; congruence).
    repeat split; lia. }
  assert (Hd1 : Forall (fun w => 0 <= d_address w < 2 ^ 32 /\ 0 <= d_value w < 2 ^ 16)
                       (data_img st)).
  { apply Forall_forall. intros w Hin. apply In_nth_error in Hin. destruct Hin as [i Hin].
    destruct (Hdw i w Hin) as (A & ic & Hic & B).
    assert (Hlt : (i < List.length (data_img st))%nat) by (apply nth_error_Some; congruence).
    split; [| exact A]. rewrite B, to_int_small; lia. }
  specialize (Hcl1 Hc1 (to_base4_letters_header (to_unsigned (IC st - 100)))
                   (to_base4_letters_header (to_unsigned (DC st)))).
  rewrite Ec in Hcl1. cbn [fst] in Hcl1. rewrite Hcl1, (Hdl Hd1).
  unfold ob_header, TABs. cbn [String.append]. now rewrite !app_assoc_s.
Qed.

Lemma object_file_layout_witness :
  let r := first_pass (fun _ => true) "ps" (Some (am_lines ["stop"; "X: .data 7"]))
                      (main_state diags_zero) in
  let st := p1_state r in
  exists p2,
    p1_second r = Some p2
    /\ TABs +++ "b" +++ TABs +++ "b" +++ NLs +++ "bcba ddaaa" +++ NLs +++ "bcbb aaabd" +++ NLs
       = ob_header (IC st - 100) (DC st)
         +++ file_text (map ob_code_line (p2_code p2))
         +++ file_text (map ob_data_line (data_img st))
    /\ Z.of_nat (List.length (p2_code p2)) = IC st - 100
    /\ Z.of_nat (List.length (data_img st)) = DC st
    /\ forall i w,
        nth_error (p2_code p2) i = Some w ->
        address w = 100 + Z.of_nat i /\ 0 <= value w < 256 /\ 0 <= are w < 4.
Proof.
  apply (object_file_layout (fun _ => true) "ps" (am_lines ["stop"; "X: .data 7"]) diags_zero).
  vm_compute. reflexivity.
Defined.

(** ** Matrix operands *)







